(** * jaxfg: factor stacks and the Levenberg-Marquardt iteration

    A shallow embedding of [jaxfg/core/_factor_stack.py] and
    [jaxfg/solvers/_levenberg_marquardt_solver.py], followed by the
    properties of these two modules.

    Conventions of the embedding.
    - Scalars ([hints.Scalar]: cost, damping, thresholds) are exact rationals
      [Q]; rounding, infinities and NaN of the floating-point backends are
      outside the model.
    - One-dimensional float arrays are [list Q], integer index arrays are
      lists (of lists) of [Z].
    - Python exceptions are values of [PyError], and a function that can
      raise returns a [result].
    - Classes whose source is not part of these two modules (variables,
      factors, the factor graph, the linear solver, the solver mixins) are
      interfaces: type classes or records of methods. *)

From Stdlib Require Import QArith Qminmax Qabs ZArith Lia.
From stdpp Require Import base list gmap strings.

Set Default Proof Using "Type".

(* ================================================================== *)
(** * Python exceptions and fallible computations *)
(* ================================================================== *)

(** The exceptions that the embedded code can raise. *)
Inductive PyError : Type :=
| AssertionError (msg : string)
| IndexError
| KeyError
| TypeError
| ValueError (msg : string).

(** A computation either returns a value or raises. *)
Inductive result (A : Type) : Type :=
| Ok (a : A)
| Raise (e : PyError).

Arguments Ok {A} a.
Arguments Raise {A} e.

#[global] Instance result_ret : MRet result := fun A a => Ok a.

#[global] Instance result_bind : MBind result := fun A B f r =>
  match r with
  | Ok a => f a
  | Raise e => Raise e
  end.

#[global] Instance result_fmap : FMap result := fun A B f r =>
  match r with
  | Ok a => Ok (f a)
  | Raise e => Raise e
  end.

(** [for x in l: acc = f(acc, x)], stopping at the first exception. *)
Fixpoint foldM {A B : Type} (f : B -> A -> result B) (l : list A) (acc : B)
    : result B :=
  match l with
  | [] => Ok acc
  | x :: l' => acc' ← f acc x; foldM f l' acc'
  end.

(** [enumerate(l)], counting from [start]. *)
Fixpoint enumerate_from {A : Type} (start : nat) (l : list A)
    : list (nat * A) :=
  match l with
  | [] => []
  | x :: l' => (start, x) :: enumerate_from (S start) l'
  end.

Definition enumerate {A : Type} (l : list A) : list (nat * A) :=
  enumerate_from 0 l.

(** [l[i]] on a list or tuple. *)
Definition list_getitem {A : Type} (l : list A) (i : nat) : result A :=
  match l !! i with
  | Some x => Ok x
  | None => Raise IndexError
  end.

(** [l[i].append(x)] on a tuple of lists. *)
Definition append_at {A : Type} (l : list (list A)) (i : nat) (x : A)
    : result (list (list A)) :=
  match l !! i with
  | Some xs => Ok (<[i := xs ++ [x]]> l)
  | None => Raise IndexError
  end.

(* ================================================================== *)
(** * Arrays *)
(* ================================================================== *)

(** ** Integer index arrays (numpy) *)

(** [onp.arange(start, stop)]. *)
Definition arange (start stop : Z) : list Z :=
  map (fun k => (start + Z.of_nat k)%Z) (seq 0 (Z.to_nat (stop - start))).

(** [onp.array(rows)] on a list of one-dimensional arrays: a two-dimensional
    array when the rows have one length, an error otherwise (numpy 1.24 and
    later). The empty list gives the one-dimensional empty array, also
    written [[]]. *)
Definition onp_array (rows : list (list Z)) : result (list (list Z)) :=
  match rows with
  | [] => Ok []
  | row0 :: _ =>
      if forallb (fun row => length row =? length row0) rows
      then Ok rows
      else Raise (ValueError "inhomogeneous shape")
  end.

(** [flat.reshape((n, m))]: rows of [m] consecutive elements. *)
Fixpoint chunks {A : Type} (n m : nat) (flat : list A) : list (list A) :=
  match n with
  | O => []
  | S n' => take m flat :: chunks n' m (drop m flat)
  end.

Definition reshape_2d (flat : list Z) (n m : nat) : result (list (list Z)) :=
  if length flat =? n * m
  then Ok (chunks n m flat)
  else Raise (ValueError "cannot reshape array").

(** Broadcasting of one axis: an axis of the wanted length is kept, an axis
    of length one is repeated. *)
Definition broadcastable (have want : nat) : bool :=
  (have =? want) || (have =? 1).

Definition stretch {A : Type} (want : nat) (l : list A) : list A :=
  if length l =? want then l else flat_map (replicate want) l.

(** [onp.broadcast_to(a, target)] for a three-dimensional [a] of shape
    [shape_a]. *)
Definition broadcast_to_3d {A : Type} (a : list (list (list A)))
    (shape_a target : nat * nat * nat) : result (list (list (list A))) :=
  let '(a1, a2, a3) := shape_a in
  let '(n, r, d) := target in
  if broadcastable a1 n && broadcastable a2 r && broadcastable a3 d
  then Ok (stretch n (map (fun plane => stretch r (map (stretch d) plane)) a))
  else Raise (ValueError "operands could not be broadcast together").

(** [a[:, :, None]] for [a] of shape [(n, r)]: shape [(n, r, 1)]. *)
Definition expand_last {A : Type} (a : list (list A))
    : list (list (list A)) :=
  map (map (fun x => [x])) a.

(** [a[:, None, :]]: shape [(n, 1, d)] for a two-dimensional [a] of shape
    [(n, d)]; the one-dimensional empty array has too few axes. *)
Definition expand_middle {A : Type} (a : list (list A))
    : result (nat * nat * nat * list (list (list A))) :=
  match a with
  | [] => Raise IndexError
  | row0 :: _ => Ok (length a, 1, length row0, map (fun row => [row]) a)
  end.

(** [onp.stack((a, b), axis=-1)] of two arrays of one three-dimensional
    shape: the array of pairs. *)
Definition stack_last (a b : list (list (list Z)))
    : list (list (list (Z * Z))) :=
  zip_with (zip_with zip) a b.

(** [c.reshape((m, 2))] of an array of pairs with three leading axes: the
    row-major list of its pairs, which must be [m] long. *)
Definition reshape_pairs (c : list (list (list (Z * Z)))) (m : nat)
    : result (list (Z * Z)) :=
  let flat := concat (concat c) in
  if length flat =? m
  then Ok flat
  else Raise (ValueError "cannot reshape array").

(** ** Float arrays of any rank *)

(** The elements of an array, nested by axis. *)
#[local] Unset Elimination Schemes.
Inductive ndarray : Type :=
| Scalar (x : Q)
| Axis (items : list ndarray).
#[local] Set Elimination Schemes.

(** [a.shape], read along the first items. *)
Fixpoint shape (a : ndarray) : list nat :=
  match a with
  | Scalar _ => []
  | Axis items =>
      length items ::
      match items with
      | [] => []
      | item :: _ => shape item
      end
  end.

(** The two array libraries: [onp] (numpy) and [jnp] (jax.numpy). *)
Inductive Backend : Type := Onp | Jnp.

(** [hints.Array]: an array of either library. *)
Record Array : Type := {
  backend : Backend;
  values : ndarray;
}.

(** [lib.stack(arrays, axis=0)] for [lib] one of the two libraries. Both
    raise on an empty sequence and on arrays of different shapes, and put
    the arrays along a new leading axis. *)
Definition stack (lib : Backend) (arrays : list Array) : result Array :=
  match arrays with
  | [] => Raise (ValueError "need at least one array to stack")
  | a0 :: _ =>
      if forallb (fun a => bool_decide (shape (values a) = shape (values a0)))
                 arrays
      then Ok {| backend := lib; values := Axis (map values arrays) |}
      else Raise (ValueError "all input arrays must have the same shape")
  end.

(** [storage[i]] of a one-dimensional jax array: a negative index counts
    from the end, and an index out of bounds is clamped. *)
Definition jnp_getitem (storage : list Q) (i : Z) : Q :=
  let n := Z.of_nat (length storage) in
  let i := if (i <? 0)%Z then (i + n)%Z else i in
  let i := Z.max 0 (Z.min i (n - 1)) in
  nth (Z.to_nat i) storage 0%Q.

(** [storage[indices]] for a two-dimensional index array. *)
Definition gather (storage : list Q) (indices : list (list Z))
    : list (list Q) :=
  map (map (jnp_getitem storage)) indices.

(** [storage[start:stop]]: a negative bound counts from the end, and both
    bounds are cut to the length of the array. *)
Definition slice (storage : list Q) (start stop : Z) : list Q :=
  let n := Z.of_nat (length storage) in
  let norm := fun i : Z =>
    Z.max 0 (Z.min (if (i <? 0)%Z then (i + n)%Z else i) n) in
  take (Z.to_nat (norm stop - norm start))
       (drop (Z.to_nat (norm start)) storage).

(* ================================================================== *)
(** * Variables, factors and storage *)
(* ================================================================== *)

(** [VariableAssignments]: the flat storage buffer and its metadata. *)
Record VariableAssignments (StorageMetadata : Type) : Type := {
  storage : list Q;
  storage_metadata : StorageMetadata;
}.

Arguments storage {StorageMetadata} _.
Arguments storage_metadata {StorageMetadata} _.

Module VariableBase.

(** What the stack asks of the variable classes (the variable capability
    of the spec). [VT] is the type of the classes themselves, [Value] that
    of the values they unflatten to. *)
Class Interface (VT Value : Type) : Type := {
  class_eq_dec :: EqDecision VT;
  (** The strict ancestors of a class. *)
  proper_bases : VT -> list VT;
  get_parameter_dim : VT -> nat;
  get_local_parameter_dim : VT -> nat;
  unflatten : VT -> list Q -> Value;
}.

(** A variable: its identity, which is its key in the storage metadata,
    and its class, [type(variable)]. *)
Record t (VT : Type) : Type := {
  ident : positive;
  type_of : VT;
}.

Arguments ident {VT} _.
Arguments type_of {VT} _.

#[global] Instance eq_dec {VT : Type} `{EqDecision VT} : EqDecision (t VT).
Proof. solve_decision. Defined.

(** [isinstance(variable, cls)]. *)
Definition isinstance {VT Value : Type} `{Interface VT Value}
    (variable : t VT) (cls : VT) : bool :=
  bool_decide (type_of variable = cls)
  || bool_decide (cls ∈ proper_bases (type_of variable)).

(** Modelled from the spec: the operand of an anonymous factor, what
    [type(v).canonical_instance()] returns; [VariableBase] is not among the
    sources. A variable is "used only as an index into storage" and a
    factor type has an "ordered list of variable-type slots": the canonical
    instance keeps the class of the operand, which
    [compute_residual_vector] reads back from the stacked factor with
    [type(variable)], and has one fixed identity. *)
Definition canonical_instance {VT : Type} (cls : VT) : t VT :=
  {| ident := 1%positive; type_of := cls |}.

End VariableBase.

#[global] Existing Instance VariableBase.class_eq_dec.

(** [StorageMetadata]: the offset of every variable in the storage. *)
Record StorageMetadata : Type := {
  index_from_variable : gmap positive Z;
}.

(** [storage_metadata.index_from_variable[variable]]. *)
Definition index_of {VT : Type} (metadata : StorageMetadata)
    (variable : VariableBase.t VT) : result Z :=
  match index_from_variable metadata !! VariableBase.ident variable with
  | Some pos => Ok pos
  | None => Raise KeyError
  end.

Module FactorBase.

(** What the stack asks of the factor classes (the factor capability of
    the spec). The methods read the array fields of the factor and the
    values of its operands. *)
Class Interface (FT Value : Type) : Type := {
  class_eq_dec :: EqDecision FT;
  get_residual_dim : FT -> list ndarray -> nat;
  compute_residual_vector : FT -> list ndarray -> list Value -> ndarray;
  compute_residual_jacobians :
    FT -> list ndarray -> list Value -> list ndarray;
}.

(** Modelled from the spec: a factor, "an ordered tuple of variable
    instances (its operands) plus factor-type-specific parameters". As a
    pytree its class and its operands are static and its array fields are
    the leaves. *)
Record t (VT FT : Type) : Type := {
  type_of : FT;
  variables : list (VariableBase.t VT);
  leaves : list Array;
}.

Arguments type_of {VT FT} _.
Arguments variables {VT FT} _.
Arguments leaves {VT FT} _.

Section Pytree.
Context {VT FT : Type} `{EqDecision VT} `{EqDecision FT}.

(** Modelled from the spec: [FactorBase.anonymize_variables];
    [FactorBase] is not among the sources. The stack holds "one
    representative batched factor structure": every operand is replaced by
    the canonical instance of its class, so that the tree structures of
    factors connected to different variables can match. *)
Definition anonymize_variables (factor : t VT FT) : t VT FT :=
  {| type_of := type_of factor;
     variables :=
       map (fun v => VariableBase.canonical_instance (VariableBase.type_of v))
           (variables factor);
     leaves := leaves factor |}.

(** Modelled from the spec: the tree structure of a factor, everything but
    the contents of its leaves: its class, its operands and the number of
    its array fields. By the comment of [make], the structures of factors
    connected to different variables do not match, which is why the
    factors are made anonymous first. *)
Definition treedef (factor : t VT FT)
    : FT * list (VariableBase.t VT) * nat :=
  (type_of factor, variables factor, length (leaves factor)).

(** [jax.tree_map(f, *trees)] for an [f] of the leaves at one position:
    the structures are compared with that of the first tree before [f] is
    applied. *)
Definition tree_map (f : list Array -> result Array) (trees : list (t VT FT))
    : result (t VT FT) :=
  match trees with
  | [] => Raise TypeError
  | tree0 :: rest =>
      if forallb (fun tree => bool_decide (treedef tree = treedef tree0)) rest
      then
        leaves' ← mapM (fun j =>
            arrays ← mapM (fun tree => list_getitem (leaves tree) j) trees;
            f arrays)
          (seq 0 (length (leaves tree0)));
        Ok {| type_of := type_of tree0;
              variables := variables tree0;
              leaves := leaves' |}
      else Raise (ValueError "tree structure mismatch")
  end.

End Pytree.

End FactorBase.

#[global] Existing Instance FactorBase.class_eq_dec.

(* ================================================================== *)
(** * FactorStack: definitions *)
(* ================================================================== *)

(** [sparse.SparseCooCoordinates]: row and column index of every entry. *)
Record SparseCooCoordinates : Type := {
  rows : list Z;
  cols : list Z;
}.

Module FactorStack.

Section FactorStack.
Context {VT FT Value : Type}.
Context `{VariableBase.Interface VT Value} `{FactorBase.Interface FT Value}.

(** [FactorStack]: the number of factors, the stacked factor, and one index
    array per operand slot. *)
Record t : Type := {
  num_factors : nat;
  factor : FactorBase.t VT FT;
  value_indices : list (list (list Z));
}.

(** The constructor with [__post_init__]: one set of indices for each
    variable. *)
Definition new (num_factors : nat) (factor : FactorBase.t VT FT)
    (value_indices : list (list (list Z))) : result t :=
  if length value_indices =? length (FactorBase.variables factor)
  then Ok {| num_factors := num_factors;
             factor := factor;
             value_indices := value_indices |}
  else Raise (AssertionError "").

(** The body of the two nested loops of [make]: for the operand [variable]
    at slot [i], check its class against the first factor, look its offset
    up and append its range of offsets to the list of the slot. *)
Definition make_visit (factors : list (FactorBase.t VT FT))
    (storage_metadata : StorageMetadata)
    (value_indices_list : list (list (list Z)))
    (slot : nat * VariableBase.t VT) : result (list (list (list Z))) :=
  let '(i, variable) := slot in
  factor0 ← list_getitem factors 0;
  variable0 ← list_getitem (FactorBase.variables factor0) i;
  if VariableBase.isinstance variable (VariableBase.type_of variable0)
  then
    storage_pos ← index_of storage_metadata variable;
    append_at value_indices_list i
      (arange storage_pos
         (storage_pos
          + Z.of_nat (VariableBase.get_parameter_dim
                        (VariableBase.type_of variable))))
  else Raise (AssertionError "Variable types of stacked factors must match").

(** [make]. *)
Definition make (factors : list (FactorBase.t VT FT))
    (storage_metadata : StorageMetadata) (use_onp : bool) : result t :=
  let jnp := if use_onp then Onp else Jnp in
  (* Stack factors in our group. *)
  stacked_factor ←
    FactorBase.tree_map (stack jnp)
      (map FactorBase.anonymize_variables factors);
  (* Get indices for each variable of each factor. *)
  let value_indices_list : list (list (list Z)) :=
    replicate (length (FactorBase.variables stacked_factor)) [] in
  value_indices_list ←
    foldM (fun acc factor =>
             foldM (make_visit factors storage_metadata) 
                   (enumerate (FactorBase.variables factor)) acc)
          factors value_indices_list;
  (* Stack *)
  value_indices_stacked ← mapM onp_array value_indices_list;
  (* Record values. *)
  new (length factors) stacked_factor value_indices_stacked.

(** The body of the first two nested loops of [compute_jacobian_coords]. *)
Definition coords_visit (local_storage_metadata : StorageMetadata)
    (local_value_indices_list : list (list (list Z)))
    (slot : nat * VariableBase.t VT) : result (list (list (list Z))) :=
  let '(i, variable) := slot in
  storage_pos ← index_of local_storage_metadata variable;
  append_at local_value_indices_list i
    (arange storage_pos
       (storage_pos
        + Z.of_nat (VariableBase.get_local_parameter_dim
                      (VariableBase.type_of variable)))).

(** [compute_jacobian_coords]. *)
Definition compute_jacobian_coords (factors : list (FactorBase.t VT FT))
    (local_storage_metadata : StorageMetadata) (row_offset : Z)
    : result (list SparseCooCoordinates) :=
  factor0 ← list_getitem factors 0;
  let variable_types : list VT :=
    map VariableBase.type_of (FactorBase.variables factor0) in
  (* Get indices for each variable. *)
  let local_value_indices_list : list (list (list Z)) :=
    replicate (length variable_types) [] in
  local_value_indices_list ←
    foldM (fun acc factor =>
             foldM (coords_visit local_storage_metadata)
                   (enumerate (FactorBase.variables factor)) acc)
          factors local_value_indices_list;
  (* Stack *)
  local_value_indices_stacked ← mapM onp_array local_value_indices_list;
  (* Get residual indices. *)
  let num_factors := length factors in
  let residual_dim :=
    FactorBase.get_residual_dim (FactorBase.type_of factor0)
      (map values (FactorBase.leaves factor0)) in
  residual_indices ←
    reshape_2d (arange 0 (Z.of_nat (num_factors * residual_dim)))
      num_factors residual_dim;
  (* Get Jacobian coordinates. *)
  mapM (fun '(variable_index, variable_type) =>
          let variable_dim :=
            VariableBase.get_local_parameter_dim variable_type in
          let target := (num_factors, residual_dim, variable_dim) in
          (* Row indices. *)
          row_block ←
            broadcast_to_3d (expand_last residual_indices)
              (num_factors, residual_dim, 1) target;
          let row_block :=
            map (map (map (fun x => (x + row_offset)%Z))) row_block in
          (* Column indices. *)
          stacked ← list_getitem local_value_indices_stacked variable_index;
          '(shape_cols, expanded) ← expand_middle stacked;
          col_block ← broadcast_to_3d expanded shape_cols target;
          coords ←
            reshape_pairs (stack_last row_block col_block)
              (num_factors * residual_dim * variable_dim);
          Ok {| rows := map fst coords; cols := map snd coords |})
       (enumerate variable_types).

(** [get_residual_dim]. *)
Definition get_residual_dim (self : t) : nat :=
  FactorBase.get_residual_dim (FactorBase.type_of (factor self))
    (map values (FactorBase.leaves (factor self)))
  * num_factors self.

(** ** Batched evaluation *)

(** The length of the leading axis of an array, which [jax.vmap] maps
    over; a scalar has none. *)
Definition axis0_length (a : ndarray) : result nat :=
  match a with
  | Scalar _ => Raise (ValueError "vmap over a rank-0 array")
  | Axis items => Ok (length items)
  end.

(** [a[i]] along the leading axis. *)
Definition axis0_item (a : ndarray) (i : nat) : result ndarray :=
  match a with
  | Scalar _ => Raise IndexError
  | Axis items => list_getitem items i
  end.

(** [jax.vmap(f)(factor, values)]: [f] applied to the [i]-th item of every
    leaf of the stacked factor and of every stacked value, for each [i] of
    the common leading axis. A stacked value is the list of its items. *)
Definition vmap {B : Type} (f : list ndarray -> list Value -> B)
    (stacked_leaves : list ndarray) (values_stacked : list (list Value))
    : result (list B) :=
  leaf_sizes ← mapM axis0_length stacked_leaves;
  match leaf_sizes ++ map length values_stacked with
  | [] => Raise (ValueError "vmap needs a mapped argument")
  | n :: sizes =>
      if forallb (Nat.eqb n) sizes
      then
        mapM (fun i =>
                leaves_i ← mapM (fun a => axis0_item a i) stacked_leaves;
                values_i ← mapM (fun v => list_getitem v i) values_stacked;
                Ok (f leaves_i values_i))
             (seq 0 n)
      else Raise (ValueError "vmap got inconsistent sizes")
  end.

(** The inputs of the factors, stacked: for each slot, the values gathered
    through the index array of the slot and unflattened row by row. *)
Definition values_stacked (self : t)
    (assignments : VariableAssignments StorageMetadata)
    : list (list Value) :=
  zip_with (fun variable indices =>
              map (VariableBase.unflatten (VariableBase.type_of variable))
                  (gather (storage assignments) indices))
           (FactorBase.variables (factor self)) (value_indices self).

(** [compute_residual_vector]: the array of shape [(N, residual_dim)]. *)
Definition compute_residual_vector (self : t)
    (assignments : VariableAssignments StorageMetadata) : result ndarray :=
  residual_vector ←
    vmap (FactorBase.compute_residual_vector
            (FactorBase.type_of (factor self)))
         (map values (FactorBase.leaves (factor self)))
         (values_stacked self assignments);
  Ok (Axis residual_vector).

(** The output of a mapped function that returns a tuple: one stacked
    array per component. *)
Definition unzip_outputs (outputs : list (list ndarray)) : list ndarray :=
  match outputs with
  | [] => []
  | output0 :: _ =>
      map (fun j => Axis (map (fun output => nth j output (Axis [])) outputs))
          (seq 0 (length output0))
  end.

(** [compute_residual_jacobian]: one array per operand slot. *)
Definition compute_residual_jacobian (self : t)
    (assignments : VariableAssignments StorageMetadata)
    : result (list ndarray) :=
  jacobians ←
    vmap (FactorBase.compute_residual_jacobians
            (FactorBase.type_of (factor self)))
         (map values (FactorBase.leaves (factor self)))
         (values_stacked self assignments);
  Ok (unzip_outputs jacobians).

(** ** One factor at a time *)

(** Modelled from the spec: [VariableAssignments.get_value], the value of
    one variable: its slice of the storage, from its offset over its
    storage dimension, unflattened by its own class. *)
Definition get_value (assignments : VariableAssignments StorageMetadata)
    (variable : VariableBase.t VT) : result Value :=
  storage_pos ← index_of (storage_metadata assignments) variable;
  Ok (VariableBase.unflatten (VariableBase.type_of variable)
        (slice (storage assignments) storage_pos
           (storage_pos
            + Z.of_nat (VariableBase.get_parameter_dim
                          (VariableBase.type_of variable))))).

(** The residual of a single factor on the assignments. *)
Definition factor_residual_vector (factor : FactorBase.t VT FT)
    (assignments : VariableAssignments StorageMetadata) : result ndarray :=
  operands ← mapM (get_value assignments) (FactorBase.variables factor);
  Ok (FactorBase.compute_residual_vector (FactorBase.type_of factor)
        (map values (FactorBase.leaves factor)) operands).

(** The Jacobians of a single factor on the assignments, one per slot. *)
Definition factor_residual_jacobians (factor : FactorBase.t VT FT)
    (assignments : VariableAssignments StorageMetadata)
    : result (list ndarray) :=
  operands ← mapM (get_value assignments) (FactorBase.variables factor);
  Ok (FactorBase.compute_residual_jacobians (FactorBase.type_of factor)
        (map values (FactorBase.leaves factor)) operands).

End FactorStack.

Arguments t VT FT : clear implicits.

End FactorStack.

(* ================================================================== *)
(** * LevenbergMarquardtSolver: definitions *)
(* ================================================================== *)

Module LevenbergMarquardt.

Section Solver.

(** [StorageMetadata] and [sparse.SparseCooMatrix] are only passed around by
    the solver. *)
Context {StorageMetadata SparseCooMatrix : Type}.

(** [_LevenbergMarquardtState]: the fields of [NonlinearSolverState]
    followed by [lambd]. *)
Record _LevenbergMarquardtState := {
  iterations : Z;
  assignments : VariableAssignments StorageMetadata;
  cost : Q;
  residual_vector : list Q;
  done : bool;
  lambd : Q;
}.

(** The methods of [StackedFactorGraph] that the solver calls. *)
Record StackedFactorGraph := {
  compute_cost : VariableAssignments StorageMetadata -> Q * list Q;
  compute_whitened_residual_jacobian :
    VariableAssignments StorageMetadata -> list Q -> SparseCooMatrix;
  local_storage_metadata : StorageMetadata;
}.

(** [self.linear_solver]: [solve_subproblem(A, ATb, lambd, iteration)]. *)
Record LinearSolver := {
  solve_subproblem : SparseCooMatrix -> list Q -> Q -> Z -> list Q;
}.

(** Array operations of the collaborating modules: [A.T @ v] of the sparse
    module and [VariableAssignments.manifold_retract]. *)
Class ArrayOps := {
  T_matmul : SparseCooMatrix -> list Q -> list Q;
  manifold_retract :
    VariableAssignments StorageMetadata ->
    VariableAssignments StorageMetadata ->
    VariableAssignments StorageMetadata;
}.

(** [LevenbergMarquardtSolver]: its own four fields, and what it inherits
    from [NonlinearSolverBase], [_TerminationCriteriaMixin] and
    [_TrustRegionMixin]. The inherited methods are fields: their bodies
    belong to the mixins. *)
Record LevenbergMarquardtSolver := {
  lambda_initial : Q;
  lambda_factor : Q;
  lambda_min : Q;
  lambda_max : Q;
  linear_solver : LinearSolver;
  max_iterations : Z;
  step_quality_min : Q;
  compute_step_quality :
    SparseCooMatrix -> Q -> _LevenbergMarquardtState -> list Q -> Q;
  check_exceeded_max_iterations : _LevenbergMarquardtState -> bool;
  check_convergence :
    _LevenbergMarquardtState -> Q ->
    VariableAssignments StorageMetadata -> list Q -> bool;
}.

Context `{ArrayOps}.

(** [jnp.where(c, x, y)] with a scalar condition. *)
Definition jnp_where {A : Type} (c : bool) (x y : A) : A :=
  if c then x else y.

(** Unary minus on an array. *)
Definition neg (v : list Q) : list Q := map Qopp v.

(** [_initialize_state]. *)
Definition _initialize_state (self : LevenbergMarquardtSolver)
    (graph : StackedFactorGraph)
    (initial_assignments : VariableAssignments StorageMetadata)
    : _LevenbergMarquardtState :=
  let '(cost0, residual_vector0) := compute_cost graph initial_assignments in
  {| iterations := 0;
     assignments := initial_assignments;
     cost := cost0;
     residual_vector := residual_vector0;
     done := false;
     lambd := lambda_initial self |}.

(** The intermediate values of [_step], one definition per assignment of the
    source, so that statements can name them. *)

(** [A = graph.compute_whitened_residual_jacobian(...)]. *)
Definition step_A (graph : StackedFactorGraph)
    (state_prev : _LevenbergMarquardtState) : SparseCooMatrix :=
  compute_whitened_residual_jacobian graph
    (assignments state_prev) (residual_vector state_prev).

(** [ATb = A.T @ -state_prev.residual_vector]. *)
Definition step_ATb (graph : StackedFactorGraph)
    (state_prev : _LevenbergMarquardtState) : list Q :=
  T_matmul (step_A graph state_prev) (neg (residual_vector state_prev)).

(** [step_vector = self.linear_solver.solve_subproblem(...)]. *)
Definition step_vector (self : LevenbergMarquardtSolver)
    (graph : StackedFactorGraph) (state_prev : _LevenbergMarquardtState)
    : list Q :=
  solve_subproblem (linear_solver self)
    (step_A graph state_prev) (step_ATb graph state_prev)
    (lambd state_prev) (iterations state_prev).

(** [local_delta_assignments]. *)
Definition local_delta_assignments (self : LevenbergMarquardtSolver)
    (graph : StackedFactorGraph) (state_prev : _LevenbergMarquardtState)
    : VariableAssignments StorageMetadata :=
  {| storage := step_vector self graph state_prev;
     storage_metadata := local_storage_metadata graph |}.

(** [assignments_proposed]: the candidate. *)
Definition assignments_proposed (self : LevenbergMarquardtSolver)
    (graph : StackedFactorGraph) (state_prev : _LevenbergMarquardtState)
    : VariableAssignments StorageMetadata :=
  manifold_retract (assignments state_prev)
    (local_delta_assignments self graph state_prev).

(** [proposed_cost, residual_vector =
    graph.compute_cost(assignments_proposed)]. *)
Definition proposed_cost (self : LevenbergMarquardtSolver)
    (graph : StackedFactorGraph) (state_prev : _LevenbergMarquardtState) : Q :=
  fst (compute_cost graph (assignments_proposed self graph state_prev)).

Definition proposed_residual_vector (self : LevenbergMarquardtSolver)
    (graph : StackedFactorGraph) (state_prev : _LevenbergMarquardtState)
    : list Q :=
  snd (compute_cost graph (assignments_proposed self graph state_prev)).

(** The gain ratio that the acceptance test reads. *)
Definition step_quality (self : LevenbergMarquardtSolver)
    (graph : StackedFactorGraph) (state_prev : _LevenbergMarquardtState) : Q :=
  compute_step_quality self (step_A graph state_prev)
    (proposed_cost self graph state_prev) state_prev
    (step_vector self graph state_prev).

(** [accept_flag = self.compute_step_quality(...) >= self.step_quality_min]. *)
Definition accept_flag (self : LevenbergMarquardtSolver)
    (graph : StackedFactorGraph) (state_prev : _LevenbergMarquardtState)
    : bool :=
  Qle_bool (step_quality_min self) (step_quality self graph state_prev).

(** [_step]. The call to [self._hcb_print] only prints and is left out. *)
Definition _step (self : LevenbergMarquardtSolver)
    (graph : StackedFactorGraph) (state_prev : _LevenbergMarquardtState)
    : _LevenbergMarquardtState :=
  let accept := accept_flag self graph state_prev in
  (* Update damping *)
  let lambd' :=
    jnp_where accept
      (state_prev.(lambd) / self.(lambda_factor))%Q
      (Qmax self.(lambda_min)
         (Qmin (state_prev.(lambd) * self.(lambda_factor))%Q
               self.(lambda_max))) in
  (* Get output assignments *)
  let assignments' :=
    {| storage :=
         jnp_where accept
           (storage (assignments_proposed self graph state_prev))
           (storage (assignments state_prev));
       storage_metadata := storage_metadata (assignments state_prev) |} in
  (* Check for convergence *)
  let done' :=
    orb (check_exceeded_max_iterations self state_prev)
        (andb accept
           (check_convergence self state_prev
              (proposed_cost self graph state_prev)
              (local_delta_assignments self graph state_prev)
              (step_ATb graph state_prev))) in
  {| iterations := iterations state_prev + 1;
     assignments := assignments';
     lambd := lambd';
     cost := jnp_where accept (proposed_cost self graph state_prev)
                       (cost state_prev);
     residual_vector := proposed_residual_vector self graph state_prev;
     done := done' |}.

(** [k] successive calls of [_step]. *)
Definition iterate_step (self : LevenbergMarquardtSolver)
    (graph : StackedFactorGraph) (k : nat)
    (state : _LevenbergMarquardtState) : _LevenbergMarquardtState :=
  Nat.iter k (_step self graph) state.

End Solver.

Arguments _LevenbergMarquardtState : clear implicits.
Arguments StackedFactorGraph : clear implicits.
Arguments LinearSolver : clear implicits.
Arguments LevenbergMarquardtSolver : clear implicits.
Arguments ArrayOps : clear implicits.

End LevenbergMarquardt.

(* ================================================================== *)
(** * A one-variable problem for the solver *)
(* ================================================================== *)

Module Toy.
Import LevenbergMarquardt.

(** Sum of squares of a residual vector. *)
Definition sum_squares (v : list Q) : Q :=
  fold_right Qplus 0%Q (map (fun x => x * x)%Q v).

(** A graph over one scalar variable with residual [r] and derivative [dr]:
    the Jacobian is the 1x1 matrix [dr x], stored as its entry. *)
Definition graph (r dr : Q -> Q) : StackedFactorGraph unit Q :=
  {| compute_cost := fun va =>
       let res := map r (storage va) in (sum_squares res, res);
     compute_whitened_residual_jacobian := fun va _ =>
       dr (hd 0%Q (storage va));
     local_storage_metadata := tt |}.

#[global] Instance array_ops : ArrayOps unit Q :=
  {| T_matmul := fun a v => map (Qmult a) v;
     manifold_retract := fun va delta =>
       {| storage := zip_with Qplus (storage va) (storage delta);
          storage_metadata := storage_metadata va |} |}.

(** Exact solve of the damped normal equations [(A^T A + lambda) d = ATb]. *)
Definition damped_solver : LinearSolver Q :=
  {| solve_subproblem := fun A ATb lam _ =>
       map (fun b => b / (A * A + lam))%Q ATb |}.

(** Modelled from the spec: [_TrustRegionMixin.compute_step_quality], whose
    module is not among the sources. "Compute a scalar gain ratio comparing
    actual cost reduction to the reduction predicted by the linear model":
    the quotient of the two reductions, the linear model being
    [|A d + r|^2]. *)
Definition gain_ratio (A : Q) (proposed_cost : Q)
    (state_prev : _LevenbergMarquardtState unit) (step : list Q) : Q :=
  let predicted_cost :=
    sum_squares (zip_with Qplus (map (Qmult A) step)
                                (residual_vector state_prev)) in
  ((cost state_prev - proposed_cost) / (cost state_prev - predicted_cost))%Q.

(** Modelled from the spec: [check_exceeded_max_iterations], "max-iteration
    count is reached" by the step being taken. *)
Definition exceeded (max_iterations : Z)
    (state_prev : _LevenbergMarquardtState unit) : bool :=
  (max_iterations <=? iterations state_prev + 1)%Z.

(** Modelled from the spec: [check_convergence], here the absolute
    cost-change criterion alone. *)
Definition converged (cost_tolerance : Q)
    (state_prev : _LevenbergMarquardtState unit) (cost_updated : Q)
    (local_delta : VariableAssignments unit) (negative_gradient : list Q)
    : bool :=
  Qle_bool (Qabs (cost state_prev - cost_updated)) cost_tolerance.

(** The solver with the default field values of the source. *)
Definition solver (ls : LinearSolver Q)
    : LevenbergMarquardtSolver unit Q :=
  {| lambda_initial := 5 # 10000;
     lambda_factor := 2;
     lambda_min := 1 # 100000;
     lambda_max := 10000000000;
     linear_solver := ls;
     max_iterations := 100;
     step_quality_min := 1 # 1000;
     compute_step_quality := gain_ratio;
     check_exceeded_max_iterations := exceeded 100;
     check_convergence := converged (1 # 100000) |}.

(** Residual [x^2 + 1]: far from linear near [x = 1/4]. *)
Definition parabola : StackedFactorGraph unit Q :=
  graph (fun x => x * x + 1)%Q (fun x => 2 * x)%Q.

Definition start (x : Q) : VariableAssignments unit :=
  {| storage := [x]; storage_metadata := tt |}.

(** The default solver with the exact linear solver. *)
Definition exact : LevenbergMarquardtSolver unit Q := solver damped_solver.

(** Initial states on the parabola: far from the minimum, near it, and
    close to the bottom, where the residual is nearly flat. *)
Definition far : _LevenbergMarquardtState unit :=
  _initialize_state exact parabola (start (1 # 4)).

Definition near : _LevenbergMarquardtState unit :=
  _initialize_state exact parabola (start 1).



(** A state of the last allowed iteration, and one with the damping at
    its lower bound. *)
Definition last_iteration : _LevenbergMarquardtState unit :=
  {| iterations := 99;
     assignments := start 1;
     cost := 4;
     residual_vector := [2%Q];
     done := false;
     lambd := lambda_initial exact |}.

Definition least_damped : _LevenbergMarquardtState unit :=
  {| iterations := 3;
     assignments := start 1;
     cost := 4;
     residual_vector := [2%Q];
     done := false;
     lambd := lambda_min exact |}.

End Toy.

(* ================================================================== *)
(** * A small family of variables and factors *)
(* ================================================================== *)

Module Sample.

(** Variable classes: real vectors of one and two components, and planar
    poses, stored on four numbers with a tangent space of three. *)
Inductive VariableClass : Type :=
| RealVector1
| RealVector2
| SE2Variable.

#[global] Instance variable_class_eq_dec : EqDecision VariableClass.
Proof. solve_decision. Defined.

#[global] Instance variables : VariableBase.Interface VariableClass (list Q) :=
  {| VariableBase.proper_bases := fun _ => [];
     VariableBase.get_parameter_dim := fun cls =>
       match cls with
       | RealVector1 => 1 | RealVector2 => 2 | SE2Variable => 4
       end;
     VariableBase.get_local_parameter_dim := fun cls =>
       match cls with
       | RealVector1 => 1 | RealVector2 => 2 | SE2Variable => 3
       end;
     VariableBase.unflatten := fun _ flat => flat |}.

(** Factor classes: [PriorFactor] pulls its operand to a target,
    [BetweenFactor] has residual [x0 - x1 - target]. Their one array field
    is the target. *)
Inductive FactorClass : Type :=
| PriorFactor
| BetweenFactor.

#[global] Instance factor_class_eq_dec : EqDecision FactorClass.
Proof. solve_decision. Defined.

(** A one-dimensional array and its entries. *)
Definition vector (entries : list Q) : ndarray := Axis (map Scalar entries).

Definition entries (a : ndarray) : list Q :=
  match a with
  | Scalar x => [x]
  | Axis items =>
      map (fun item => match item with Scalar x => x | Axis _ => 0%Q end) items
  end.

(** The [n] by [n] matrix with [d] on the diagonal. *)
Definition diagonal (n : nat) (d : Q) : ndarray :=
  Axis (map (fun i =>
               vector (map (fun j => if Nat.eqb i j then d else 0%Q) (seq 0 n)))
            (seq 0 n)).

Definition target_of (leaves : list ndarray) : list Q :=
  match leaves with
  | target :: _ => entries target
  | [] => []
  end.

#[global] Instance factors : FactorBase.Interface FactorClass (list Q) :=
  {| FactorBase.get_residual_dim := fun _ leaves =>
       match leaves with
       | target :: _ => List.last (shape target) 0
       | [] => 0
       end;
     FactorBase.compute_residual_vector := fun cls leaves operands =>
       match cls, operands with
       | PriorFactor, [x] =>
           vector (zip_with Qminus x (target_of leaves))
       | BetweenFactor, [x0; x1] =>
           vector (zip_with Qminus (zip_with Qminus x0 x1) (target_of leaves))
       | _, _ => vector []
       end;
     FactorBase.compute_residual_jacobians := fun cls leaves operands =>
       let n := length (target_of leaves) in
       match cls with
       | PriorFactor => [diagonal n 1]
       | BetweenFactor => [diagonal n 1; diagonal n (-1)]
       end |}.

Definition variable (ident : positive) (cls : VariableClass)
    : VariableBase.t VariableClass :=
  {| VariableBase.ident := ident; VariableBase.type_of := cls |}.

Definition array (lib : Backend) (entries : list Q) : Array :=
  {| backend := lib; values := vector entries |}.

(** Three two-component variables [1], [2], [3] and two factors between
    them. *)
Definition between (a b : positive) (target : list Q)
    : FactorBase.t VariableClass FactorClass :=
  {| FactorBase.type_of := BetweenFactor;
     FactorBase.variables := [variable a RealVector2; variable b RealVector2];
     FactorBase.leaves := [array Onp target] |}.

Definition chain : list (FactorBase.t VariableClass FactorClass) :=
  [between 1 2 [1; 0]%Q; between 2 3 [0; 1]%Q].

(** The three variables one after the other in the storage. *)
Definition chain_metadata : StorageMetadata :=
  {| index_from_variable :=
       <[1%positive := 0%Z]>
         (<[2%positive := 2%Z]> (<[3%positive := 4%Z]> ∅)) |}.

Definition chain_assignments : VariableAssignments StorageMetadata :=
  {| storage := [5; 6; 3; 4; 1; 1]%Q;
     storage_metadata := chain_metadata |}.

(** A prior on a pose: four stored numbers, three tangent directions. *)
Definition pose_prior (a : positive) (target : list Q)
    : FactorBase.t VariableClass FactorClass :=
  {| FactorBase.type_of := PriorFactor;
     FactorBase.variables := [variable a SE2Variable];
     FactorBase.leaves := [array Onp target] |}.

(** Two factors of one class whose second operands differ in class. *)
Definition mixed_second : FactorBase.t VariableClass FactorClass :=
  {| FactorBase.type_of := BetweenFactor;
     FactorBase.variables := [variable 2 RealVector2; variable 3 SE2Variable];
     FactorBase.leaves := [array Onp [0; 1]%Q] |}.

Definition mixed : list (FactorBase.t VariableClass FactorClass) :=
  [between 1 2 [1; 0]%Q; mixed_second].

(** Two factors of one class on variables of one class, all known to the
    metadata, whose targets differ in shape. *)
Definition uneven : list (FactorBase.t VariableClass FactorClass) :=
  [between 1 2 [1; 0]%Q; between 2 3 [0; 1; 0]%Q].

(** Two factors, the second on a variable that the metadata does not know. *)
Definition dangling : list (FactorBase.t VariableClass FactorClass) :=
  [between 1 2 [1; 0]%Q; between 2 7 [0; 0]%Q].

End Sample.

(* ================================================================== *)
(** * The loops of the stack, decomposed *)
(* ================================================================== *)

(** A loop body that computes a row from the slot and appends it to the
    list of the slot. *)
Definition visit_with {V : Type} (row_of : nat -> V -> result (list Z))
    (acc : list (list (list Z))) (slot : nat * V)
    : result (list (list (list Z))) :=
  row ← row_of slot.1 slot.2; append_at acc slot.1 row.

(** The rows of one factor, slot by slot. *)
Definition rows_of_factor {V : Type} (row_of : nat -> V -> result (list Z))
    (operands : list V) : result (list (list Z)) :=
  mapM (fun slot => row_of slot.1 slot.2) (enumerate operands).

(** [xs ++ [x]], to be used under [zip_with]. *)
Definition snoc {A : Type} (xs : list A) (x : A) : list A := xs ++ [x].

(** The table with one line per factor, turned into one line per slot. *)
Definition by_slot {A : Type} (slots : nat) (table : list (list (list A)))
    : list (list (list A)) :=
  map (fun s => map (fun line => nth s line []) table) (seq 0 slots).

Section Rows.
Context {VT FT Value : Type}.
Context `{VariableBase.Interface VT Value} `{FactorBase.Interface FT Value}.

(** The row that [make] appends for the operand [variable] at slot [i]. *)
Definition make_row (factors : list (FactorBase.t VT FT))
    (storage_metadata : StorageMetadata) (i : nat)
    (variable : VariableBase.t VT) : result (list Z) :=
  factor0 ← list_getitem factors 0;
  variable0 ← list_getitem (FactorBase.variables factor0) i;
  if VariableBase.isinstance variable (VariableBase.type_of variable0)
  then
    storage_pos ← index_of storage_metadata variable;
    Ok (arange storage_pos
          (storage_pos
           + Z.of_nat (VariableBase.get_parameter_dim
                         (VariableBase.type_of variable))))
  else Raise (AssertionError "Variable types of stacked factors must match").

(** The row that [compute_jacobian_coords] appends for an operand. *)
Definition coords_row (local_storage_metadata : StorageMetadata) (i : nat)
    (variable : VariableBase.t VT) : result (list Z) :=
  storage_pos ← index_of local_storage_metadata variable;
  Ok (arange storage_pos
        (storage_pos
         + Z.of_nat (VariableBase.get_local_parameter_dim
                       (VariableBase.type_of variable)))).

(** The classes of the operands of a factor, slot by slot. *)
Definition signature (factor : FactorBase.t VT FT) : list VT :=
  map VariableBase.type_of (FactorBase.variables factor).

(** [factor] has the class, the operand classes and the number of array
    fields of [factor0]: the two have one tree structure once anonymous. *)
Definition same_structure (factor0 factor : FactorBase.t VT FT) : Prop :=
  FactorBase.type_of factor = FactorBase.type_of factor0
  /\ signature factor = signature factor0
  /\ length (FactorBase.leaves factor) = length (FactorBase.leaves factor0).

(** The array fields of [factor] have, position by position, the shapes of
    those of [factor0]. *)
Definition same_shapes (factor0 factor : FactorBase.t VT FT) : Prop :=
  Forall2 (fun a a0 => shape (values a) = shape (values a0))
          (FactorBase.leaves factor) (FactorBase.leaves factor0).

(** Every operand of [factor] has an entry in the metadata. *)
Definition covered (metadata : StorageMetadata)
    (factor : FactorBase.t VT FT) : Prop :=
  Forall (fun v =>
            is_Some (index_from_variable metadata !! VariableBase.ident v))
         (FactorBase.variables factor).

(** The leaves of the stacked factor: at position [j], the stack of the
    leaves at position [j]. *)
Definition stacked_leaves (lib : Backend)
    (factors : list (FactorBase.t VT FT)) (width : nat)
    : result (list Array) :=
  mapM (fun j =>
          arrays ← mapM (fun tree => list_getitem (FactorBase.leaves tree) j)
                        factors;
          stack lib arrays)
       (seq 0 width).

(** [line] holds the offsets of the operands of a factor, slot by slot. *)
Definition offsets_of (metadata : StorageMetadata)
    (operands : list (VariableBase.t VT))
    (line : list Z) : Prop :=
  Forall2 (fun v pos =>
             index_from_variable metadata !! VariableBase.ident v = Some pos)
          operands line.

(** The lists of rows of [compute_jacobian_coords], slot by slot. *)
Definition local_rows (offsets : list (list Z)) (s : nat) (cls : VT)
    : list (list Z) :=
  map (fun pos =>
         arange pos
           (pos + Z.of_nat (VariableBase.get_local_parameter_dim cls)))
      (map (fun line => nth s line 0%Z) offsets).

(** The leading axis of the array has [n] items. *)
Definition axis0_length_is (n : nat) (a : ndarray) : Prop :=
  FactorStack.axis0_length a = Ok n.

(** The slice of the storage that the metadata of [assignments] gives to
    [variable] lies within the storage. *)
Definition within_storage (assignments : VariableAssignments StorageMetadata)
    (variable : VariableBase.t VT) : Prop :=
  match index_from_variable (storage_metadata assignments)
          !! VariableBase.ident variable with
  | Some pos =>
      (0 <= pos
       /\ pos + Z.of_nat (VariableBase.get_parameter_dim
                            (VariableBase.type_of variable))
          <= Z.of_nat (length (storage assignments)))%Z
  | None => True
  end.

(** The operand values of a factor, read one variable at a time. *)
Definition operands_of (assignments : VariableAssignments StorageMetadata)
    (factor : FactorBase.t VT FT) : list Value :=
  match mapM (FactorStack.get_value assignments)
             (FactorBase.variables factor) with
  | Ok operands => operands
  | Raise _ => []
  end.

End Rows.

(* ================================================================== *)
(** * The coordinate layout, as specified *)
(* ================================================================== *)

(** The (row, column) pairs of one operand slot in the words of the
    specification: for each factor of the batch in order, for each residual
    row of the factor, for each tangent index of its operand. [offsets]
    holds the local offset of the operand of each factor. *)
Definition coords_spec (offsets : list Z) (residual_dim local_dim : nat)
    (row_offset : Z) : list (Z * Z) :=
  '(i, pos) ← enumerate offsets;
  r ← seq 0 residual_dim;
  c ← seq 0 local_dim;
  [((row_offset + Z.of_nat (i * residual_dim + r))%Z, (pos + Z.of_nat c)%Z)].

(** The coordinate object of a list of pairs. *)
Definition coords_of_pairs (pairs : list (Z * Z)) : SparseCooCoordinates :=
  {| rows := map fst pairs; cols := map snd pairs |}.

(* ================================================================== *)
(** * Further notions for the properties of the two modules *)
(* ================================================================== *)

(** A coordinate object with every row index moved by [row_offset]. *)
Definition shift_rows (row_offset : Z) (coords : SparseCooCoordinates)
    : SparseCooCoordinates :=
  {| rows := map (fun row => (row + row_offset)%Z) (rows coords);
     cols := cols coords |}.

Section SlotCoords.
Context {VT Value : Type} `{VariableBase.Interface VT Value}.

(** The body of the last loop of [compute_jacobian_coords]: the coordinate
    object of the operand slot [variable_index], whose class is
    [variable_type]. *)
Definition slot_coords (num_factors residual_dim : nat) (row_offset : Z)
    (residual_indices : list (list Z))
    (local_value_indices_stacked : list (list (list Z)))
    (slot : nat * VT) : result SparseCooCoordinates :=
  let '(variable_index, variable_type) := slot in
  let variable_dim := VariableBase.get_local_parameter_dim variable_type in
  let target := (num_factors, residual_dim, variable_dim) in
  (* Row indices. *)
  row_block ←
    broadcast_to_3d (expand_last residual_indices)
      (num_factors, residual_dim, 1) target;
  let row_block :=
    map (map (map (fun x => (x + row_offset)%Z))) row_block in
  (* Column indices. *)
  stacked ← list_getitem local_value_indices_stacked variable_index;
  '(shape_cols, expanded) ← expand_middle stacked;
  col_block ← broadcast_to_3d expanded shape_cols target;
  coords ←
    reshape_pairs (stack_last row_block col_block)
      (num_factors * residual_dim * variable_dim);
  Ok {| rows := map fst coords; cols := map snd coords |}.

End SlotCoords.

(* ================================================================== *)
(** * Fallible computations: lemmas *)
(* ================================================================== *)

Lemma bind_Ok {A B : Type} (f : A -> result B) (a : A) :
  (Ok a ≫= f) = f a.
Proof. done. Qed.

Lemma bind_Ok_inv {A B : Type} (f : A -> result B) (r : result A) (b : B) :
  (r ≫= f) = Ok b -> exists a, r = Ok a /\ f a = Ok b.
Proof. destruct r as [a|e]; [eauto|done]. Qed.

Lemma mapM_nil {A B : Type} (f : A -> result B) : mapM f [] = Ok [].
Proof. done. Qed.

Lemma mapM_cons {A B : Type} (f : A -> result B) (x : A) (l : list A) :
  mapM f (x :: l) = (y ← f x; k ← mapM f l; Ok (y :: k)).
Proof. done. Qed.

(** [mapM] succeeds with the pointwise results exactly when every call
    succeeds. *)
Lemma mapM_Ok_Forall2 {A B : Type} (f : A -> result B) (l : list A)
    (k : list B) :
  mapM f l = Ok k <-> Forall2 (fun x y => f x = Ok y) l k.
Proof.
  revert k. induction l as [|x l IH]; intros k.
  - rewrite mapM_nil. split.
    + intros [= <-]. constructor.
    + intros Hk. by inversion Hk.
  - rewrite mapM_cons. split.
    + intros Hm. apply bind_Ok_inv in Hm as (y & Hy & Hm).
      apply bind_Ok_inv in Hm as (k' & Hk' & [= <-]).
      constructor; [done|]. by apply IH.
    + intros Hk. inversion Hk as [|? y ? k' Hy Hk']; subst.
      rewrite Hy, bind_Ok. apply IH in Hk'. by rewrite Hk', bind_Ok.
Qed.

Lemma mapM_Ok_total {A B : Type} (g : A -> B) (l : list A) :
  mapM (fun x => Ok (g x)) l = Ok (map g l).
Proof.
  apply mapM_Ok_Forall2. induction l; constructor; auto.
Qed.

Lemma mapM_ext_in {A B : Type} (f g : A -> result B) (l : list A) :
  (forall x, x ∈ l -> f x = g x) -> mapM f l = mapM g l.
Proof.
  induction l as [|x l IH]; intros Hfg; [done|].
  rewrite !mapM_cons, Hfg by left.
  rewrite IH; [done|]. intros y Hy. apply Hfg. by right.
Qed.

Lemma mapM_Ok_length {A B : Type} (f : A -> result B) (l : list A)
    (k : list B) :
  mapM f l = Ok k -> length k = length l.
Proof.
  intros Hm. apply mapM_Ok_Forall2 in Hm. symmetry.
  by eapply Forall2_length.
Qed.

Lemma enumerate_from_length {A : Type} (start : nat) (l : list A) :
  length (enumerate_from start l) = length l.
Proof. revert start. induction l; intros; simpl; auto. Qed.

Lemma enumerate_from_lookup {A : Type} (start : nat) (l : list A) (k : nat) :
  enumerate_from start l !! k = (fun x => (start + k, x)) <$> l !! k.
Proof.
  revert start k. induction l as [|x l IH]; intros start [|k]; simpl; try done.
  - by rewrite Nat.add_0_r.
  - rewrite IH. destruct (l !! k); simpl; [|done]. do 2 f_equal. lia.
Qed.

Lemma enumerate_from_map_snd {A : Type} (start : nat) (l : list A) :
  map snd (enumerate_from start l) = l.
Proof. revert start. induction l; intros; simpl; f_equal; auto. Qed.

(* ================================================================== *)
(** * The nested loops *)
(* ================================================================== *)

Section Loops.
Context {V : Type} (row_of : nat -> V -> result (list Z)).

Lemma visit_with_pair (acc : list (list (list Z))) (i : nat) (v : V) :
  visit_with row_of acc (i, v) = (row ← row_of i v; append_at acc i row).
Proof. done. Qed.

Lemma append_at_middle {A : Type} (pre cur : list (list A)) (xs : list A)
    (x : A) :
  append_at (pre ++ xs :: cur) (length pre) x = Ok (pre ++ snoc xs x :: cur).
Proof.
  unfold append_at. rewrite list_lookup_middle by done.
  f_equal. rewrite (insert_app_r_alt pre) by lia.
  by rewrite Nat.sub_diag.
Qed.

(** The inner loop, when every row can be computed and there is a list for
    every slot. *)
Lemma foldM_visit (operands : list V) (pre cur : list (list (list Z)))
    (rws : list (list Z)) :
  length cur = length operands ->
  mapM (fun slot => row_of slot.1 slot.2)
       (enumerate_from (length pre) operands) = Ok rws ->
  foldM (visit_with row_of) (enumerate_from (length pre) operands)
        (pre ++ cur)
  = Ok (pre ++ zip_with snoc cur rws).
Proof.
  revert pre cur rws.
  induction operands as [|v operands IH]; intros pre cur rws Hlen Hrows.
  - destruct cur; [|done]. simpl. by rewrite app_nil_r.
  - destruct cur as [|xs cur]; [done|]. simpl in Hlen.
    cbn [enumerate_from] in *. rewrite mapM_cons in Hrows.
    apply bind_Ok_inv in Hrows as (row & Hrow & Hrows).
    apply bind_Ok_inv in Hrows as (rws' & Hrws' & [= <-]).
    cbn [fst snd] in Hrow. cbn [foldM]. rewrite visit_with_pair.
    rewrite Hrow, bind_Ok, append_at_middle, bind_Ok.
    specialize (IH (pre ++ [snoc xs row]) cur rws').
    rewrite length_app, Nat.add_1_r, <- !app_assoc in IH.
    cbn [app length] in IH. rewrite IH by (done || lia). done.
Qed.

(** A successful inner loop computed every row. *)
Lemma foldM_visit_inv (operands : list V) (start : nat)
    (acc acc' : list (list (list Z))) :
  foldM (visit_with row_of) (enumerate_from start operands) acc = Ok acc' ->
  length acc' = length acc
  /\ start + length operands <= Nat.max start (length acc)
  /\ exists rws,
       mapM (fun slot => row_of slot.1 slot.2)
            (enumerate_from start operands) = Ok rws.
Proof.
  revert start acc.
  induction operands as [|v operands IH]; intros start acc Hfold.
  - injection Hfold as <-. split; [done|]. split; [simpl; lia|]. by exists [].
  - cbn [enumerate_from foldM] in Hfold.
    apply bind_Ok_inv in Hfold as (acc1 & Hvisit & Hfold).
    rewrite visit_with_pair in Hvisit.
    apply bind_Ok_inv in Hvisit as (row & Hrow & Happ).
    unfold append_at in Happ.
    destruct (acc !! start) as [xs|] eqn:Hxs; [|done].
    injection Happ as <-.
    apply lookup_lt_Some in Hxs.
    apply IH in Hfold as (Hlen & Hbound & rws & Hrws).
    rewrite length_insert in Hlen, Hbound.
    split; [done|]. split; [simpl; lia|].
    exists (row :: rws). cbn [enumerate_from]. rewrite mapM_cons.
    cbn [fst snd]. by rewrite Hrow, bind_Ok, Hrws, bind_Ok.
Qed.

(** The two nested loops over factors with as many operands as there are
    slots. *)
Lemma foldM_factors {F : Type} (operands_of : F -> list V) (fs : list F)
    (acc : list (list (list Z))) (table : list (list (list Z))) :
  Forall (fun f => length (operands_of f) = length acc) fs ->
  mapM (fun f => rows_of_factor row_of (operands_of f)) fs = Ok table ->
  foldM (fun acc f =>
           foldM (visit_with row_of) (enumerate (operands_of f)) acc)
        fs acc
  = Ok (foldl (zip_with snoc) acc table).
Proof.
  revert acc table.
  induction fs as [|f fs IH]; intros acc table Hlens Htable.
  - injection Htable as <-. done.
  - rewrite mapM_cons in Htable.
    apply bind_Ok_inv in Htable as (rws & Hrws & Htable).
    apply bind_Ok_inv in Htable as (table' & Htable' & [= <-]).
    apply Forall_cons in Hlens as [Hlen Hlens].
    cbn [foldM foldl].
    pose proof (foldM_visit (operands_of f) [] acc rws) as Hinner.
    cbn [length app] in Hinner. unfold enumerate.
    rewrite Hinner by done. rewrite bind_Ok.
    apply IH; [|done].
    assert (length rws = length acc) as Hrl.
    { apply mapM_Ok_length in Hrws.
      unfold enumerate in Hrws. rewrite enumerate_from_length in Hrws. lia. }
    rewrite length_zip_with, Hrl, Nat.min_id. done.
Qed.

(** A successful run of the nested loops computed every row of every
    factor. *)
Lemma foldM_factors_inv {F : Type} (operands_of : F -> list V) (fs : list F)
    (acc acc' : list (list (list Z))) :
  foldM (fun acc f =>
           foldM (visit_with row_of) (enumerate (operands_of f)) acc)
        fs acc = Ok acc' ->
  length acc' = length acc
  /\ Forall (fun f => length (operands_of f) <= length acc) fs
  /\ exists table,
       mapM (fun f => rows_of_factor row_of (operands_of f)) fs = Ok table.
Proof.
  revert acc.
  induction fs as [|f fs IH]; intros acc Hfold.
  - injection Hfold as <-. split; [done|]. split; [constructor|]. by exists [].
  - cbn [foldM] in Hfold.
    apply bind_Ok_inv in Hfold as (acc1 & Hinner & Hfold).
    apply foldM_visit_inv in Hinner as (Hlen1 & Hbound & rws & Hrws).
    apply IH in Hfold as (Hlen & Hall & table & Htable).
    rewrite Hlen1 in Hlen, Hall.
    split; [done|]. split; [constructor; [simpl in Hbound; lia|done]|].
    exists (rws :: table). rewrite mapM_cons.
    change (rows_of_factor row_of (operands_of f) = Ok rws) in Hrws.
    by rewrite Hrws, bind_Ok, Htable, bind_Ok.
Qed.

End Loops.

(** Appending line after line to the lists of the slots gives the table
    read slot by slot. *)
Lemma foldl_snoc_lookup {A : Type} (acc : list (list (list A)))
    (table : list (list (list A))) (s : nat) (xs : list (list A)) :
  Forall (fun line => length line = length acc) table ->
  acc !! s = Some xs ->
  foldl (zip_with snoc) acc table !! s
  = Some (xs ++ map (fun line => nth s line []) table).
Proof.
  revert acc xs.
  induction table as [|line table IH]; intros acc xs Hlens Hxs.
  - simpl. by rewrite app_nil_r.
  - apply Forall_cons in Hlens as [Hlen Hlens]. cbn [foldl map].
    assert (s < length line) as Hs
      by (rewrite Hlen; by eapply lookup_lt_Some).
    destruct (lookup_lt_is_Some_2 line s Hs) as [x Hx].
    rewrite (IH _ (snoc xs x)).
    + unfold snoc. rewrite <- app_assoc. simpl. do 3 f_equal.
      symmetry. by apply nth_lookup_Some.
    + rewrite length_zip_with, Hlen, Nat.min_id.
      eapply Forall_impl; [exact Hlens|]. simpl. intros; congruence.
    + rewrite lookup_zip_with, Hxs. simpl. by rewrite Hx.
Qed.

Lemma foldl_snoc_by_slot {A : Type} (slots : nat)
    (table : list (list (list A))) :
  Forall (fun line => length line = slots) table ->
  foldl (zip_with snoc) (replicate slots []) table = by_slot slots table.
Proof.
  intros Hlens. apply list_eq. intros s. unfold by_slot.
  destruct (decide (s < slots)) as [Hs|Hs].
  - rewrite (foldl_snoc_lookup _ _ s []).
    + rewrite list_lookup_fmap, lookup_seq_lt by done. done.
    + by rewrite length_replicate.
    + by apply lookup_replicate_2.
  - rewrite !lookup_ge_None_2; [done| |].
    + rewrite length_map, length_seq. lia.
    + assert (forall acc : list (list (list A)),
               Forall (fun line => length line = length acc) table ->
               length (foldl (zip_with snoc) acc table) = length acc) as Hl.
      { clear. induction table as [|line table IH]; intros acc Hlens; [done|].
        apply Forall_cons in Hlens as [Hlen Hlens]. simpl.
        rewrite IH; rewrite length_zip_with, Hlen, Nat.min_id; [done|].
        eapply Forall_impl; [exact Hlens|]. simpl. intros; congruence. }
      rewrite Hl; rewrite length_replicate; [lia|done].
Qed.

(* ================================================================== *)
(** * Index arrays: lemmas *)
(* ================================================================== *)

Lemma arange_length (start : Z) (n : nat) :
  length (arange start (start + Z.of_nat n)) = n.
Proof.
  unfold arange. rewrite length_map, length_seq. lia.
Qed.

Lemma arange_offsets (start : Z) (n : nat) :
  arange start (start + Z.of_nat n)
  = map (fun k => (start + Z.of_nat k)%Z) (seq 0 n).
Proof. unfold arange. do 2 f_equal. lia. Qed.

Lemma arange_lookup (start : Z) (n k : nat) :
  k < n -> arange start (start + Z.of_nat n) !! k = Some (start + Z.of_nat k)%Z.
Proof.
  intros Hk. rewrite arange_offsets, list_lookup_fmap, lookup_seq_lt by done.
  done.
Qed.

Lemma onp_array_inv (rws a : list (list Z)) :
  onp_array rws = Ok a ->
  a = rws /\ forall r1 r2, r1 ∈ rws -> r2 ∈ rws -> length r1 = length r2.
Proof.
  unfold onp_array. destruct rws as [|row0 rws'].
  { intros [= <-]. split; [done|]. by intros ? ? ?%elem_of_nil. }
  destruct (forallb _ _) eqn:Hall; [|done]. intros [= <-]. split; [done|].
  rewrite forallb_forall in Hall.
  intros r1 r2 Hr1 Hr2.
  apply list_elem_of_In, Hall, Nat.eqb_eq in Hr1.
  apply list_elem_of_In, Hall, Nat.eqb_eq in Hr2. congruence.
Qed.

Lemma onp_array_rectangular (rws : list (list Z)) (d : nat) :
  Forall (fun row => length row = d) rws -> onp_array rws = Ok rws.
Proof.
  intros Hall. unfold onp_array. destruct rws as [|row0 rws']; [done|].
  rewrite (proj2 (forallb_forall _ _)); [done|].
  intros row Hrow%list_elem_of_In. apply Nat.eqb_eq.
  rewrite Forall_forall in Hall.
  rewrite (Hall row Hrow). symmetry. apply Hall. by left.
Qed.

(* ================================================================== *)
(** * Stacking the factors: lemmas *)
(* ================================================================== *)

Lemma stack_inv (lib : Backend) (arrays : list Array) (a : Array) :
  stack lib arrays = Ok a ->
  a = {| backend := lib; values := Axis (map values arrays) |}
  /\ arrays <> [].
Proof.
  unfold stack. destruct arrays as [|a0 arrays']; [done|].
  destruct (forallb _ _); [|done]. by intros [= <-].
Qed.

Lemma stack_same_shapes (lib : Backend) (arrays : list Array) :
  arrays <> [] ->
  (forall a1 a2, a1 ∈ arrays -> a2 ∈ arrays ->
     shape (values a1) = shape (values a2)) ->
  stack lib arrays
  = Ok {| backend := lib; values := Axis (map values arrays) |}.
Proof.
  intros Hne Hshapes. unfold stack.
  destruct arrays as [|a0 arrays']; [done|].
  rewrite (proj2 (forallb_forall _ _)); [done|].
  intros a Ha%list_elem_of_In. apply bool_decide_eq_true.
  apply Hshapes; [done|by left].
Qed.

Lemma mapM_fmap {A B C : Type} (f : A -> result B) (g : A -> result C)
    (h : C -> B) (l : list A) :
  (forall x, f x = h <$> g x) -> mapM f l = map h <$> mapM g l.
Proof.
  intros Hfg. induction l as [|x l IH]; [done|].
  rewrite !mapM_cons, Hfg, IH.
  destruct (g x); [|done]. simpl. by destruct (mapM g l).
Qed.

Section Stacking.
Context {VT FT Value : Type}.
Context `{VariableBase.Interface VT Value} `{FactorBase.Interface FT Value}.

Implicit Types (factor : FactorBase.t VT FT)
  (factors : list (FactorBase.t VT FT)).

Lemma anonymize_leaves factors :
  forall j,
    mapM (fun tree => list_getitem (FactorBase.leaves tree) j)
         (map FactorBase.anonymize_variables factors)
    = mapM (fun tree => list_getitem (FactorBase.leaves tree) j) factors.
Proof.
  intros j. induction factors as [|f fs IH]; [done|].
  cbn [map]. rewrite !mapM_cons, IH. done.
Qed.

Lemma canonical_signature factor factor0 :
  FactorBase.variables (FactorBase.anonymize_variables factor)
  = FactorBase.variables (FactorBase.anonymize_variables factor0)
  <-> signature factor = signature factor0.
Proof.
  unfold signature. cbn [FactorBase.anonymize_variables FactorBase.variables].
  split.
  - intros Heq.
    apply (f_equal (map VariableBase.type_of)) in Heq.
    by rewrite !map_map in Heq.
  - intros Heq.
    apply (f_equal (map VariableBase.canonical_instance)) in Heq.
    by rewrite !map_map in Heq.
Qed.

Lemma treedef_same_structure factor factor0 :
  FactorBase.treedef (FactorBase.anonymize_variables factor)
  = FactorBase.treedef (FactorBase.anonymize_variables factor0)
  <-> same_structure factor0 factor.
Proof.
  unfold FactorBase.treedef, same_structure.
  rewrite <- canonical_signature.
  cbn [FactorBase.anonymize_variables FactorBase.type_of FactorBase.leaves
       FactorBase.variables].
  split; [intros [= ? ? ?]; done|intros (-> & -> & ->); done].
Qed.

(** What a successful [tree_map] of the anonymous factors says. *)
Lemma tree_map_inv (lib : Backend) factors (stacked : FactorBase.t VT FT) :
  FactorBase.tree_map (stack lib)
    (map FactorBase.anonymize_variables factors) = Ok stacked ->
  exists factor0 rest,
    factors = factor0 :: rest
    /\ Forall (same_structure factor0) factors
    /\ FactorBase.type_of stacked = FactorBase.type_of factor0
    /\ FactorBase.variables stacked
       = map VariableBase.canonical_instance (signature factor0)
    /\ stacked_leaves lib factors (length (FactorBase.leaves factor0))
       = Ok (FactorBase.leaves stacked).
Proof.
  destruct factors as [|factor0 rest]; [done|].
  cbn [map FactorBase.tree_map].
  destruct (forallb _ _) eqn:Hall; [|done].
  intros Hm. apply bind_Ok_inv in Hm as (leaves' & Hleaves & [= <-]).
  exists factor0, rest. split; [done|].
  split.
  { constructor; [done|].
    rewrite forallb_forall in Hall. apply Forall_forall.
    intros f Hf. apply treedef_same_structure.
    apply list_elem_of_In in Hf.
    apply (in_map FactorBase.anonymize_variables) in Hf.
    apply Hall in Hf. by apply bool_decide_eq_true in Hf. }
  split; [done|]. split.
  { cbn [FactorBase.variables FactorBase.anonymize_variables].
    unfold signature. by rewrite map_map. }
  cbn [FactorBase.leaves]. rewrite <- Hleaves.
  unfold stacked_leaves.
  apply mapM_ext_in. intros j _.
  pose proof (anonymize_leaves (factor0 :: rest) j) as Hj.
  cbn [map] in Hj. by rewrite Hj.
Qed.

(** [tree_map] succeeds on factors of one structure whose leaves stack. *)
Lemma tree_map_intro (lib : Backend) factor0 rest (leaves' : list Array) :
  Forall (same_structure factor0) (factor0 :: rest) ->
  stacked_leaves lib (factor0 :: rest) (length (FactorBase.leaves factor0))
  = Ok leaves' ->
  FactorBase.tree_map (stack lib)
    (map FactorBase.anonymize_variables (factor0 :: rest))
  = Ok {| FactorBase.type_of := FactorBase.type_of factor0;
          FactorBase.variables :=
            map VariableBase.canonical_instance (signature factor0);
          FactorBase.leaves := leaves' |}.
Proof.
  intros Hall Hleaves.
  cbn [map FactorBase.tree_map].
  rewrite (proj2 (forallb_forall _ _)).
  - unfold stacked_leaves in Hleaves.
    cbn [FactorBase.leaves FactorBase.anonymize_variables].
    erewrite mapM_ext_in; [rewrite Hleaves|].
    + rewrite bind_Ok. cbn [FactorBase.type_of FactorBase.variables].
      unfold signature. by rewrite map_map.
    + intros j _. cbv beta.
      pose proof (anonymize_leaves (factor0 :: rest) j) as Hj.
      cbn [map] in Hj. by rewrite Hj.
  - intros tree Htree. apply bool_decide_eq_true.
    apply in_map_iff in Htree as (f & <- & Hf).
    apply treedef_same_structure.
    apply Forall_cons in Hall as [_ Hall].
    rewrite Forall_forall in Hall. apply Hall. by apply list_elem_of_In.
Qed.

End Stacking.

(* ================================================================== *)
(** * FactorStack.make: lemmas *)
(* ================================================================== *)

Lemma foldM_ext {A B : Type} (f g : B -> A -> result B) (l : list A) (acc : B) :
  (forall acc x, f acc x = g acc x) -> foldM f l acc = foldM g l acc.
Proof.
  intros Hfg. revert acc. induction l as [|x l IH]; intros acc; [done|].
  cbn [foldM]. rewrite Hfg. destruct (g acc x); [apply IH|done].
Qed.

Lemma mapM_onp_array_inv (lists stacked : list (list (list Z))) :
  mapM onp_array lists = Ok stacked ->
  stacked = lists
  /\ Forall (fun rws => forall r1 r2, r1 ∈ rws -> r2 ∈ rws ->
                          length r1 = length r2) lists.
Proof.
  intros Hm. apply mapM_Ok_Forall2 in Hm.
  induction Hm as [|rws a lists stacked Ha _ [-> IH]]; [done|].
  apply onp_array_inv in Ha as [-> Hrect]. split; [done|by constructor].
Qed.

Lemma mapM_onp_array_rectangular (lists : list (list (list Z))) :
  Forall (fun rws => exists d, Forall (fun row => length row = d) rws) lists ->
  mapM onp_array lists = Ok lists.
Proof.
  intros Hall. apply mapM_Ok_Forall2.
  induction Hall as [|rws lists [d Hd] _ IH]; constructor; [|done].
  by eapply onp_array_rectangular.
Qed.

Lemma by_slot_length {A : Type} (slots : nat) (table : list (list (list A))) :
  length (by_slot slots table) = slots.
Proof. unfold by_slot. by rewrite length_map, length_seq. Qed.

Lemma by_slot_lookup {A : Type} (slots : nat) (table : list (list (list A)))
    (s : nat) :
  s < slots ->
  by_slot slots table !! s = Some (map (fun line => nth s line []) table).
Proof.
  intros Hs. unfold by_slot.
  by rewrite list_lookup_fmap, lookup_seq_lt.
Qed.

Section Make.
Context {VT FT Value : Type}.
Context `{VariableBase.Interface VT Value} `{FactorBase.Interface FT Value}.

Implicit Types (factor : FactorBase.t VT FT)
  (factors : list (FactorBase.t VT FT)) (metadata : StorageMetadata).

Lemma index_of_Ok metadata (v : VariableBase.t VT) (pos : Z) :
  index_of metadata v = Ok pos
  <-> index_from_variable metadata !! VariableBase.ident v = Some pos.
Proof.
  unfold index_of. destruct (_ !! _); split; intros [= ->]; done.
Qed.

Lemma list_getitem_Ok {A : Type} (l : list A) (i : nat) (x : A) :
  list_getitem l i = Ok x <-> l !! i = Some x.
Proof.
  unfold list_getitem. destruct (l !! i); split; intros [= ->]; done.
Qed.

Lemma make_visit_row factors metadata acc (slot : nat * VariableBase.t VT) :
  FactorStack.make_visit factors metadata acc slot
  = visit_with (make_row factors metadata) acc slot.
Proof.
  destruct slot as [i variable].
  unfold FactorStack.make_visit, visit_with, make_row. cbn [fst snd].
  destruct (list_getitem factors 0) as [factor0|]; [|done]. rewrite !bind_Ok.
  destruct (list_getitem _ i) as [variable0|]; [|done]. rewrite !bind_Ok.
  destruct (VariableBase.isinstance _ _); [|done].
  by destruct (index_of metadata variable).
Qed.

Lemma coords_visit_row metadata acc (slot : nat * VariableBase.t VT) :
  FactorStack.coords_visit metadata acc slot
  = visit_with (coords_row metadata) acc slot.
Proof.
  destruct slot as [i variable].
  unfold FactorStack.coords_visit, visit_with, coords_row. cbn [fst snd].
  by destruct (index_of metadata variable).
Qed.

(** What a computed row of [make] says about its operand. *)
Lemma make_row_Ok factors metadata (i : nat) (variable : VariableBase.t VT)
    (row : list Z) :
  make_row factors metadata i variable = Ok row
  <-> exists factor0 variable0 pos,
        factors !! 0 = Some factor0
        /\ FactorBase.variables factor0 !! i = Some variable0
        /\ VariableBase.isinstance variable
             (VariableBase.type_of variable0) = true
        /\ index_from_variable metadata !! VariableBase.ident variable
           = Some pos
        /\ row = arange pos
                   (pos + Z.of_nat (VariableBase.get_parameter_dim
                                      (VariableBase.type_of variable))).
Proof.
  unfold make_row. split.
  - intros Hrow.
    apply bind_Ok_inv in Hrow as (factor0 & Hf0%list_getitem_Ok & Hrow).
    apply bind_Ok_inv in Hrow as (variable0 & Hv0%list_getitem_Ok & Hrow).
    destruct (VariableBase.isinstance _ _) eqn:Hinst; [|done].
    apply bind_Ok_inv in Hrow as (pos & Hpos%index_of_Ok & [= <-]).
    by exists factor0, variable0, pos.
  - intros (factor0 & variable0 & pos & Hf0 & Hv0 & Hinst & Hpos & ->).
    apply list_getitem_Ok in Hf0, Hv0. apply index_of_Ok in Hpos.
    by rewrite Hf0, bind_Ok, Hv0, bind_Ok, Hinst, Hpos, bind_Ok.
Qed.

Lemma rows_of_factor_length {V : Type} (row_of : nat -> V -> result (list Z))
    (operands : list V) (line : list (list Z)) :
  rows_of_factor row_of operands = Ok line -> length line = length operands.
Proof.
  intros Hline. apply mapM_Ok_length in Hline.
  unfold enumerate in Hline. by rewrite enumerate_from_length in Hline.
Qed.

Lemma rows_of_factor_lookup {V : Type} (row_of : nat -> V -> result (list Z))
    (operands : list V) (line : list (list Z)) (s : nat) (v : V) :
  rows_of_factor row_of operands = Ok line ->
  operands !! s = Some v ->
  exists row, line !! s = Some row /\ row_of s v = Ok row.
Proof.
  intros Hline Hv. apply mapM_Ok_Forall2 in Hline.
  assert (enumerate operands !! s = Some (s, v)) as Hsv.
  { unfold enumerate. by rewrite enumerate_from_lookup, Hv. }
  destruct (Forall2_lookup_l _ _ _ _ _ Hline Hsv) as (row & Hrow & Hok).
  by exists row.
Qed.

Lemma table_lines_length {V F : Type}
    (row_of : nat -> V -> result (list Z)) (operands_of : F -> list V)
    (fs : list F) (table : list (list (list Z))) (slots : nat) :
  Forall (fun f => length (operands_of f) = slots) fs ->
  mapM (fun f => rows_of_factor row_of (operands_of f)) fs = Ok table ->
  Forall (fun line => length line = slots) table.
Proof.
  intros Hall Htable. apply mapM_Ok_Forall2 in Htable.
  induction Htable as [|f line fs table Hline _ IH]; [constructor|].
  apply Forall_cons in Hall as [Hf Hall]. constructor; [|by apply IH].
  apply rows_of_factor_length in Hline. congruence.
Qed.

Lemma same_structure_arity factor0 factor :
  same_structure factor0 factor ->
  length (FactorBase.variables factor) = length (signature factor0).
Proof.
  intros (_ & Hsig & _). rewrite <- Hsig. unfold signature.
  by rewrite length_map.
Qed.

(** The nested loops of [make] on factors of one structure. *)
Lemma make_loops factors metadata factor0 (table : list (list (list Z))) :
  Forall (same_structure factor0) factors ->
  mapM (fun f => rows_of_factor (make_row factors metadata)
                   (FactorBase.variables f)) factors = Ok table ->
  foldM (fun acc factor =>
           foldM (FactorStack.make_visit factors metadata)
                 (enumerate (FactorBase.variables factor)) acc)
        factors (replicate (length (signature factor0)) [])
  = Ok (by_slot (length (signature factor0)) table).
Proof.
  intros Hall Htable.
  erewrite foldM_ext; [|intros acc f; apply foldM_ext, make_visit_row].
  erewrite foldM_factors; [| |exact Htable].
  - f_equal. apply foldl_snoc_by_slot.
    eapply table_lines_length; [|exact Htable].
    eapply Forall_impl; [exact Hall|]. apply same_structure_arity.
  - rewrite length_replicate.
    eapply Forall_impl; [exact Hall|]. apply same_structure_arity.
Qed.

Lemma make_loops_inv factors metadata (slots : nat)
    (lists : list (list (list Z))) :
  foldM (fun acc factor =>
           foldM (FactorStack.make_visit factors metadata)
                 (enumerate (FactorBase.variables factor)) acc)
        factors (replicate slots []) = Ok lists ->
  exists table,
    mapM (fun f => rows_of_factor (make_row factors metadata)
                     (FactorBase.variables f)) factors = Ok table.
Proof.
  intros Hfold.
  erewrite foldM_ext in Hfold;
    [|intros acc f; apply foldM_ext, make_visit_row].
  by apply foldM_factors_inv in Hfold as (_ & _ & Htable).
Qed.

(** What a successful [make] says. *)
Lemma make_inv factors metadata (use_onp : bool)
    (stack_made : FactorStack.t VT FT) :
  FactorStack.make factors metadata use_onp = Ok stack_made ->
  exists factor0 rest table,
    factors = factor0 :: rest
    /\ Forall (same_structure factor0) factors
    /\ mapM (fun f => rows_of_factor (make_row factors metadata)
                        (FactorBase.variables f)) factors = Ok table
    /\ stacked_leaves (if use_onp then Onp else Jnp) factors
         (length (FactorBase.leaves factor0))
       = Ok (FactorBase.leaves (FactorStack.factor stack_made))
    /\ FactorStack.num_factors stack_made = length factors
    /\ FactorBase.type_of (FactorStack.factor stack_made)
       = FactorBase.type_of factor0
    /\ FactorBase.variables (FactorStack.factor stack_made)
       = map VariableBase.canonical_instance (signature factor0)
    /\ FactorStack.value_indices stack_made
       = by_slot (length (signature factor0)) table.
Proof.
  unfold FactorStack.make. intros Hmake.
  apply bind_Ok_inv in Hmake as (stacked & Hstacked & Hmake).
  apply bind_Ok_inv in Hmake as (lists & Hloops & Hmake).
  apply bind_Ok_inv in Hmake as (indices & Hindices & Hnew).
  apply tree_map_inv in Hstacked
    as (factor0 & rest & -> & Hall & Htype & Hvars & Hleaves).
  rewrite Hvars, length_map in Hloops.
  destruct (make_loops_inv _ _ _ _ Hloops) as [table Htable].
  rewrite (make_loops _ _ factor0 table Hall Htable) in Hloops.
  injection Hloops as <-.
  apply mapM_onp_array_inv in Hindices as [-> _].
  unfold FactorStack.new in Hnew.
  destruct (_ =? _); [|done]. injection Hnew as <-.
  exists factor0, rest, table. cbn. done.
Qed.

(** [make] succeeds on factors of one structure whose leaves stack and
    whose operands are all found. *)
Lemma make_intro factor0 rest metadata (use_onp : bool)
    (table : list (list (list Z))) (leaves' : list Array) :
  let factors := factor0 :: rest in
  Forall (same_structure factor0) factors ->
  stacked_leaves (if use_onp then Onp else Jnp) factors
    (length (FactorBase.leaves factor0)) = Ok leaves' ->
  mapM (fun f => rows_of_factor (make_row factors metadata)
                   (FactorBase.variables f)) factors = Ok table ->
  FactorStack.make factors metadata use_onp
  = Ok {| FactorStack.num_factors := length factors;
          FactorStack.factor :=
            {| FactorBase.type_of := FactorBase.type_of factor0;
               FactorBase.variables :=
                 map VariableBase.canonical_instance (signature factor0);
               FactorBase.leaves := leaves' |};
          FactorStack.value_indices :=
            by_slot (length (signature factor0)) table |}.
Proof.
  intros factors Hall Hleaves Htable. unfold FactorStack.make.
  subst factors.
  rewrite (tree_map_intro _ factor0 rest leaves' Hall Hleaves), bind_Ok.
  cbn [FactorBase.variables]. rewrite length_map.
  rewrite (make_loops _ _ factor0 table Hall Htable), bind_Ok.
  rewrite mapM_onp_array_rectangular, bind_Ok.
  - unfold FactorStack.new. cbn [FactorBase.variables].
    rewrite by_slot_length, length_map, Nat.eqb_refl. done.
  - (* every slot holds rows of one length: the operands at a slot have
       one class *)
    unfold by_slot. apply Forall_forall. intros rws Hrws.
    apply list_elem_of_fmap in Hrws as (s & -> & Hs).
    apply elem_of_seq in Hs as [_ Hs]. cbn in Hs.
    destruct (lookup_lt_is_Some_2 (signature factor0) s Hs) as [cls Hcls].
    exists (VariableBase.get_parameter_dim cls).
    apply Forall_forall. intros row Hrow.
    apply list_elem_of_fmap in Hrow as (line & -> & Hline).
    apply list_elem_of_lookup in Hline as [k Hk].
    apply mapM_Ok_Forall2 in Htable.
    destruct (Forall2_lookup_r _ _ _ _ _ Htable Hk) as (f & Hf & Hrows).
    rewrite Forall_forall in Hall.
    assert (same_structure factor0 f) as Hsame
      by (apply Hall; by eapply list_elem_of_lookup_2).
    assert (signature f !! s = Some cls) as Hfs
      by (destruct Hsame as (_ & -> & _); done).
    unfold signature in Hfs. rewrite list_lookup_fmap in Hfs.
    destruct (FactorBase.variables f !! s) as [v|] eqn:Hv; [|done].
    injection Hfs as <-.
    destruct (rows_of_factor_lookup _ _ _ _ _ Hrows Hv)
      as (row & Hrow & Hok).
    rewrite (nth_lookup_Some _ _ _ _ Hrow).
    apply make_row_Ok in Hok as (_ & _ & pos & _ & _ & _ & _ & ->).
    apply arange_length.
Qed.

End Make.

Lemma mapM_Ok_exists {A B : Type} (f : A -> result B) (l : list A) :
  Forall (fun x => exists y, f x = Ok y) l -> exists k, mapM f l = Ok k.
Proof.
  induction 1 as [|x l [y Hy] _ [k Hk]]; [by exists []|].
  exists (y :: k). by rewrite mapM_cons, Hy, bind_Ok, Hk, bind_Ok.
Qed.

Section MakeProperties.
Context {VT FT Value : Type}.
Context `{VariableBase.Interface VT Value} `{FactorBase.Interface FT Value}.

Implicit Types (factor : FactorBase.t VT FT)
  (factors : list (FactorBase.t VT FT)) (metadata : StorageMetadata).

(** C8. In a stack returned by [make] there is one index array per operand
    slot; the array of a slot has one row per factor, each as long as the
    storage dimension of the operand class of the slot, and the row of a
    factor lists the offsets of its operand: the offset recorded in the
    metadata and the following ones, over the storage dimension. *)
Theorem make_value_indices factors metadata (use_onp : bool)
    (stack_made : FactorStack.t VT FT)
    (Hmake : FactorStack.make factors metadata use_onp = Ok stack_made) :
  exists factor0,
    factors !! 0 = Some factor0
    /\ length (FactorStack.value_indices stack_made)
       = length (FactorBase.variables factor0)
    /\ forall s variable0,
         FactorBase.variables factor0 !! s = Some variable0 ->
         exists indices,
           FactorStack.value_indices stack_made !! s = Some indices
           /\ length indices = length factors
           /\ Forall (fun row =>
                        length row
                        = VariableBase.get_parameter_dim
                            (VariableBase.type_of variable0)) indices
           /\ forall f factor,
                factors !! f = Some factor ->
                exists variable pos,
                  FactorBase.variables factor !! s = Some variable
                  /\ index_from_variable metadata
                       !! VariableBase.ident variable = Some pos
                  /\ indices !! f
                     = Some (map (fun k => (pos + Z.of_nat k)%Z)
                               (seq 0 (VariableBase.get_parameter_dim
                                         (VariableBase.type_of variable)))).
Proof.
  apply make_inv in Hmake
    as (factor0 & rest & table & -> & Hall & Htable & _ & _ & _ & _ & ->).
  exists factor0. split; [done|].
  rewrite by_slot_length. unfold signature at 1. rewrite length_map.
  split; [done|].
  intros s variable0 Hv0.
  assert (s < length (signature factor0)) as Hs.
  { unfold signature. rewrite length_map. by eapply lookup_lt_Some. }
  rewrite by_slot_lookup by done. eexists. split; [done|].
  pose proof (mapM_Ok_length _ _ _ Htable) as Hlen.
  rewrite length_map. split; [done|].
  (* the row of each factor *)
  assert (forall f factor,
            (factor0 :: rest) !! f = Some factor ->
            exists variable pos line,
              FactorBase.variables factor !! s = Some variable
              /\ VariableBase.type_of variable = VariableBase.type_of variable0
              /\ index_from_variable metadata
                   !! VariableBase.ident variable = Some pos
              /\ table !! f = Some line
              /\ nth s line []
                 = arange pos
                     (pos + Z.of_nat (VariableBase.get_parameter_dim
                                        (VariableBase.type_of variable))))
    as Hrows.
  { intros f factor Hf.
    rewrite Forall_forall in Hall.
    destruct (Hall factor) as (_ & Hsig & _);
      [by eapply list_elem_of_lookup_2|].
    assert (signature factor !! s = Some (VariableBase.type_of variable0))
      as Hcls.
    { rewrite Hsig. unfold signature. by rewrite list_lookup_fmap, Hv0. }
    unfold signature in Hcls. rewrite list_lookup_fmap in Hcls.
    destruct (FactorBase.variables factor !! s) as [variable|] eqn:Hv;
      [|done].
    injection Hcls as Hcls.
    apply mapM_Ok_Forall2 in Htable.
    destruct (Forall2_lookup_l _ _ _ _ _ Htable Hf) as (line & Hline & Hok).
    destruct (rows_of_factor_lookup _ _ _ _ _ Hok Hv) as (row & Hrow & Hmk).
    apply make_row_Ok in Hmk as (_ & _ & pos & _ & _ & _ & Hpos & ->).
    exists variable, pos, line. repeat split; try done.
    by apply nth_lookup_Some. }
  split.
  - apply Forall_forall. intros row Hrow.
    apply list_elem_of_fmap in Hrow as (line & -> & Hline).
    apply list_elem_of_lookup in Hline as [f Hline].
    assert (is_Some ((factor0 :: rest) !! f)) as [factor Hf].
    { apply lookup_lt_is_Some. rewrite <- Hlen.
      by eapply lookup_lt_Some. }
    destruct (Hrows f factor Hf)
      as (variable & pos & line' & _ & Hcls & _ & Hline' & Hnth).
    assert (line' = line) as -> by congruence.
    rewrite Hnth, arange_length. by rewrite Hcls.
  - intros f factor Hf.
    destruct (Hrows f factor Hf)
      as (variable & pos & line & Hv & _ & Hpos & Hline & Hnth).
    exists variable, pos. split; [done|]. split; [done|].
    rewrite list_lookup_fmap, Hline. cbn. by rewrite Hnth, arange_offsets.
Qed.

(** The rows of [make] can all be computed when the operands have the
    classes of the first factor and are all in the metadata. *)
Lemma make_rows_intro factor0 rest metadata :
  let factors := factor0 :: rest in
  Forall (same_structure factor0) factors ->
  Forall (covered metadata) factors ->
  exists table,
    mapM (fun f => rows_of_factor (make_row factors metadata)
                     (FactorBase.variables f)) factors = Ok table.
Proof.
  intros factors Hall Hcov. apply mapM_Ok_exists.
  apply Forall_forall. intros f Hf.
  rewrite Forall_forall in Hall, Hcov.
  destruct (Hall f Hf) as (_ & Hsig & _). specialize (Hcov f Hf).
  unfold rows_of_factor. apply mapM_Ok_exists.
  apply Forall_forall. intros [i v] Hiv.
  apply list_elem_of_lookup in Hiv as [k Hk].
  unfold enumerate in Hk. rewrite enumerate_from_lookup in Hk.
  destruct (FactorBase.variables f !! k) as [v'|] eqn:Hv; [|done].
  injection Hk as <- <-. cbn [fst snd].
  assert (signature factor0 !! k = Some (VariableBase.type_of v')) as Hcls.
  { rewrite <- Hsig. unfold signature. by rewrite list_lookup_fmap, Hv. }
  unfold signature in Hcls. rewrite list_lookup_fmap in Hcls.
  destruct (FactorBase.variables factor0 !! k) as [v0|] eqn:Hv0; [|done].
  injection Hcls as Hcls.
  unfold covered in Hcov. rewrite Forall_forall in Hcov.
  destruct (Hcov v') as [pos Hpos]; [by eapply list_elem_of_lookup_2|].
  eexists. apply make_row_Ok. exists factor0, v0, pos.
  repeat split; try done.
  unfold VariableBase.isinstance. rewrite Hcls.
  by rewrite bool_decide_eq_true_2.
Qed.

(** The leaves stack when every factor has the leaf shapes of the
    first. *)
Lemma stacked_leaves_intro (lib : Backend) factor0 rest :
  let factors := factor0 :: rest in
  Forall (same_shapes factor0) factors ->
  exists leaves',
    stacked_leaves lib factors (length (FactorBase.leaves factor0))
    = Ok leaves'.
Proof.
  intros factors Hshapes. apply mapM_Ok_exists.
  apply Forall_forall. intros j Hj. apply elem_of_seq in Hj as [_ Hj].
  cbn in Hj.
  assert (exists arrays,
            mapM (fun tree => list_getitem (FactorBase.leaves tree) j) factors
            = Ok arrays
            /\ Forall (fun a => exists a0,
                         FactorBase.leaves factor0 !! j = Some a0
                         /\ shape (values a) = shape (values a0)) arrays)
    as (arrays & Harrays & Hall).
  { clear -Hshapes Hj. induction Hshapes as [|f fs Hf _ IH].
    - by exists [].
    - destruct IH as (arrays & Harrays & Hall).
      destruct (lookup_lt_is_Some_2 (FactorBase.leaves factor0) j Hj)
        as [a0 Ha0].
      destruct (Forall2_lookup_r _ _ _ _ _ Hf Ha0) as (a & Ha & Hshape).
      exists (a :: arrays). split.
      + rewrite mapM_cons. apply list_getitem_Ok in Ha.
        by rewrite Ha, bind_Ok, Harrays, bind_Ok.
      + constructor; [by exists a0|done]. }
  rewrite Harrays, bind_Ok. eexists. apply stack_same_shapes.
  - apply mapM_Ok_length in Harrays. by destruct arrays.
  - rewrite Forall_forall in Hall. intros a1 a2 Ha1 Ha2.
    destruct (Hall a1 Ha1) as (a0 & Ha0 & ->).
    destruct (Hall a2 Ha2) as (a0' & Ha0' & ->). congruence.
Qed.

End MakeProperties.

(* ================================================================== *)
(** * Reshaping and broadcasting: lemmas *)
(* ================================================================== *)

Lemma concat_map_bind {A B : Type} (f : A -> list B) (l : list A) :
  concat (map f l) = l ≫= f.
Proof.
  induction l as [|x l IH]; [done|]. cbn [map concat].
  by rewrite bind_cons, IH.
Qed.

Lemma arange_0 (m : nat) : arange 0 (Z.of_nat m) = map Z.of_nat (seq 0 m).
Proof.
  unfold arange. rewrite Z.sub_0_r, Nat2Z.id. done.
Qed.

Lemma map_seq_from {B : Type} (f : nat -> B) (start m : nat) :
  map f (seq start m) = map (fun r => f (start + r)) (seq 0 m).
Proof.
  revert start. induction m as [|m IH]; intros start; [done|].
  cbn [seq map]. f_equal; [f_equal; lia|].
  rewrite IH, <- seq_shift, map_map. apply map_ext. intros r. f_equal. lia.
Qed.

Lemma chunks_seq (n m start : nat) :
  chunks n m (map Z.of_nat (seq start (n * m)))
  = map (fun i => map (fun r => Z.of_nat (start + (i * m + r))) (seq 0 m))
        (seq 0 n).
Proof.
  revert start. induction n as [|n IH]; intros start; [done|].
  cbn [chunks]. rewrite <- fmap_take, <- fmap_drop.
  rewrite take_seq, drop_seq.
  replace (m `min` (S n * m)) with m by lia.
  replace (S n * m - m) with (n * m) by lia.
  rewrite IH. cbn [seq map]. apply (f_equal2 cons).
  - change (Z.of_nat <$> seq start m) with (map Z.of_nat (seq start m)).
    rewrite map_seq_from. apply map_ext. intros r. f_equal; lia.
  - rewrite <- seq_shift, map_map. apply map_ext. intros i.
    apply map_ext. intros r. f_equal; lia.
Qed.

Lemma stretch_same {A : Type} (l : list A) : stretch (length l) l = l.
Proof. unfold stretch. by rewrite Nat.eqb_refl. Qed.

Lemma stretch_one {A : Type} (n : nat) (x : A) :
  stretch n [x] = replicate n x.
Proof.
  unfold stretch. cbn [length]. destruct (Nat.eqb_spec 1 n) as [<-|_];
    [done|]. cbn. by rewrite app_nil_r.
Qed.

Lemma broadcastable_same (n : nat) : broadcastable n n = true.
Proof. unfold broadcastable. by rewrite Nat.eqb_refl. Qed.

Lemma broadcastable_one (n : nat) : broadcastable 1 n = true.
Proof. unfold broadcastable. by rewrite orb_true_r. Qed.

(** [onp.broadcast_to(a[:, :, None], (n, r, d))] for [a] of shape
    [(n, r)]. *)
Lemma broadcast_rows {A : Type} (a : list (list A)) (n r d : nat) :
  length a = n -> Forall (fun row => length row = r) a ->
  broadcast_to_3d (expand_last a) (n, r, 1) (n, r, d)
  = Ok (map (map (replicate d)) a).
Proof.
  intros Hn Hr. unfold broadcast_to_3d.
  rewrite !broadcastable_same, broadcastable_one. cbn [andb]. f_equal.
  unfold expand_last. rewrite map_map.
  rewrite <- Hn at 1.
  rewrite <- (length_map
                (fun x => stretch r (map (stretch d)
                                         (map (fun x0 => [x0]) x)))),
    stretch_same.
  apply Forall_fmap_ext_1. eapply Forall_impl; [exact Hr|].
  intros row Hrow. cbv beta. rewrite map_map.
  rewrite <- Hrow at 1.
  rewrite <- (length_map (fun x => stretch d [x])), stretch_same.
  apply map_ext. intros x. apply stretch_one.
Qed.

(** [a[:, None, :]] and [onp.broadcast_to(_, (n, r, d))] for a non-empty
    [a] of shape [(n, d)]. *)
Lemma expand_middle_shape {A : Type} (a : list (list A)) (n d : nat) :
  0 < n -> length a = n -> Forall (fun row => length row = d) a ->
  expand_middle a = Ok (n, 1, d, map (fun row => [row]) a).
Proof.
  intros Hpos Hn Hd. destruct a as [|row0 a']; [simpl in Hn; lia|].
  unfold expand_middle. pose proof (Forall_inv Hd) as Hd0. cbv beta in Hd0.
  by rewrite Hn, Hd0.
Qed.

Lemma broadcast_cols {A : Type} (a : list (list A)) (n r d : nat) :
  length a = n -> Forall (fun row => length row = d) a ->
  broadcast_to_3d (map (fun row => [row]) a) (n, 1, d) (n, r, d)
  = Ok (map (replicate r) a).
Proof.
  intros Hn Hd. unfold broadcast_to_3d.
  rewrite !broadcastable_same, broadcastable_one. cbn [andb].
  f_equal. rewrite map_map.
  rewrite <- Hn at 1.
  rewrite <- (length_map (fun x => stretch r (map (stretch d) [x]))),
    stretch_same.
  apply Forall_fmap_ext_1. eapply Forall_impl; [exact Hd|].
  intros row Hrow. cbv beta. cbn [map].
  rewrite <- Hrow at 1. rewrite stretch_same. apply stretch_one.
Qed.

Lemma zip_replicate_map {A B C : Type} (g : A -> C) (n : nat) (x : A)
    (l : list B) :
  length l = n ->
  zip (map g (replicate n x)) l = map (fun y => (g x, y)) l.
Proof.
  intros <-. induction l as [|y l IH]; [done|]. cbn. by rewrite IH.
Qed.

Lemma zip_with_map_replicate {A B C : Type} (f : A -> B -> C) (l : list A)
    (n : nat) (y : B) :
  length l = n ->
  zip_with f l (replicate n y) = map (fun x => f x y) l.
Proof.
  intros <-. induction l as [|x l IH]; [done|]. cbn. by rewrite IH.
Qed.

Lemma concat_bind {A B : Type} (f : A -> list (list B)) (l : list A) :
  concat (l ≫= f) = l ≫= (fun x => concat (f x)).
Proof.
  induction l as [|x l IH]; [done|].
  by rewrite !bind_cons, concat_app, IH.
Qed.

Lemma zip_with_seq_enumerate {A B C : Type} (f : B -> A -> C)
    (g : nat -> B) (l : list A) (start : nat) :
  zip_with f (map g (seq start (length l))) l
  = map (fun slot => f (g slot.1) slot.2) (enumerate_from start l).
Proof.
  revert start. induction l as [|x l IH]; intros start; [done|].
  cbn. by rewrite IH.
Qed.

Lemma length_bind_const {A B : Type} (f : A -> list B) (l : list A)
    (m : nat) :
  (forall x, length (f x) = m) -> length (l ≫= f) = length l * m.
Proof.
  intros Hf. induction l as [|x l IH]; [done|].
  rewrite bind_cons, length_app, Hf, IH. cbn. lia.
Qed.

(** The two broadcast blocks, paired and flattened, are the pairs of the
    specification. *)
Lemma stacked_blocks_spec (offsets : list Z) (rd vd : nat) (row_offset : Z) :
  concat (concat
    (stack_last
       (map (map (map (fun x => (x + row_offset)%Z)))
          (map (map (replicate vd))
             (map (fun i => map (fun r => Z.of_nat (0 + (i * rd + r)))
                                (seq 0 rd))
                  (seq 0 (length offsets)))))
       (map (replicate rd)
          (map (fun pos => arange pos (pos + Z.of_nat vd)) offsets))))
  = coords_spec offsets rd vd row_offset.
Proof.
  unfold stack_last, coords_spec.
  rewrite !map_map.
  rewrite (zip_with_fmap_r _
             (fun pos => replicate rd (arange pos (pos + Z.of_nat vd)))).
  rewrite (zip_with_seq_enumerate _ (fun i => _)).
  rewrite concat_map_bind, concat_bind.
  apply list_bind_ext; [|done]. intros [i pos]. cbn [fst snd].
  rewrite !map_map.
  rewrite zip_with_map_replicate by (by rewrite length_map, length_seq).
  rewrite map_map, concat_map_bind.
  apply list_bind_ext; [|done]. intros r.
  rewrite zip_replicate_map by apply arange_length.
  rewrite arange_offsets, map_map.
  induction (seq 0 vd) as [|c l IH]; [done|].
  rewrite bind_cons. cbn [map app]. rewrite <- IH. do 2 f_equal. lia.
Qed.

(* ================================================================== *)
(** * FactorStack.compute_jacobian_coords: properties *)
(* ================================================================== *)

Lemma mapM_enumerate_imap {A B : Type} (f : nat * A -> result B)
    (g : nat -> A -> B) (l : list A) :
  (forall s x, l !! s = Some x -> f (s, x) = Ok (g s x)) ->
  mapM f (enumerate l) = Ok (imap g l).
Proof.
  intros Hfg. apply mapM_Ok_Forall2.
  apply Forall2_same_length_lookup_2.
  - unfold enumerate. by rewrite enumerate_from_length, length_imap.
  - intros s [s' x] y Hx Hy.
    unfold enumerate in Hx. rewrite enumerate_from_lookup in Hx.
    rewrite list_lookup_imap in Hy.
    destruct (l !! s) as [x'|] eqn:Hl; [|done].
    injection Hx as <- <-. injection Hy as <-. by apply Hfg.
Qed.

Lemma coords_spec_length (offsets : list Z) (rd vd : nat) (row_offset : Z) :
  length (coords_spec offsets rd vd row_offset) = length offsets * rd * vd.
Proof.
  unfold coords_spec.
  rewrite (length_bind_const _ _ (rd * vd)).
  - unfold enumerate. rewrite enumerate_from_length. lia.
  - intros [i pos]. rewrite (length_bind_const _ _ vd).
    + by rewrite length_seq.
    + intros r. rewrite (length_bind_const _ _ 1); [|done].
      rewrite length_seq. lia.
Qed.

Section Coords.
Context {VT FT Value : Type}.
Context `{VariableBase.Interface VT Value} `{FactorBase.Interface FT Value}.

Implicit Types (factor : FactorBase.t VT FT)
  (factors : list (FactorBase.t VT FT)) (metadata : StorageMetadata).

Lemma coords_row_Ok metadata (i : nat) (v : VariableBase.t VT) (pos : Z) :
  index_from_variable metadata !! VariableBase.ident v = Some pos ->
  coords_row metadata i v
  = Ok (arange pos
          (pos + Z.of_nat (VariableBase.get_local_parameter_dim
                             (VariableBase.type_of v)))).
Proof.
  intros Hpos%index_of_Ok. unfold coords_row. by rewrite Hpos.
Qed.

(** The rows that [compute_jacobian_coords] collects for one factor. *)
Lemma coords_rows_of_factor metadata (operands : list (VariableBase.t VT))
    (line : list Z) :
  offsets_of metadata operands line ->
  rows_of_factor (coords_row metadata) operands
  = Ok (zip_with
          (fun v pos =>
             arange pos
               (pos + Z.of_nat (VariableBase.get_local_parameter_dim
                                  (VariableBase.type_of v))))
          operands line).
Proof.
  intros Hoff. unfold rows_of_factor, enumerate. generalize 0.
  induction Hoff as [|v pos operands line Hpos _ IH]; intros start; [done|].
  cbn [enumerate_from zip_with]. rewrite mapM_cons. cbn [fst snd].
  by rewrite (coords_row_Ok _ _ _ _ Hpos), bind_Ok, IH, bind_Ok.
Qed.

Lemma coords_loops factor0 factors metadata (offsets : list (list Z)) :
  Forall (fun f => signature f = signature factor0) factors ->
  Forall2 (fun f line => offsets_of metadata (FactorBase.variables f) line)
          factors offsets ->
  foldM (fun acc factor =>
           foldM (FactorStack.coords_visit metadata)
                 (enumerate (FactorBase.variables factor)) acc)
        factors (replicate (length (signature factor0)) [])
  = Ok (imap (local_rows offsets) (signature factor0)).
Proof.
  intros Hsig Hoff.
  erewrite foldM_ext; [|intros acc f; apply foldM_ext, coords_visit_row].
  set (row_of := fun (v : VariableBase.t VT) (pos : Z) =>
         arange pos
           (pos + Z.of_nat (VariableBase.get_local_parameter_dim
                              (VariableBase.type_of v)))).
  assert (mapM (fun f => rows_of_factor (coords_row metadata)
                           (FactorBase.variables f)) factors
          = Ok (zip_with (fun f line =>
                            zip_with row_of (FactorBase.variables f) line)
                         factors offsets)) as Htable.
  { apply mapM_Ok_Forall2. clear Hsig.
    induction Hoff as [|f line fs offs Hline _ IH]; [constructor|].
    cbn [zip_with]. constructor; [|done].
    by apply coords_rows_of_factor. }
  assert (Forall (fun f => length (FactorBase.variables f)
                           = length (signature factor0)) factors) as Harity.
  { eapply Forall_impl; [exact Hsig|]. intros f Hf. cbv beta.
    rewrite <- Hf. unfold signature. by rewrite length_map. }
  erewrite foldM_factors; [| |exact Htable].
  2: { by rewrite length_replicate. }
  f_equal. rewrite foldl_snoc_by_slot.
  2: { eapply table_lines_length; [exact Harity|exact Htable]. }
  apply list_eq. intros s. rewrite list_lookup_imap.
  destruct (signature factor0 !! s) as [cls|] eqn:Hcls.
  - rewrite by_slot_lookup by (by eapply lookup_lt_Some).
    cbn. f_equal. unfold local_rows. rewrite map_map.
    clear Htable Harity.
    induction Hoff as [|f line fs offs Hline _ IH]; [done|].
    apply Forall_cons in Hsig as [Hf Hsig].
    cbn [zip_with map]. f_equal; [|by apply IH].
    rewrite <- Hf in Hcls. unfold signature in Hcls.
    rewrite list_lookup_fmap in Hcls.
    destruct (FactorBase.variables f !! s) as [v|] eqn:Hv; [|done].
    injection Hcls as <-.
    destruct (Forall2_lookup_l _ _ _ _ _ Hline Hv) as (pos & Hpos & _).
    rewrite (nth_lookup_Some _ _ _ (row_of v pos)).
    + by rewrite (nth_lookup_Some _ _ _ pos).
    + by rewrite lookup_zip_with, Hv, Hpos.
  - rewrite lookup_ge_None_2; [done|].
    rewrite by_slot_length. by apply lookup_ge_None_1.
Qed.

(** C2. On a non-empty sequence of factors with the operand classes of the
    first one, whose operands are all in the local metadata,
    [compute_jacobian_coords] returns one coordinate object per operand
    slot, and that of a slot holds exactly the pairs of the specification:
    factor after factor, the rows [row_offset + i * residual_dim + r] of
    factor [i], each paired with the [local_dim] tangent indices that start
    at the local offset of its operand. *)
Theorem compute_jacobian_coords_layout factor0 rest metadata
    (row_offset : Z) (offsets : list (list Z))
    (Hsig : Forall (fun f => signature f = signature factor0)
                   (factor0 :: rest))
    (Hoff : Forall2 (fun f line =>
                       offsets_of metadata (FactorBase.variables f) line)
                    (factor0 :: rest) offsets) :
  FactorStack.compute_jacobian_coords (factor0 :: rest) metadata row_offset
  = Ok (imap
          (fun s cls =>
             coords_of_pairs
               (coords_spec (map (fun line => nth s line 0%Z) offsets)
                  (FactorBase.get_residual_dim (FactorBase.type_of factor0)
                     (map values (FactorBase.leaves factor0)))
                  (VariableBase.get_local_parameter_dim cls)
                  row_offset))
          (signature factor0)).
Proof.
  unfold FactorStack.compute_jacobian_coords.
  change (list_getitem (factor0 :: rest) 0) with (Ok factor0).
  rewrite bind_Ok. fold (signature factor0).
  rewrite (coords_loops factor0 _ metadata offsets Hsig Hoff), bind_Ok.
  set (residual_dim :=
         FactorBase.get_residual_dim (FactorBase.type_of factor0)
           (map values (FactorBase.leaves factor0))).
  set (n := length (factor0 :: rest)).
  assert (length offsets = n) as Hn
    by (symmetry; by eapply Forall2_length).
  assert (0 < n) as Hpos by (subst n; simpl; lia).
  rewrite mapM_onp_array_rectangular, bind_Ok.
  2: { apply Forall_forall. intros rws Hrws.
       apply list_elem_of_lookup in Hrws as [s Hs].
       rewrite list_lookup_imap in Hs.
       destruct (signature factor0 !! s) as [cls|]; [|done].
       injection Hs as <-.
       exists (VariableBase.get_local_parameter_dim cls).
       unfold local_rows. apply Forall_forall. intros row Hrow.
       apply list_elem_of_fmap in Hrow as (pos & -> & _).
       apply arange_length. }
  unfold reshape_2d. rewrite arange_0, length_map, length_seq, Nat.eqb_refl.
  rewrite bind_Ok, chunks_seq.
  apply mapM_enumerate_imap. intros s cls Hcls.
  rewrite broadcast_rows, bind_Ok.
  2: { by rewrite length_map, length_seq. }
  2: { apply Forall_forall. intros row Hrow.
       apply list_elem_of_fmap in Hrow as (i & -> & _).
       by rewrite length_map, length_seq. }
  unfold list_getitem. rewrite list_lookup_imap, Hcls.
  cbn [fmap option_fmap option_map].
  rewrite bind_Ok.
  assert (length (local_rows offsets s cls) = n) as Hlen
    by (unfold local_rows; by rewrite !length_map).
  assert (Forall (fun row => length row
                             = VariableBase.get_local_parameter_dim cls)
                 (local_rows offsets s cls)) as Hrect.
  { unfold local_rows. apply Forall_forall. intros row Hrow.
    apply list_elem_of_fmap in Hrow as (pos & -> & _).
    apply arange_length. }
  rewrite (expand_middle_shape _ n _ Hpos Hlen Hrect), bind_Ok.
  rewrite (broadcast_cols _ n _ _ Hlen Hrect), bind_Ok.
  unfold local_rows. rewrite <- !Hn.
  rewrite <- (length_map (fun line => nth s line 0%Z) offsets).
  unfold reshape_pairs. rewrite stacked_blocks_spec.
  rewrite coords_spec_length, Nat.eqb_refl.
  by rewrite bind_Ok.
Qed.

End Coords.

(* ================================================================== *)
(** * Batched evaluation: lemmas *)
(* ================================================================== *)

Lemma jnp_getitem_in_bounds (storage : list Q) (i : nat) :
  i < length storage ->
  jnp_getitem storage (Z.of_nat i) = nth i storage 0%Q.
Proof.
  intros Hi. unfold jnp_getitem.
  destruct (Z.ltb_spec (Z.of_nat i) 0) as [?|_]; [lia|].
  f_equal. lia.
Qed.

(** Within the bounds of the storage, gathering the offsets of a range is
    slicing. *)
Lemma slice_gather (storage : list Q) (pos : Z) (n : nat) :
  (0 <= pos)%Z -> (pos + Z.of_nat n <= Z.of_nat (length storage))%Z ->
  slice storage pos (pos + Z.of_nat n)
  = map (jnp_getitem storage) (arange pos (pos + Z.of_nat n)).
Proof.
  intros Hpos Hend. unfold slice.
  destruct (Z.ltb_spec (pos + Z.of_nat n) 0) as [?|_]; [lia|].
  destruct (Z.ltb_spec pos 0) as [?|_]; [lia|].
  rewrite !Z.min_l, !Z.max_r by lia.
  replace (Z.to_nat (pos + Z.of_nat n - pos)) with n by lia.
  rewrite arange_offsets, map_map.
  apply list_eq. intros k.
  rewrite list_lookup_fmap.
  destruct (decide (k < n)) as [Hk|Hk].
  - rewrite lookup_take_lt, lookup_drop, lookup_seq_lt by done. cbn.
    replace (pos + Z.of_nat k)%Z with (Z.of_nat (Z.to_nat pos + k)) by lia.
    rewrite jnp_getitem_in_bounds by lia.
    destruct (lookup_lt_is_Some_2 storage (Z.to_nat pos + k)) as [x Hx];
      [lia|].
    rewrite Hx. f_equal. symmetry. by apply nth_lookup_Some.
  - rewrite lookup_take_ge by lia.
    rewrite lookup_ge_None_2; [done|]. rewrite length_seq. lia.
Qed.

Lemma mapM_seq_of_list {A B : Type} (f : nat -> result B) (g : A -> B)
    (l : list A) :
  (forall i x, l !! i = Some x -> f i = Ok (g x)) ->
  mapM f (seq 0 (length l)) = Ok (map g l).
Proof.
  intros Hfg. apply mapM_Ok_Forall2.
  apply Forall2_same_length_lookup_2.
  - by rewrite length_seq, length_map.
  - intros i j y Hj Hy.
    apply lookup_seq in Hj as [-> Hi]. cbn in *.
    rewrite list_lookup_fmap in Hy.
    destruct (l !! i) as [x|] eqn:Hx; [|done].
    injection Hy as <-. by apply Hfg.
Qed.

Lemma mapM_of_lookup {A B : Type} (f : A -> result B) (l : list A)
    (k : list B) :
  length l = length k ->
  (forall i x y, l !! i = Some x -> k !! i = Some y -> f x = Ok y) ->
  mapM f l = Ok k.
Proof.
  intros Hlen Hf. apply mapM_Ok_Forall2.
  by apply Forall2_same_length_lookup_2.
Qed.

Section Vmap.
Context {VT FT Value : Type}.
Context `{VariableBase.Interface VT Value} `{FactorBase.Interface FT Value}.

(** [vmap] over stacked leaves and values that all have [n] items. *)
Lemma vmap_items {A B : Type} (f : list ndarray -> list Value -> B)
    (stacked_leaves : list ndarray) (values_stacked : list (list Value))
    (batch : list A) (leaves_of : A -> list ndarray)
    (values_of : A -> list Value) :
  stacked_leaves <> [] \/ values_stacked <> [] ->
  Forall (fun a => axis0_length_is (length batch) a) stacked_leaves ->
  Forall (fun v => length v = length batch) values_stacked ->
  (forall i x, batch !! i = Some x ->
     mapM (fun a => FactorStack.axis0_item a i) stacked_leaves
     = Ok (leaves_of x)
     /\ mapM (fun v => list_getitem v i) values_stacked = Ok (values_of x)) ->
  FactorStack.vmap f stacked_leaves values_stacked
  = Ok (map (fun x => f (leaves_of x) (values_of x)) batch).
Proof.
  intros Hne Hleaves Hvalues Hitems. unfold FactorStack.vmap.
  assert (mapM FactorStack.axis0_length stacked_leaves
          = Ok (replicate (length stacked_leaves) (length batch))) as ->.
  { apply mapM_of_lookup; [by rewrite length_replicate|].
    intros i a n Ha Hn. apply lookup_replicate in Hn as [-> _].
    rewrite Forall_forall in Hleaves.
    apply (Hleaves a). by eapply list_elem_of_lookup_2. }
  rewrite bind_Ok.
  assert (exists sizes,
            replicate (length stacked_leaves) (length batch)
              ++ map length values_stacked = length batch :: sizes
            /\ Forall (fun m => m = length batch) sizes)
    as (sizes & -> & Hsizes).
  { assert (Forall (fun m => m = length batch)
              (replicate (length stacked_leaves) (length batch)
                 ++ map length values_stacked)) as Hall.
    { apply Forall_app. split; [by apply Forall_replicate|].
      by apply Forall_fmap. }
    destruct (replicate _ _ ++ _) as [|m sizes] eqn:Heq.
    - apply app_eq_nil in Heq as [Hr Hv].
      apply (f_equal length) in Hr, Hv.
      rewrite length_replicate in Hr. rewrite length_map in Hv.
      destruct Hne as [Hne|Hne]; exfalso; apply Hne;
        by apply length_zero_iff_nil.
    - apply Forall_cons in Hall as [-> Hall]. by exists sizes. }
  rewrite (proj2 (forallb_forall _ _)).
  2: { intros m Hm%list_elem_of_In. rewrite Forall_forall in Hsizes.
       rewrite (Hsizes m Hm). apply Nat.eqb_refl. }
  apply (mapM_seq_of_list _ (fun x => f (leaves_of x) (values_of x))).
  intros i x Hx. destruct (Hitems i x Hx) as [-> ->]. done.
Qed.

End Vmap.

Lemma mapM_Ok_map {A B : Type} (f : A -> result B) (g : A -> B)
    (l : list A) :
  (forall x, x ∈ l -> f x = Ok (g x)) -> mapM f l = Ok (map g l).
Proof.
  intros Hfg. rewrite (mapM_ext_in f (fun x => Ok (g x))) by done.
  apply mapM_Ok_total.
Qed.

Section Evaluation.
Context {VT FT Value : Type}.
Context `{VariableBase.Interface VT Value} `{FactorBase.Interface FT Value}.

Implicit Types (factor : FactorBase.t VT FT)
  (factors : list (FactorBase.t VT FT)) (metadata : StorageMetadata)
  (assignments : VariableAssignments StorageMetadata).

(** The items of the stacked leaves are the leaves of the factors. *)
Lemma stacked_leaves_items (lib : Backend) factors (width : nat)
    (leaves' : list Array) :
  stacked_leaves lib factors width = Ok leaves' ->
  Forall (fun f => length (FactorBase.leaves f) = width) factors ->
  Forall (axis0_length_is (length factors)) (map values leaves')
  /\ forall i f,
       factors !! i = Some f ->
       mapM (fun a => FactorStack.axis0_item a i) (map values leaves')
       = Ok (map values (FactorBase.leaves f)).
Proof.
  intros Hstacked Hwidth.
  pose proof (mapM_Ok_length _ _ _ Hstacked) as Hlen.
  rewrite length_seq in Hlen.
  apply mapM_Ok_Forall2 in Hstacked.
  assert (forall j leaf,
            leaves' !! j = Some leaf ->
            exists arrays,
              Forall2 (fun tree a => FactorBase.leaves tree !! j = Some a)
                      factors arrays
              /\ values leaf = Axis (map values arrays)) as Hleaf.
  { intros j leaf Hj.
    destruct (Forall2_lookup_r _ _ _ _ _ Hstacked Hj) as (j' & Hj' & Hok).
    apply lookup_seq in Hj' as [-> _]. cbn in Hok.
    apply bind_Ok_inv in Hok as (arrays & Harrays & Hstack).
    apply stack_inv in Hstack as [-> _].
    exists arrays. split; [|done].
    apply mapM_Ok_Forall2 in Harrays.
    eapply Forall2_impl; [exact Harrays|].
    intros tree a. apply list_getitem_Ok. }
  split.
  - apply Forall_forall. intros a Ha.
    apply list_elem_of_fmap in Ha as (leaf & -> & Hleaf').
    apply list_elem_of_lookup in Hleaf' as [j Hj].
    destruct (Hleaf j leaf Hj) as (arrays & Harrays & ->).
    unfold axis0_length_is. cbn. rewrite length_map.
    f_equal. symmetry. by eapply Forall2_length.
  - intros i f Hf. apply mapM_of_lookup.
    + rewrite !length_map, Hlen. symmetry.
      rewrite Forall_forall in Hwidth. apply Hwidth.
      by eapply list_elem_of_lookup_2.
    + intros j a y Ha Hy.
      rewrite list_lookup_fmap in Ha, Hy.
      destruct (leaves' !! j) as [leaf|] eqn:Hj; [|done].
      destruct (FactorBase.leaves f !! j) as [x|] eqn:Hx; [|done].
      injection Ha as <-. injection Hy as <-.
      destruct (Hleaf j leaf Hj) as (arrays & Harrays & ->).
      destruct (Forall2_lookup_l _ _ _ _ _ Harrays Hf) as (x' & Hx' & Hfx).
      assert (x' = x) as -> by congruence.
      cbn. apply list_getitem_Ok. by rewrite list_lookup_fmap, Hx'.
Qed.

(** The items of the stacked values are the values of the operands of the
    factors, read one variable at a time. *)
Lemma values_stacked_items factor0 rest (table : list (list (list Z)))
    (stack_made : FactorStack.t VT FT) assignments :
  let factors := factor0 :: rest in
  Forall (same_structure factor0) factors ->
  mapM (fun f => rows_of_factor
                   (make_row factors (storage_metadata assignments))
                   (FactorBase.variables f)) factors = Ok table ->
  FactorBase.variables (FactorStack.factor stack_made)
  = map VariableBase.canonical_instance (signature factor0) ->
  FactorStack.value_indices stack_made
  = by_slot (length (signature factor0)) table ->
  Forall (fun f => Forall (within_storage assignments)
                          (FactorBase.variables f)) factors ->
  Forall (fun v => length v = length factors)
         (FactorStack.values_stacked stack_made assignments)
  /\ forall i f,
       factors !! i = Some f ->
       exists operands,
         mapM (FactorStack.get_value assignments) (FactorBase.variables f)
         = Ok operands
         /\ mapM (fun v => list_getitem v i)
                 (FactorStack.values_stacked stack_made assignments)
            = Ok operands.
Proof.
  intros factors Hall Htable Hvars Hindices Hbounds.
  set (slots := length (signature factor0)) in *.
  pose proof (mapM_Ok_length _ _ _ Htable) as Htlen.
  unfold FactorStack.values_stacked. rewrite Hvars, Hindices.
  assert (forall s vs,
            zip_with
              (fun variable indices =>
                 map (VariableBase.unflatten (VariableBase.type_of variable))
                     (gather (storage assignments) indices))
              (map VariableBase.canonical_instance (signature factor0))
              (by_slot slots table) !! s = Some vs ->
            exists cls,
              signature factor0 !! s = Some cls
              /\ vs = map (fun line =>
                             VariableBase.unflatten cls
                               (map (jnp_getitem (storage assignments))
                                    (nth s line [])))
                          table) as Hslot.
  { intros s vs Hvs. rewrite lookup_zip_with in Hvs.
    rewrite list_lookup_fmap in Hvs.
    destruct (signature factor0 !! s) as [cls|] eqn:Hcls; [|done].
    rewrite by_slot_lookup in Hvs by (by eapply lookup_lt_Some).
    cbn in Hvs. injection Hvs as <-. exists cls. split; [done|].
    unfold gather. by rewrite !map_map. }
  split.
  - apply Forall_forall. intros vs Hvs.
    apply list_elem_of_lookup in Hvs as [s Hs].
    destruct (Hslot s vs Hs) as (cls & _ & ->).
    by rewrite length_map.
  - intros i f Hf.
    apply mapM_Ok_Forall2 in Htable.
    destruct (Forall2_lookup_l _ _ _ _ _ Htable Hf) as (line & Hline & Hrows).
    pose proof (rows_of_factor_length _ _ _ Hrows) as Hllen.
    rewrite Forall_forall in Hall, Hbounds.
    assert (f ∈ factors) as Hin by (by eapply list_elem_of_lookup_2).
    destruct (Hall f Hin) as (_ & Hsig & _).
    specialize (Hbounds f Hin). rewrite Forall_forall in Hbounds.
    exists (zip_with
              (fun v row =>
                 VariableBase.unflatten (VariableBase.type_of v)
                   (map (jnp_getitem (storage assignments)) row))
              (FactorBase.variables f) line).
    split.
    + apply mapM_of_lookup.
      { rewrite length_zip_with. lia. }
      intros s v y Hv Hy.
      rewrite lookup_zip_with, Hv in Hy. cbn in Hy.
      destruct (line !! s) as [row|] eqn:Hrow; [|done].
      injection Hy as <-.
      destruct (rows_of_factor_lookup _ _ _ _ _ Hrows Hv)
        as (row' & Hrow' & Hmk).
      assert (row' = row) as -> by congruence.
      apply make_row_Ok in Hmk as (_ & _ & pos & _ & _ & _ & Hpos & ->).
      unfold FactorStack.get_value.
      apply index_of_Ok in Hpos as Hpos'. rewrite Hpos', bind_Ok.
      do 2 f_equal.
      assert (within_storage assignments v) as Hin_storage
        by (apply Hbounds; by eapply list_elem_of_lookup_2).
      unfold within_storage in Hin_storage. rewrite Hpos in Hin_storage.
      apply slice_gather; lia.
    + apply mapM_of_lookup.
      { rewrite !length_zip_with, length_map, by_slot_length.
        subst slots. rewrite <- Hsig. unfold signature.
        rewrite length_map. lia. }
      intros s vs y Hvs Hy.
      destruct (Hslot s vs Hvs) as (cls & Hcls & ->).
      rewrite lookup_zip_with in Hy.
      destruct (FactorBase.variables f !! s) as [v|] eqn:Hv; [|done].
      destruct (line !! s) as [row|] eqn:Hrow; [|done].
      cbn in Hy. injection Hy as <-.
      apply list_getitem_Ok. rewrite list_lookup_fmap, Hline. cbn.
      rewrite (nth_lookup_Some _ _ _ _ Hrow).
      rewrite <- Hsig in Hcls. unfold signature in Hcls.
      rewrite list_lookup_fmap, Hv in Hcls. by injection Hcls as <-.
Qed.

(** The outputs of the two batched computations on a stack made from the
    factors, with operands inside the storage, in terms of the outputs of
    the factors computed one at a time. *)
Lemma batched_outputs factors (use_onp : bool)
    (stack_made : FactorStack.t VT FT) assignments
    (Hmake : FactorStack.make factors (storage_metadata assignments) use_onp
             = Ok stack_made)
    (Hbounds : Forall (fun f => Forall (within_storage assignments)
                                       (FactorBase.variables f)) factors)
    (Hmapped : Forall (fun f => FactorBase.variables f <> []
                                \/ FactorBase.leaves f <> []) factors) :
  exists (residuals : list ndarray) (jacobians : list (list ndarray)),
    mapM (fun f => FactorStack.factor_residual_vector f assignments) factors
    = Ok residuals
    /\ mapM (fun f => FactorStack.factor_residual_jacobians f assignments)
            factors = Ok jacobians
    /\ FactorStack.compute_residual_vector stack_made assignments
       = Ok (Axis residuals)
    /\ FactorStack.compute_residual_jacobian stack_made assignments
       = Ok (FactorStack.unzip_outputs jacobians).
Proof.
  apply make_inv in Hmake
    as (factor0 & rest & table & -> & Hall & Htable & Hleaves & _
        & Htype & Hvars & Hindices).
  destruct (values_stacked_items factor0 rest table stack_made assignments
              Hall Htable Hvars Hindices Hbounds) as [Hvlen Hvitems].
  destruct (stacked_leaves_items _ _ _ _ Hleaves) as [Hllen Hlitems].
  { eapply Forall_impl; [exact Hall|]. by intros f (_ & _ & ?). }
  assert (map values (FactorBase.leaves (FactorStack.factor stack_made)) <> []
          \/ FactorStack.values_stacked stack_made assignments <> [])
    as Hne.
  { apply Forall_inv in Hmapped.
    destruct Hmapped as [Hv|Hl].
    - right. unfold FactorStack.values_stacked.
      rewrite Hvars, Hindices. intros Hnil.
      apply (f_equal length) in Hnil.
      rewrite length_zip_with, length_map, by_slot_length in Hnil.
      unfold signature in Hnil. rewrite length_map in Hnil.
      apply Hv, length_zero_iff_nil. cbn in Hnil. lia.
    - left. intros Hnil. apply (f_equal length) in Hnil.
      rewrite length_map in Hnil.
      apply mapM_Ok_length in Hleaves. rewrite length_seq in Hleaves.
      apply Hl, length_zero_iff_nil. cbn in Hnil. lia. }
  assert (forall i f,
            (factor0 :: rest) !! i = Some f ->
            mapM (fun a => FactorStack.axis0_item a i)
                 (map values
                    (FactorBase.leaves (FactorStack.factor stack_made)))
            = Ok (map values (FactorBase.leaves f))
            /\ mapM (fun v => list_getitem v i)
                    (FactorStack.values_stacked stack_made assignments)
               = Ok (operands_of assignments f)) as Hitems.
  { intros i f Hf. split; [by eapply Hlitems|].
    destruct (Hvitems i f Hf) as (operands & Hget & ->).
    unfold operands_of. by rewrite Hget. }
  assert (forall f, f ∈ factor0 :: rest ->
            mapM (FactorStack.get_value assignments) (FactorBase.variables f)
            = Ok (operands_of assignments f)
            /\ FactorBase.type_of f = FactorBase.type_of factor0) as Hone.
  { intros f Hf. apply list_elem_of_lookup in Hf as [i Hi].
    destruct (Hvitems i f Hi) as (operands & Hget & _).
    unfold operands_of. rewrite Hget. split; [done|].
    rewrite Forall_forall in Hall.
    by destruct (Hall f) as (? & _); [by eapply list_elem_of_lookup_2|]. }
  exists (map (fun f =>
                 FactorBase.compute_residual_vector
                   (FactorBase.type_of factor0)
                   (map values (FactorBase.leaves f))
                   (operands_of assignments f)) (factor0 :: rest)),
         (map (fun f =>
                 FactorBase.compute_residual_jacobians
                   (FactorBase.type_of factor0)
                   (map values (FactorBase.leaves f))
                   (operands_of assignments f)) (factor0 :: rest)).
  split; [|split; [|split]].
  - apply mapM_Ok_map. intros f Hf. destruct (Hone f Hf) as [Hget Hty].
    unfold FactorStack.factor_residual_vector.
    by rewrite Hget, bind_Ok, Hty.
  - apply mapM_Ok_map. intros f Hf. destruct (Hone f Hf) as [Hget Hty].
    unfold FactorStack.factor_residual_jacobians.
    by rewrite Hget, bind_Ok, Hty.
  - unfold FactorStack.compute_residual_vector.
    rewrite (vmap_items _ _ _ (factor0 :: rest)
               (fun f => map values (FactorBase.leaves f))
               (operands_of assignments) Hne Hllen Hvlen Hitems).
    by rewrite bind_Ok, Htype.
  - unfold FactorStack.compute_residual_jacobian.
    rewrite (vmap_items _ _ _ (factor0 :: rest)
               (fun f => map values (FactorBase.leaves f))
               (operands_of assignments) Hne Hllen Hvlen Hitems).
    by rewrite bind_Ok, Htype.
Qed.

(** The stacked components of the outputs of a mapped function: as many
    as the first output has components, each with one item per output, the
    component of that output. *)
Lemma unzip_outputs_items (outputs : list (list ndarray))
    (output0 : list ndarray) :
  outputs !! 0 = Some output0 ->
  length (FactorStack.unzip_outputs outputs) = length output0
  /\ forall s stacked_s,
       FactorStack.unzip_outputs outputs !! s = Some stacked_s ->
       exists items,
         stacked_s = Axis items
         /\ length items = length outputs
         /\ forall f output J,
              outputs !! f = Some output -> output !! s = Some J ->
              items !! f = Some J.
Proof.
  intros Hfirst. destruct outputs as [|output0' rest]; [done|].
  injection Hfirst as ->. cbn [FactorStack.unzip_outputs].
  split; [by rewrite length_map, length_seq|].
  intros s stacked_s Hs.
  change (map ?f (seq 0 ?n)) with (f <$> seq 0 n) in Hs.
  rewrite list_lookup_fmap in Hs.
  destruct (seq 0 (length output0) !! s) as [j|] eqn:Hj; [|done].
  apply lookup_seq in Hj as [-> _]. injection Hs as <-.
  cbn [Nat.add].
  exists (map (fun output => nth s output (Axis [])) (output0 :: rest)).
  split; [done|]. split; [by rewrite length_map|].
  intros f output J Hf HJ.
  change (map ?g (output0 :: rest)) with (g <$> output0 :: rest).
  rewrite list_lookup_fmap, Hf. cbn. f_equal.
  by apply nth_lookup_Some.
Qed.

(** C3. On a stack made from the factors, with operands inside the
    storage, the batched residual is the stack, in factor order, of the
    residuals of the factors computed one at a time; and the batched
    Jacobians are as many arrays as a factor has Jacobians, the array of
    each slot having one item per factor, in factor order: the Jacobian of
    that factor for that slot, computed one factor at a time. *)
Theorem stacking_equivalence factors (use_onp : bool)
    (stack_made : FactorStack.t VT FT) assignments
    (Hmake : FactorStack.make factors (storage_metadata assignments) use_onp
             = Ok stack_made)
    (Hbounds : Forall (fun f => Forall (within_storage assignments)
                                       (FactorBase.variables f)) factors)
    (Hmapped : Forall (fun f => FactorBase.variables f <> []
                                \/ FactorBase.leaves f <> []) factors) :
  exists (residuals : list ndarray) (jacobians : list (list ndarray))
         (stacked_jacobians : list ndarray),
    mapM (fun f => FactorStack.factor_residual_vector f assignments) factors
    = Ok residuals
    /\ mapM (fun f => FactorStack.factor_residual_jacobians f assignments)
            factors = Ok jacobians
    /\ FactorStack.compute_residual_vector stack_made assignments
       = Ok (Axis residuals)
    /\ FactorStack.compute_residual_jacobian stack_made assignments
       = Ok stacked_jacobians
    /\ (exists jacobians0,
          jacobians !! 0 = Some jacobians0
          /\ length stacked_jacobians = length jacobians0)
    /\ forall s stacked_s,
         stacked_jacobians !! s = Some stacked_s ->
         exists items,
           stacked_s = Axis items
           /\ length items = length factors
           /\ forall f jacobians_f J,
                jacobians !! f = Some jacobians_f ->
                jacobians_f !! s = Some J ->
                items !! f = Some J.
Proof.
  destruct (batched_outputs factors use_onp stack_made assignments
              Hmake Hbounds Hmapped)
    as (residuals & jacobians & Hres & Hjac & Hbatched & Hstacked).
  exists residuals, jacobians, (FactorStack.unzip_outputs jacobians).
  split; [done|]. split; [done|]. split; [done|]. split; [done|].
  pose proof (mapM_Ok_length _ _ _ Hjac) as Hlen.
  apply make_inv in Hmake as (factor0 & rest & table & -> & _).
  destruct jacobians as [|jacobians0 others]; [done|].
  destruct (unzip_outputs_items (jacobians0 :: others) jacobians0 eq_refl)
    as [Hcount Hitems].
  split; [by exists jacobians0|].
  intros s stacked_s Hs.
  destruct (Hitems s stacked_s Hs) as (items & -> & Hn & Hitem).
  exists items. split; [done|]. split; [by rewrite Hn, Hlen|]. done.
Qed.

End Evaluation.

(* ================================================================== *)
(** * Levenberg-Marquardt solver: properties *)
(* ================================================================== *)

Section SolverProperties.
Import LevenbergMarquardt.

Context {StorageMetadata SparseCooMatrix : Type}.
Context `{ArrayOps StorageMetadata SparseCooMatrix}.

Implicit Types (self : LevenbergMarquardtSolver StorageMetadata SparseCooMatrix)
  (graph : StackedFactorGraph StorageMetadata SparseCooMatrix)
  (s : _LevenbergMarquardtState StorageMetadata).

(** What [_step] stores, field by field, in terms of the acceptance flag. *)
Lemma step_fields self graph s :
  let s' := _step self graph s in
  iterations s' = (iterations s + 1)%Z
  /\ storage (assignments s') =
       (if accept_flag self graph s
        then storage (assignments_proposed self graph s)
        else storage (assignments s))
  /\ storage_metadata (assignments s') = storage_metadata (assignments s)
  /\ cost s' =
       (if accept_flag self graph s then proposed_cost self graph s
        else cost s)
  /\ residual_vector s' = proposed_residual_vector self graph s.
Proof. by cbv [_step jnp_where]. Qed.

(** A rejected step returns the previous assignments and cost, together
    with the residual vector of the rejected candidate. *)
Lemma step_rejected self graph s :
  accept_flag self graph s = false ->
  assignments (_step self graph s) = assignments s
  /\ cost (_step self graph s) = cost s
  /\ residual_vector (_step self graph s)
     = proposed_residual_vector self graph s.
Proof.
  intros Hrej. cbv [_step jnp_where]. cbn [assignments cost residual_vector].
  rewrite Hrej. by destruct (assignments s).
Qed.

(** An accepted step returns the candidate's storage, cost and residual
    vector. *)
Lemma step_accepted self graph s :
  accept_flag self graph s = true ->
  storage (assignments (_step self graph s))
    = storage (assignments_proposed self graph s)
  /\ cost (_step self graph s) = proposed_cost self graph s
  /\ residual_vector (_step self graph s)
     = proposed_residual_vector self graph s.
Proof.
  intros Hacc. cbv [_step jnp_where].
  cbn [assignments cost residual_vector storage].
  by rewrite Hacc.
Qed.


Lemma clamp_bounds (lo hi x : Q) :
  (lo <= hi)%Q -> (lo <= Qmax lo (Qmin x hi) /\ Qmax lo (Qmin x hi) <= hi)%Q.
Proof.
  intros Hb. split; [apply Q.le_max_l|].
  apply Q.max_lub; [done|apply Q.le_min_r].
Qed.

Lemma iterate_step_S self graph k s :
  iterate_step self graph (S k) s
  = _step self graph (iterate_step self graph k s).
Proof. done. Qed.

(** C4. Damping update: an accepted step divides the damping by
    [lambda_factor] and applies no bound; a rejected step multiplies it by
    [lambda_factor] and clamps the product, which then lies within
    [[lambda_min, lambda_max]]. *)
Theorem damping_update self graph s
    (Hbounds : (lambda_min self <= lambda_max self)%Q) :
  if accept_flag self graph s
  then lambd (_step self graph s) = (lambd s / lambda_factor self)%Q
  else lambd (_step self graph s)
       = Qmax (lambda_min self)
              (Qmin (lambd s * lambda_factor self)%Q (lambda_max self))
       /\ (lambda_min self <= lambd (_step self graph s))%Q
       /\ (lambd (_step self graph s) <= lambda_max self)%Q.
Proof.
  cbv [_step jnp_where]. cbn [lambd].
  destruct (accept_flag self graph s); [done|].
  split; [done|]. by apply clamp_bounds.
Qed.

(** After a rejected step the next linearization is taken at the previous
    assignments with the residual vector of the rejected candidate. *)
Lemma linearization_after_rejection self graph s :
  accept_flag self graph s = false ->
  step_A graph (_step self graph s)
  = compute_whitened_residual_jacobian graph (assignments s)
      (proposed_residual_vector self graph s)
  /\ step_ATb graph (_step self graph s)
     = T_matmul (step_A graph (_step self graph s))
         (neg (proposed_residual_vector self graph s)).
Proof.
  intros Hrej. destruct (step_rejected self graph s Hrej) as (Ha & _ & Hr).
  unfold step_ATb, step_A. by rewrite Ha, Hr.
Qed.

(** C6. The returned [done] flag is set exactly when the maximum iteration
    count is reached, or the step is accepted and the termination criteria,
    evaluated on the previous state, the candidate cost, the step and the
    negative gradient, pass. *)
Theorem done_iff self graph s :
  done (_step self graph s) = true
  <-> check_exceeded_max_iterations self s = true
      \/ (accept_flag self graph s = true
          /\ check_convergence self s (proposed_cost self graph s)
               (local_delta_assignments self graph s)
               (step_ATb graph s) = true).
Proof.
  cbv [_step]. cbn [done].
  rewrite orb_true_iff, andb_true_iff. done.
Qed.

(** C10. Every step, accepted or rejected, adds exactly one to the
    iteration counter, and [k] steps from the initial state leave it at
    [k]. *)
Theorem iterations_count self graph :
  (forall s, iterations (_step self graph s) = (iterations s + 1)%Z)
  /\ (forall initial_assignments (k : nat),
        iterations (iterate_step self graph k
                      (_initialize_state self graph initial_assignments))
        = Z.of_nat k).
Proof.
  split; [done|].
  intros a k. induction k as [|k IH].
  - unfold _initialize_state. by destruct (compute_cost graph a).
  - rewrite iterate_step_S. cbn [_step iterations]. rewrite IH. lia.
Qed.

End SolverProperties.

(* ================================================================== *)
(** * The properties on the examples *)
(* ================================================================== *)

Section SolverExamples.
Import LevenbergMarquardt.

(** C1. A rejected step of the default solver on the residual [x^2 + 1],
    started at [x = 1/4]: the returned state has the assignments and the
    cost of the previous state, but the residual vector of the rejected
    candidate, which is not that of the previous state. *)
Theorem rejected_step_residual :
  accept_flag Toy.exact Toy.parabola Toy.far = false
  /\ assignments (_step Toy.exact Toy.parabola Toy.far)
     = assignments Toy.far
  /\ cost (_step Toy.exact Toy.parabola Toy.far) = cost Toy.far
  /\ residual_vector Toy.far = [17 # 16]
  /\ residual_vector (_step Toy.exact Toy.parabola Toy.far)
     = proposed_residual_vector Toy.exact Toy.parabola Toy.far
  /\ ~ Forall2 Qeq (residual_vector (_step Toy.exact Toy.parabola Toy.far))
                   (residual_vector Toy.far).
Proof.
  assert (accept_flag Toy.exact Toy.parabola Toy.far = false) as Hrej
    by (vm_compute; reflexivity).
  destruct (step_rejected Toy.exact Toy.parabola Toy.far Hrej)
    as (Ha & Hc & Hr).
  split; [done|]. split; [done|]. split; [done|].
  split; [vm_compute; reflexivity|]. split; [done|].
  intros Heq. apply Forall2_cons_1 in Heq as [Heq _].
  revert Heq. vm_compute. discriminate.
Qed.

(** Witness of C4: the rejected step from [Toy.far]. *)
Lemma damping_update_witness :
  (lambda_min Toy.exact <= lambda_max Toy.exact)%Q
  /\ (if accept_flag Toy.exact Toy.parabola Toy.far
      then lambd (_step Toy.exact Toy.parabola Toy.far)
           = (lambd Toy.far / lambda_factor Toy.exact)%Q
      else lambd (_step Toy.exact Toy.parabola Toy.far)
           = Qmax (lambda_min Toy.exact)
                  (Qmin (lambd Toy.far * lambda_factor Toy.exact)%Q
                        (lambda_max Toy.exact))
           /\ (lambda_min Toy.exact
               <= lambd (_step Toy.exact Toy.parabola Toy.far))%Q
           /\ (lambd (_step Toy.exact Toy.parabola Toy.far)
               <= lambda_max Toy.exact)%Q).
Proof.
  assert (lambda_min Toy.exact <= lambda_max Toy.exact)%Q as Hbounds
    by (vm_compute; discriminate).
  split; [exact Hbounds|].
  exact (damping_update Toy.exact Toy.parabola Toy.far Hbounds).
Defined.

(** An accepted step can take the damping below [lambda_min]. *)
Example accepted_damping_below_min :
  accept_flag Toy.exact Toy.parabola Toy.least_damped = true
  /\ (lambd (_step Toy.exact Toy.parabola Toy.least_damped)
      < lambda_min Toy.exact)%Q.
Proof. split; vm_compute; reflexivity. Qed.


(** The first step from [Toy.near] is accepted and lowers the cost. *)
Example near_step_accepted :
  accept_flag Toy.exact Toy.parabola Toy.near = true
  /\ (cost (_step Toy.exact Toy.parabola Toy.near) < cost Toy.near)%Q.
Proof. split; vm_compute; reflexivity. Qed.

(** Witness of C6: a step that reaches the maximum iteration count. *)
Lemma done_iff_witness :
  check_exceeded_max_iterations Toy.exact Toy.last_iteration = true
  /\ done (_step Toy.exact Toy.parabola Toy.last_iteration) = true.
Proof.
  assert (check_exceeded_max_iterations Toy.exact Toy.last_iteration = true)
    as Hmax by reflexivity.
  split; [exact Hmax|].
  exact (proj2 (done_iff Toy.exact Toy.parabola Toy.last_iteration)
           (or_introl Hmax)).
Defined.

End SolverExamples.

Section StackExamples.
Import Sample.

(** Witness of C2: the two factors of the chain, at row offset 10. *)
Lemma compute_jacobian_coords_layout_witness :
  Forall (fun f => signature f = signature (between 1 2 [1; 0]%Q)) chain
  /\ Forall2 (fun f line =>
                offsets_of chain_metadata (FactorBase.variables f) line)
             chain [[0; 2]; [2; 4]]%Z
  /\ FactorStack.compute_jacobian_coords chain chain_metadata 10
     = Ok (imap
             (fun s cls =>
                coords_of_pairs
                  (coords_spec
                     (map (fun line => nth s line 0%Z) [[0; 2]; [2; 4]]%Z)
                     (FactorBase.get_residual_dim BetweenFactor
                        [vector [1; 0]%Q])
                     (VariableBase.get_local_parameter_dim cls)
                     10))
             [RealVector2; RealVector2]).
Proof.
  assert (Forall (fun f => signature f = signature (between 1 2 [1; 0]%Q))
                 chain) as Hsig by (repeat constructor).
  assert (Forall2 (fun f line =>
                     offsets_of chain_metadata (FactorBase.variables f) line)
                  chain [[0; 2]; [2; 4]]%Z) as Hoff
    by (repeat constructor).
  split; [exact Hsig|]. split; [exact Hoff|].
  exact (compute_jacobian_coords_layout
           (between 1 2 [1; 0]%Q) [between 2 3 [0; 1]%Q]
           chain_metadata 10 [[0; 2]; [2; 4]]%Z Hsig Hoff).
Defined.

(** The layout of the two factors of the chain, written out. *)
Example chain_coords :
  FactorStack.compute_jacobian_coords chain chain_metadata 10
  = Ok [ {| rows := [10; 10; 11; 11; 12; 12; 13; 13]%Z;
            cols := [0; 1; 0; 1; 2; 3; 2; 3]%Z |};
         {| rows := [10; 10; 11; 11; 12; 12; 13; 13]%Z;
            cols := [2; 3; 2; 3; 4; 5; 4; 5]%Z |} ].
Proof. vm_compute. reflexivity. Qed.

(** Witness of C3: the chain on its six stored numbers. *)
Lemma stacking_equivalence_witness :
  exists stack_made,
    FactorStack.make chain (storage_metadata chain_assignments) false
    = Ok stack_made
    /\ Forall (fun f => Forall (within_storage chain_assignments)
                               (FactorBase.variables f)) chain
    /\ Forall (fun f => FactorBase.variables f <> []
                        \/ FactorBase.leaves f <> []) chain
    /\ exists (residuals : list ndarray) (jacobians : list (list ndarray))
              (stacked_jacobians : list ndarray),
         mapM (fun f => FactorStack.factor_residual_vector f
                          chain_assignments) chain = Ok residuals
         /\ mapM (fun f => FactorStack.factor_residual_jacobians f
                             chain_assignments) chain = Ok jacobians
         /\ FactorStack.compute_residual_vector stack_made chain_assignments
            = Ok (Axis residuals)
         /\ FactorStack.compute_residual_jacobian stack_made
              chain_assignments
            = Ok stacked_jacobians
         /\ (exists jacobians0,
               jacobians !! 0 = Some jacobians0
               /\ length stacked_jacobians = length jacobians0)
         /\ forall s stacked_s,
              stacked_jacobians !! s = Some stacked_s ->
              exists items,
                stacked_s = Axis items
                /\ length items = length chain
                /\ forall f jacobians_f J,
                     jacobians !! f = Some jacobians_f ->
                     jacobians_f !! s = Some J ->
                     items !! f = Some J.
Proof.
  eexists.
  assert (Forall (fun f => Forall (within_storage chain_assignments)
                                  (FactorBase.variables f)) chain) as Hb.
  { repeat constructor; cbn; lia. }
  assert (Forall (fun f => FactorBase.variables f <> []
                           \/ FactorBase.leaves f <> []) chain) as Hm.
  { repeat (apply Forall_cons; split; [left; discriminate|]).
    constructor. }
  split; [reflexivity|]. split; [exact Hb|]. split; [exact Hm|].
  exact (stacking_equivalence chain false _ chain_assignments eq_refl Hb Hm).
Defined.

(** The residuals of the chain, batched. *)
Example chain_residuals :
  (stack_made ← FactorStack.make chain chain_metadata false;
   FactorStack.compute_residual_vector stack_made chain_assignments)
  = Ok (Axis [vector [1; 2]%Q; vector [2; 2]%Q]).
Proof. vm_compute. reflexivity. Qed.

(** Witness of C8: the stack of the chain. *)
Lemma make_value_indices_witness :
  exists stack_made,
    FactorStack.make chain chain_metadata true = Ok stack_made
    /\ exists factor0,
         chain !! 0 = Some factor0
         /\ length (FactorStack.value_indices stack_made)
            = length (FactorBase.variables factor0)
         /\ forall s variable0,
              FactorBase.variables factor0 !! s = Some variable0 ->
              exists indices,
                FactorStack.value_indices stack_made !! s = Some indices
                /\ length indices = length chain
                /\ Forall (fun row =>
                             length row
                             = VariableBase.get_parameter_dim
                                 (VariableBase.type_of variable0)) indices
                /\ forall f factor,
                     chain !! f = Some factor ->
                     exists variable pos,
                       FactorBase.variables factor !! s = Some variable
                       /\ index_from_variable chain_metadata
                            !! VariableBase.ident variable = Some pos
                       /\ indices !! f
                          = Some (map (fun k => (pos + Z.of_nat k)%Z)
                                    (seq 0 (VariableBase.get_parameter_dim
                                              (VariableBase.type_of
                                                 variable)))).
Proof.
  eexists. split; [reflexivity|].
  exact (make_value_indices chain chain_metadata true _ eq_refl).
Defined.

(** The index arrays of the chain, written out. *)
Example chain_value_indices :
  FactorStack.value_indices <$> FactorStack.make chain chain_metadata true
  = Ok [[[0; 1]; [2; 3]]; [[2; 3]; [4; 5]]]%Z.
Proof. vm_compute. reflexivity. Qed.

(** A pose takes four stored numbers and three tangent directions: [make]
    indexes four offsets per operand, [compute_jacobian_coords] three
    columns. *)
Example pose_dimensions :
  FactorStack.value_indices
    <$> FactorStack.make [pose_prior 1 [0; 0; 0]%Q; pose_prior 3 [0; 0; 0]%Q]
          chain_metadata true
  = Ok [[[0; 1; 2; 3]; [4; 5; 6; 7]]]%Z
  /\ FactorStack.compute_jacobian_coords
       [pose_prior 1 [0; 0; 0]%Q; pose_prior 3 [0; 0; 0]%Q] chain_metadata 0
     = Ok [ {| rows := [0; 0; 0; 1; 1; 1; 2; 2; 2;
                        3; 3; 3; 4; 4; 4; 5; 5; 5]%Z;
               cols := [0; 1; 2; 0; 1; 2; 0; 1; 2;
                        4; 5; 6; 4; 5; 6; 4; 5; 6]%Z |} ].
Proof. split; vm_compute; reflexivity. Qed.

(** The exceptions of two failing sequences: the mismatch of classes is
    caught when the tree structures are compared; the operand without an
    entry raises [KeyError]. *)
Example mixed_raises :
  FactorStack.make mixed chain_metadata false
  = Raise (ValueError "tree structure mismatch").
Proof. vm_compute. reflexivity. Qed.

Example dangling_raises :
  FactorStack.make dangling chain_metadata false = Raise KeyError.
Proof. vm_compute. reflexivity. Qed.

End StackExamples.

(* ================================================================== *)
(** * FactorStack.make: when it returns and what it returns *)
(* ================================================================== *)

Lemma mapM_Raise {A B : Type} (f : A -> result B) (l : list A) (e : PyError) :
  mapM f l = Raise e -> exists x, x ∈ l /\ f x = Raise e.
Proof.
  induction l as [|x l IH]; [done|]. rewrite mapM_cons.
  destruct (f x) as [y|e'] eqn:Hx.
  - rewrite bind_Ok. destruct (mapM f l) as [k|e'] eqn:Hl; [done|].
    intros [= <-]. destruct IH as (x' & Hin & Hx'); [done|].
    exists x'. split; [by right|done].
  - intros [= <-]. exists x. split; [by left|done].
Qed.

Lemma stack_shapes (lib : Backend) (arrays : list Array) (a : Array) :
  stack lib arrays = Ok a ->
  exists a0 rest,
    arrays = a0 :: rest
    /\ Forall (fun x => shape (values x) = shape (values a0)) arrays.
Proof.
  unfold stack. destruct arrays as [|a0 rest]; [done|].
  destruct (forallb _ _) eqn:Hall; [|done]. intros _.
  exists a0, rest. split; [done|].
  rewrite forallb_forall in Hall. apply Forall_forall.
  intros x Hx%list_elem_of_In. by apply Hall, bool_decide_eq_true in Hx.
Qed.

Lemma stack_Raise (lib : Backend) (arrays : list Array) (e : PyError) :
  stack lib arrays = Raise e ->
  arrays <> [] ->
  e = ValueError "all input arrays must have the same shape".
Proof.
  unfold stack. destruct arrays as [|a0 rest]; [done|].
  destruct (forallb _ _); [done|]. by intros [= <-].
Qed.

Section LoopsRaise.
Context {V : Type} (row_of : nat -> V -> result (list Z)).

(** The inner loop stops at the first row that cannot be computed. *)
Lemma foldM_visit_Raise (operands : list V) (pre cur : list (list (list Z)))
    (e : PyError) :
  length cur = length operands ->
  mapM (fun slot => row_of slot.1 slot.2)
       (enumerate_from (length pre) operands) = Raise e ->
  foldM (visit_with row_of) (enumerate_from (length pre) operands)
        (pre ++ cur)
  = Raise e.
Proof.
  revert pre cur.
  induction operands as [|v operands IH]; intros pre cur Hlen Hrows; [done|].
  destruct cur as [|xs cur]; [done|]. simpl in Hlen.
  cbn [enumerate_from] in *. rewrite mapM_cons in Hrows.
  cbn [fst snd] in Hrows. cbn [foldM]. rewrite visit_with_pair.
  destruct (row_of (length pre) v) as [row|e'] eqn:Hrow.
  - rewrite bind_Ok in Hrows. rewrite bind_Ok, append_at_middle, bind_Ok.
    specialize (IH (pre ++ [snoc xs row]) cur).
    rewrite length_app, Nat.add_1_r, <- !app_assoc in IH.
    cbn [app length] in IH. apply IH; [lia|].
    destruct (mapM _ _) as [rws|e']; [done|]. done.
  - injection Hrows as <-. done.
Qed.

(** So do the two nested loops. *)
Lemma foldM_factors_Raise {F : Type} (operands_of : F -> list V)
    (fs : list F) (acc : list (list (list Z))) (e : PyError) :
  Forall (fun f => length (operands_of f) = length acc) fs ->
  mapM (fun f => rows_of_factor row_of (operands_of f)) fs = Raise e ->
  foldM (fun acc f =>
           foldM (visit_with row_of) (enumerate (operands_of f)) acc)
        fs acc
  = Raise e.
Proof.
  revert acc.
  induction fs as [|f fs IH]; intros acc Hlens Htable; [done|].
  rewrite mapM_cons in Htable.
  apply Forall_cons in Hlens as [Hlen Hlens].
  cbn [foldM]. unfold enumerate.
  destruct (rows_of_factor row_of (operands_of f)) as [rws|e'] eqn:Hrws.
  - rewrite bind_Ok in Htable.
    pose proof (foldM_visit row_of (operands_of f) [] acc rws) as Hinner.
    cbn [length app] in Hinner.
    rewrite Hinner by done. rewrite bind_Ok.
    apply IH.
    + assert (length rws = length acc) as Hrl.
      { apply mapM_Ok_length in Hrws.
        unfold enumerate in Hrws. rewrite enumerate_from_length in Hrws.
        lia. }
      by rewrite length_zip_with, Hrl, Nat.min_id.
    + destruct (mapM _ fs) as [table|e']; [done|]. done.
  - injection Htable as <-.
    pose proof (foldM_visit_Raise (operands_of f) [] acc e') as Hinner.
    cbn [length app] in Hinner. by rewrite Hinner.
Qed.

End LoopsRaise.

Section MakeReturns.
Context {VT FT Value : Type}.
Context `{VariableBase.Interface VT Value} `{FactorBase.Interface FT Value}.

Implicit Types (factor : FactorBase.t VT FT)
  (factors : list (FactorBase.t VT FT)) (metadata : StorageMetadata).

(** The leaves at one position of a stacked factor, read from the leaves
    of the factors. *)
Lemma stacked_leaves_lookup (lib : Backend) factors (width : nat)
    (leaves' : list Array) (j : nat) (leaf : Array) :
  stacked_leaves lib factors width = Ok leaves' ->
  leaves' !! j = Some leaf ->
  j < width
  /\ exists a0 rest,
       Forall2 (fun tree a => FactorBase.leaves tree !! j = Some a)
               factors (a0 :: rest)
       /\ Forall (fun x => shape (values x) = shape (values a0)) (a0 :: rest)
       /\ leaf = {| backend := lib;
                    values := Axis (map values (a0 :: rest)) |}.
Proof.
  intros Hstacked Hj.
  pose proof (mapM_Ok_length _ _ _ Hstacked) as Hlen.
  rewrite length_seq in Hlen.
  split; [rewrite <- Hlen; by eapply lookup_lt_Some|].
  apply mapM_Ok_Forall2 in Hstacked.
  destruct (Forall2_lookup_r _ _ _ _ _ Hstacked Hj) as (j' & Hj' & Hok).
  apply lookup_seq in Hj' as [-> _]. cbn in Hok.
  apply bind_Ok_inv in Hok as (arrays & Harrays & Hstack).
  destruct (stack_shapes _ _ _ Hstack) as (a0 & rest & -> & Hshapes).
  apply stack_inv in Hstack as [-> _].
  exists a0, rest. split; [|done].
  apply mapM_Ok_Forall2 in Harrays.
  eapply Forall2_impl; [exact Harrays|].
  intros tree a. apply list_getitem_Ok.
Qed.

(** The rows behind the index arrays of a stack that [make] returns: the
    row of factor [f] in the array of slot [s] is the range of offsets of
    the operand of [f] at [s]. *)
Lemma make_rows factors metadata (use_onp : bool)
    (stack_made : FactorStack.t VT FT) (s f : nat) factor
    (variable : VariableBase.t VT) :
  FactorStack.make factors metadata use_onp = Ok stack_made ->
  factors !! f = Some factor ->
  FactorBase.variables factor !! s = Some variable ->
  exists pos indices,
    index_from_variable metadata !! VariableBase.ident variable = Some pos
    /\ FactorStack.value_indices stack_made !! s = Some indices
    /\ indices !! f
       = Some (arange pos
                 (pos + Z.of_nat (VariableBase.get_parameter_dim
                                    (VariableBase.type_of variable)))).
Proof.
  intros Hmake Hf Hv.
  apply make_inv in Hmake
    as (factor0 & rest & table & -> & Hall & Htable & _ & _ & _ & _ & ->).
  apply mapM_Ok_Forall2 in Htable.
  destruct (Forall2_lookup_l _ _ _ _ _ Htable Hf) as (line & Hline & Hok).
  destruct (rows_of_factor_lookup _ _ _ _ _ Hok Hv) as (row & Hrow & Hmk).
  apply make_row_Ok in Hmk as (_ & _ & pos & _ & _ & _ & Hpos & ->).
  exists pos. eexists. split; [done|].
  rewrite Forall_forall in Hall.
  assert (s < length (signature factor0)) as Hs.
  { rewrite <- (same_structure_arity factor0 factor)
      by (apply Hall; by eapply list_elem_of_lookup_2).
    by eapply lookup_lt_Some. }
  rewrite by_slot_lookup by done. split; [done|].
  rewrite list_lookup_fmap, Hline. cbn. f_equal. by apply nth_lookup_Some.
Qed.

(** The leaves of factors of one structure stack only if their shapes
    agree position by position. *)
Lemma stacked_leaves_shapes (lib : Backend) factor0 rest
    (leaves' : list Array) :
  Forall (same_structure factor0) (factor0 :: rest) ->
  stacked_leaves lib (factor0 :: rest) (length (FactorBase.leaves factor0))
  = Ok leaves' ->
  Forall (same_shapes factor0) (factor0 :: rest).
Proof.
  intros Hall Hleaves.
  apply Forall_forall. intros f Hf.
  rewrite Forall_forall in Hall.
  destruct (Hall f Hf) as (_ & _ & Hwidth).
  apply list_elem_of_lookup in Hf as [i Hi].
  unfold same_shapes. apply Forall2_same_length_lookup_2; [done|].
  intros j a a0 Ha Ha0.
  pose proof (mapM_Ok_length _ _ _ Hleaves) as Hlen.
  rewrite length_seq in Hlen.
  destruct (lookup_lt_is_Some_2 leaves' j) as [leaf Hleaf].
  { rewrite Hlen. by eapply lookup_lt_Some. }
  destruct (stacked_leaves_lookup _ _ _ _ _ _ Hleaves Hleaf)
    as (_ & b0 & brest & Harrays & Hshapes & _).
  destruct (Forall2_lookup_l _ _ _ _ _ Harrays Hi) as (b & Hb & Hfb).
  assert (b = a) as -> by congruence.
  inversion Harrays as [|? ? ? ? Hb0 _]; subst.
  assert (b0 = a0) as -> by congruence.
  rewrite Forall_forall in Hshapes. apply Hshapes.
  by eapply list_elem_of_lookup_2.
Qed.

(** What a stack returned by [make] says about the factors. *)
Lemma make_Ok_conditions factors metadata (use_onp : bool)
    (stack_made : FactorStack.t VT FT) :
  FactorStack.make factors metadata use_onp = Ok stack_made ->
  exists factor0 rest,
    factors = factor0 :: rest
    /\ Forall (same_structure factor0) factors
    /\ Forall (same_shapes factor0) factors
    /\ Forall (covered metadata) factors.
Proof.
  intros Hmake.
  apply make_inv in Hmake
    as (factor0 & rest & table & -> & Hall & Htable & Hleaves & _).
  exists factor0, rest. split; [done|]. split; [done|]. split.
  - by eapply stacked_leaves_shapes.
  - apply Forall_forall. intros f Hf.
    apply list_elem_of_lookup in Hf as [i Hi].
    apply mapM_Ok_Forall2 in Htable.
    destruct (Forall2_lookup_l _ _ _ _ _ Htable Hi) as (line & _ & Hok).
    apply Forall_forall. intros v Hv.
    apply list_elem_of_lookup in Hv as [s Hs].
    destruct (rows_of_factor_lookup _ _ _ _ _ Hok Hs) as (row & _ & Hmk).
    apply make_row_Ok in Hmk as (_ & _ & pos & _ & _ & _ & Hpos & _).
    by exists pos.
Qed.

(** The factors on which [make] returns a stack. *)
Lemma make_conditions_Ok factor0 rest metadata (use_onp : bool) :
  Forall (same_structure factor0) (factor0 :: rest) ->
  Forall (same_shapes factor0) (factor0 :: rest) ->
  Forall (covered metadata) (factor0 :: rest) ->
  exists stack_made,
    FactorStack.make (factor0 :: rest) metadata use_onp = Ok stack_made.
Proof.
  intros Hall Hshapes Hcov.
  destruct (make_rows_intro factor0 rest metadata Hall Hcov)
    as [table Htable].
  destruct (stacked_leaves_intro (if use_onp then Onp else Jnp)
              factor0 rest Hshapes) as [leaves' Hleaves].
  eexists. by eapply make_intro.
Qed.

(** X1. [make] returns a stack exactly on a non-empty sequence of factors
    that all have the class, the operand classes, the number and the shapes
    of the array fields of the first one, and whose operands all have an
    entry in the storage metadata. *)
Theorem make_returns_iff factors metadata (use_onp : bool) :
  (exists stack_made,
     FactorStack.make factors metadata use_onp = Ok stack_made)
  <-> exists factor0 rest,
        factors = factor0 :: rest
        /\ Forall (same_structure factor0) factors
        /\ Forall (same_shapes factor0) factors
        /\ Forall (covered metadata) factors.
Proof.
  split.
  - intros [stack_made Hmake]. by eapply make_Ok_conditions.
  - intros (factor0 & rest & -> & Hall & Hshapes & Hcov).
    by apply make_conditions_Ok.
Qed.

(** The one way in which a row of [make] fails on an operand of the class
    of the first factor's. *)
Lemma make_row_Raise factors metadata (i : nat) (v : VariableBase.t VT)
    factor0 (e : PyError) :
  factors !! 0 = Some factor0 ->
  signature factor0 !! i = Some (VariableBase.type_of v) ->
  make_row factors metadata i v = Raise e ->
  e = KeyError
  /\ index_from_variable metadata !! VariableBase.ident v = None.
Proof.
  intros Hfirst Hi. unfold make_row, list_getitem. rewrite Hfirst, bind_Ok.
  unfold signature in Hi. rewrite list_lookup_fmap in Hi.
  destruct (FactorBase.variables factor0 !! i) as [variable0|]; [|done].
  injection Hi as Hi. rewrite bind_Ok.
  unfold VariableBase.isinstance. rewrite Hi.
  rewrite bool_decide_eq_true_2 by done. cbn [orb].
  unfold index_of.
  destruct (index_from_variable metadata !! VariableBase.ident v); [done|].
  by intros [= <-].
Qed.

(** The exceptions of [make], each with the defect of the input that
    raises it. *)
Lemma make_Raise_cases factors metadata (use_onp : bool) (e : PyError) :
  FactorStack.make factors metadata use_onp = Raise e ->
  (factors = [] /\ e = TypeError)
  \/ exists factor0 rest,
       factors = factor0 :: rest
       /\ ((~ Forall (same_structure factor0) factors
            /\ e = ValueError "tree structure mismatch")
           \/ (Forall (same_structure factor0) factors
               /\ ~ Forall (same_shapes factor0) factors
               /\ e = ValueError "all input arrays must have the same shape")
           \/ (Forall (same_structure factor0) factors
               /\ Forall (same_shapes factor0) factors
               /\ ~ Forall (covered metadata) factors
               /\ e = KeyError)).
Proof.
  destruct factors as [|factor0 rest].
  { intros [= <-]. by left. }
  intros Hmake. right. exists factor0, rest. split; [done|].
  pose proof Hmake as Hmake0.
  unfold FactorStack.make in Hmake.
  destruct (FactorBase.tree_map _ _) as [stacked|e'] eqn:Hstacked.
  - (* the factors stack: the loops raise *)
    apply tree_map_inv in Hstacked
      as (factor0' & rest' & [= <- <-] & Hall & Htype & Hvars & Hleaves).
    pose proof (stacked_leaves_shapes _ _ _ _ Hall Hleaves) as Hshapes.
    right. right. split; [done|]. split; [done|].
    rewrite bind_Ok in Hmake.
    destruct (mapM (fun f => rows_of_factor
                               (make_row (factor0 :: rest) metadata)
                               (FactorBase.variables f)) (factor0 :: rest))
      as [table|e'] eqn:Htable.
    { pose proof (make_intro factor0 rest metadata use_onp table _
                    Hall Hleaves Htable) as Hok.
      cbv zeta in Hok. by rewrite Hok in Hmake0. }
    assert (e = e') as <-.
    { rewrite Hvars, length_map in Hmake.
      erewrite foldM_ext in Hmake;
        [|intros acc f; apply foldM_ext, make_visit_row].
      erewrite foldM_factors_Raise in Hmake;
        [by injection Hmake| |exact Htable].
      rewrite length_replicate.
      eapply Forall_impl; [exact Hall|]. apply same_structure_arity. }
    apply mapM_Raise in Htable as (f & Hf & Hrows).
    apply mapM_Raise in Hrows as ([s v] & Hsv & Hrow).
    cbn [fst snd] in Hrow.
    apply list_elem_of_lookup in Hsv as [k Hk].
    unfold enumerate in Hk. rewrite enumerate_from_lookup in Hk.
    destruct (FactorBase.variables f !! k) as [v'|] eqn:Hv; [|done].
    injection Hk as <- <-. cbn [Nat.add] in Hrow.
    rewrite Forall_forall in Hall.
    destruct (Hall f Hf) as (_ & Hsig & _).
    apply (make_row_Raise _ _ _ _ factor0) in Hrow as [-> Hnone]; [| done |].
    + split; [|done]. intros Hcov. rewrite Forall_forall in Hcov.
      specialize (Hcov f Hf). unfold covered in Hcov.
      rewrite Forall_forall in Hcov.
      destruct (Hcov v' (list_elem_of_lookup_2 _ _ _ Hv)) as [pos Hpos].
      congruence.
    + rewrite <- Hsig. unfold signature. by rewrite list_lookup_fmap, Hv.
  - (* the factors do not stack *)
    assert (e = e') as <- by (by injection Hmake).
    clear Hmake. cbn [map FactorBase.tree_map] in Hstacked.
    destruct (forallb _ _) eqn:Hforall.
    + (* one structure: the shapes differ *)
      assert (Forall (same_structure factor0) (factor0 :: rest)) as Hall.
      { constructor; [done|].
        rewrite forallb_forall in Hforall. apply Forall_forall.
        intros f Hf. apply treedef_same_structure.
        apply list_elem_of_In in Hf.
        apply (in_map FactorBase.anonymize_variables) in Hf.
        apply Hforall in Hf. by apply bool_decide_eq_true in Hf. }
      right. left. split; [done|].
      destruct (mapM _ (seq _ _)) as [leaves'|e'] eqn:Hleaves; [done|].
      injection Hstacked as ->.
      cbn [FactorBase.leaves FactorBase.anonymize_variables] in Hleaves.
      split.
      * intros Hshapes.
        destruct (stacked_leaves_intro (if use_onp then Onp else Jnp)
                    factor0 rest Hshapes) as [leaves' Hok].
        unfold stacked_leaves in Hok.
        erewrite mapM_ext_in in Hleaves; [rewrite Hok in Hleaves; done|].
        intros j _. cbv beta.
        pose proof (anonymize_leaves (factor0 :: rest) j) as Hj.
        cbn [map] in Hj. by rewrite Hj.
      * apply mapM_Raise in Hleaves as (j & Hj & Hraise).
        pose proof (anonymize_leaves (factor0 :: rest) j) as Hanon.
        cbn [map] in Hanon. rewrite Hanon in Hraise. clear Hanon.
        apply elem_of_seq in Hj as [_ Hj]. cbn in Hj.
        destruct (mapM_Ok_exists
                    (fun tree => list_getitem (FactorBase.leaves tree) j)
                    (factor0 :: rest)) as [arrays Harrays].
        { eapply Forall_impl; [exact Hall|]. intros f (_ & _ & Hwidth).
          destruct (lookup_lt_is_Some_2 (FactorBase.leaves f) j)
            as [a Ha]; [lia|].
          exists a. by apply list_getitem_Ok. }
        rewrite Harrays, bind_Ok in Hraise.
        apply stack_Raise in Hraise; [done|].
        apply mapM_Ok_length in Harrays. by destruct arrays.
    + left. injection Hstacked as <-. split; [|done].
      intros Hall. apply Forall_cons in Hall as [_ Hall].
      apply not_true_iff_false in Hforall. apply Hforall.
      apply forallb_forall. intros tree Htree.
      apply bool_decide_eq_true.
      apply in_map_iff in Htree as (f & <- & Hf).
      apply treedef_same_structure.
      rewrite Forall_forall in Hall. apply Hall. by apply list_elem_of_In.
Qed.

(** X2. The exceptions of [make] and the inputs that raise them: a
    [TypeError] on no factors; the [ValueError] of [tree_map] when some
    factor differs from the first in class, operand classes or number of
    array fields; the [ValueError] of [stack] when the structures agree
    and the shapes of some array field differ; a [KeyError] when
    structures and shapes agree and some operand has no entry in the
    storage metadata. In particular neither assertion of the code, the
    one of [__post_init__] and the one in the loop, ever fails. *)
Theorem make_raises_iff factors metadata (use_onp : bool) (e : PyError) :
  FactorStack.make factors metadata use_onp = Raise e
  <-> (factors = [] /\ e = TypeError)
      \/ exists factor0 rest,
           factors = factor0 :: rest
           /\ ((~ Forall (same_structure factor0) factors
                /\ e = ValueError "tree structure mismatch")
               \/ (Forall (same_structure factor0) factors
                   /\ ~ Forall (same_shapes factor0) factors
                   /\ e = ValueError
                            "all input arrays must have the same shape")
               \/ (Forall (same_structure factor0) factors
                   /\ Forall (same_shapes factor0) factors
                   /\ ~ Forall (covered metadata) factors
                   /\ e = KeyError)).
Proof.
  split; [apply make_Raise_cases|].
  intros Hcases.
  destruct (FactorStack.make factors metadata use_onp)
    as [stack_made|e'] eqn:Hmake.
  - (* a stack is returned: none of the defects is there *)
    apply make_Ok_conditions in Hmake
      as (factor0 & rest & -> & Hall & Hshapes & Hcov).
    destruct Hcases as [[[=] _]|(f0 & r & [= <- <-] & Hcases)].
    destruct Hcases as [[Hn _]|[(_ & Hn & _)|(_ & _ & Hn & _)]]; done.
  - (* an exception is raised: it is that of the defect *)
    apply make_Raise_cases in Hmake.
    destruct Hcases as [[-> ->]|(factor0 & rest & -> & Hcases)].
    + destruct Hmake as [[_ ->]|(f0 & r & [=] & _)]. done.
    + destruct Hmake as [[[=] _]|(f0 & r & [= <- <-] & Hmake)].
      destruct Hcases as [[Hn ->]|[(Ha & Hn & ->)|(Ha & Hs & Hn & ->)]];
        destruct Hmake as [[Hm ->]|[(Ha' & Hm & ->)|(Ha' & Hs' & Hm & ->)]];
        done.
Qed.

(** X16. [make] never fails an assertion: by the time the loop compares
    the class of an operand with that of the first factor, [tree_map] has
    returned, so the anonymous factors have one tree structure and the
    classes agree; and the stack is built with one index array per operand
    slot, as [__post_init__] asks. *)
Theorem make_never_asserts factors metadata (use_onp : bool) (msg : string) :
  FactorStack.make factors metadata use_onp <> Raise (AssertionError msg).
Proof.
  intros Hmake. apply make_Raise_cases in Hmake.
  destruct Hmake as [[_ [=]]|(factor0 & rest & _ & Hcases)].
  destruct Hcases as [[_ [=]]|[(_ & _ & [=])|(_ & _ & _ & [=])]].
Qed.

End MakeReturns.

(* ================================================================== *)
(** * FactorStack.make: operand classes that differ, and that agree *)
(* ================================================================== *)

Section MakeTypeCheck.
Context {VT FT Value : Type}.
Context `{VariableBase.Interface VT Value} `{FactorBase.Interface FT Value}.

Implicit Types (factor : FactorBase.t VT FT)
  (factors : list (FactorBase.t VT FT)) (metadata : StorageMetadata).

(** C9 (amended). [make] fails, and returns no stack, whenever the class
    of an operand of some factor differs from the class of the first
    factor's operand at the same slot: the tree structures of the
    anonymous factors differ, and [tree_map] raises its [ValueError]. On
    a non-empty sequence of factors of one class whose operand classes
    agree slot by slot and whose operands all have an entry in the storage
    metadata, [make] returns a stack exactly when the array fields of
    every factor have the shapes of those of the first one. *)
Theorem make_type_check factors metadata (use_onp : bool) :
  ((exists factor0 factor i variable0 variable,
      factors !! 0 = Some factor0
      /\ factor ∈ factors
      /\ FactorBase.variables factor0 !! i = Some variable0
      /\ FactorBase.variables factor !! i = Some variable
      /\ VariableBase.type_of variable <> VariableBase.type_of variable0) ->
   FactorStack.make factors metadata use_onp
   = Raise (ValueError "tree structure mismatch"))
  /\ (forall factor0 rest,
        factors = factor0 :: rest ->
        Forall (fun f => FactorBase.type_of f = FactorBase.type_of factor0)
               factors ->
        Forall (fun f => signature f = signature factor0) factors ->
        Forall (covered metadata) factors ->
        (exists stack_made,
           FactorStack.make factors metadata use_onp = Ok stack_made)
        <-> Forall (same_shapes factor0) factors).
Proof.
  split.
  - intros (factor0 & factor & i & variable0 & variable
            & Hf0 & Hf & Hv0 & Hv & Hdiffer).
    assert (forall f0 rest,
              factors = f0 :: rest ->
              ~ Forall (same_structure f0) factors) as Hmismatch.
    { intros f0 rest -> Hall. injection Hf0 as ->.
      rewrite Forall_forall in Hall.
      destruct (Hall factor Hf) as (_ & Hsig & _).
      apply (f_equal (fun classes => classes !! i)) in Hsig.
      unfold signature in Hsig.
      rewrite !list_lookup_fmap, Hv, Hv0 in Hsig.
      injection Hsig as Hsig. done. }
    destruct (FactorStack.make factors metadata use_onp)
      as [stack_made|e] eqn:Hmake.
    + apply make_Ok_conditions in Hmake
        as (f0 & rest & Hfactors & Hall & _).
      by destruct (Hmismatch f0 rest Hfactors).
    + apply make_Raise_cases in Hmake.
      destruct Hmake as [[-> _]|(f0 & rest & Hfactors & Hcases)]; [done|].
      destruct Hcases as [[_ ->]|[(Hall & _)|(Hall & _)]]; [done| |];
        by destruct (Hmismatch f0 rest Hfactors).
  - intros factor0 rest -> Htype Hsig Hcov. split.
    + intros [stack_made Hmake].
      apply make_Ok_conditions in Hmake
        as (f0 & rest' & [= <- <-] & _ & Hshapes & _).
      done.
    + intros Hshapes. apply make_conditions_Ok; [|done|done].
      apply Forall_forall. intros f Hf.
      rewrite Forall_forall in Htype, Hsig, Hshapes.
      split; [by apply Htype|]. split; [by apply Hsig|].
      by eapply Forall2_length, Hshapes.
Qed.

End MakeTypeCheck.

Section MakeTypeCheckExamples.
Import Sample.

(** Counterexample to C9 as stated: two factors of one class whose operand
    classes match slot by slot and whose operands are all in the storage
    metadata, and yet [make] returns no stack, because their array fields
    differ in shape. *)
Lemma make_type_check_counterexample :
  ~ ((forall factor0 factor i variable0 variable,
        uneven !! 0 = Some factor0 ->
        factor ∈ uneven ->
        FactorBase.variables factor0 !! i = Some variable0 ->
        FactorBase.variables factor !! i = Some variable ->
        VariableBase.type_of variable = VariableBase.type_of variable0) ->
     exists stack_made,
       FactorStack.make uneven chain_metadata false = Ok stack_made).
Proof.
  intros Hclaim. destruct Hclaim as [stack_made Hmake].
  - intros factor0 factor i variable0 variable [= <-] Hfactor Hv0 Hv.
    apply elem_of_cons in Hfactor as [->|Hfactor];
      [|apply elem_of_cons in Hfactor as [->|Hfactor];
        [|by apply elem_of_nil in Hfactor]];
      destruct i as [|[|i]]; try done; cbn in Hv, Hv0;
      injection Hv as <-; injection Hv0 as <-; done.
  - revert Hmake. vm_compute. discriminate.
Qed.

(** The sequence is within the input contract of [make], and the
    exception is that of [stack]. *)
Example uneven_raises :
  Forall (fun f => FactorBase.type_of f
                   = FactorBase.type_of (between 1 2 [1; 0]%Q)) uneven
  /\ Forall (fun f => signature f = signature (between 1 2 [1; 0]%Q)) uneven
  /\ Forall (covered chain_metadata) uneven
  /\ FactorStack.make uneven chain_metadata false
     = Raise (ValueError "all input arrays must have the same shape").
Proof.
  split; [repeat constructor|]. split; [repeat constructor|].
  split; [repeat constructor; by eexists|]. vm_compute. reflexivity.
Qed.

(** Witness of C9 (amended): a sequence with operands of different
    classes at the second slot, and the chain. *)
Lemma make_type_check_witness :
  FactorStack.make mixed chain_metadata false
  = Raise (ValueError "tree structure mismatch")
  /\ ((exists stack_made,
         FactorStack.make chain chain_metadata false = Ok stack_made)
      <-> Forall (same_shapes (between 1 2 [1; 0]%Q)) chain).
Proof.
  split.
  - apply (proj1 (make_type_check mixed chain_metadata false)).
    exists (between 1 2 [1; 0]%Q), (mixed_second), 1,
      (variable 2 RealVector2), (variable 3 SE2Variable).
    repeat split; try reflexivity; [|discriminate].
    apply elem_of_cons. right. apply elem_of_cons. by left.
  - apply (proj2 (make_type_check chain chain_metadata false)
             (between 1 2 [1; 0]%Q) [between 2 3 [0; 1]%Q] eq_refl).
    + repeat constructor.
    + repeat constructor.
    + repeat constructor; by eexists.
Defined.

End MakeTypeCheckExamples.

(* ================================================================== *)
(** * FactorStack.make: the stacked factor and the index arrays *)
(* ================================================================== *)

Section MadeStack.
Context {VT FT Value : Type}.
Context `{VariableBase.Interface VT Value} `{FactorBase.Interface FT Value}.

Implicit Types (factor : FactorBase.t VT FT)
  (factors : list (FactorBase.t VT FT)) (metadata : StorageMetadata)
  (assignments : VariableAssignments StorageMetadata).


(** X4. Reading the storage through the index arrays of a stack that
    [make] returns gives back the slices of the operands: the row of
    factor [f] in the array gathered for slot [s] is the slice of the
    storage from the offset of the operand of [f] at [s] over its storage
    dimension, when that slice lies within the storage. *)
Theorem gather_row_is_slice factors assignments (use_onp : bool)
    (stack_made : FactorStack.t VT FT) (f s : nat) factor
    (variable : VariableBase.t VT)
    (Hmake : FactorStack.make factors (storage_metadata assignments) use_onp
             = Ok stack_made)
    (Hf : factors !! f = Some factor)
    (Hs : FactorBase.variables factor !! s = Some variable)
    (Hin : within_storage assignments variable) :
  exists pos indices,
    index_from_variable (storage_metadata assignments)
      !! VariableBase.ident variable = Some pos
    /\ FactorStack.value_indices stack_made !! s = Some indices
    /\ gather (storage assignments) indices !! f
       = Some (slice (storage assignments) pos
                 (pos + Z.of_nat (VariableBase.get_parameter_dim
                                    (VariableBase.type_of variable)))).
Proof.
  destruct (make_rows _ _ _ _ _ _ _ _ Hmake Hf Hs)
    as (pos & indices & Hpos & Hindices & Hrow).
  exists pos, indices. split; [done|]. split; [done|].
  unfold gather. rewrite list_lookup_fmap, Hrow. cbn. f_equal.
  unfold within_storage in Hin. rewrite Hpos in Hin.
  destruct Hin as [Hlo Hhi]. symmetry. by apply slice_gather.
Qed.

End MadeStack.

Section MadeStackExamples.
Import Sample.


(** The stacked target of the chain, written out. *)
Example chain_stacked_leaves :
  (fun stack_made => FactorBase.leaves (FactorStack.factor stack_made))
    <$> FactorStack.make chain chain_metadata false
  = Ok [ {| backend := Jnp;
            values := Axis [vector [1; 0]%Q; vector [0; 1]%Q] |} ].
Proof. vm_compute. reflexivity. Qed.

(** Witness of X4: the first operand of the second factor of the chain. *)
Lemma gather_row_is_slice_witness :
  exists stack_made,
    FactorStack.make chain (storage_metadata chain_assignments) false
    = Ok stack_made
    /\ chain !! 1 = Some (between 2 3 [0; 1]%Q)
    /\ FactorBase.variables (between 2 3 [0; 1]%Q) !! 0
       = Some (variable 2 RealVector2)
    /\ within_storage chain_assignments (variable 2 RealVector2)
    /\ exists pos indices,
         index_from_variable (storage_metadata chain_assignments)
           !! VariableBase.ident (variable 2 RealVector2) = Some pos
         /\ FactorStack.value_indices stack_made !! 0 = Some indices
         /\ gather (storage chain_assignments) indices !! 1
            = Some (slice (storage chain_assignments) pos
                      (pos + Z.of_nat (VariableBase.get_parameter_dim
                                         (VariableBase.type_of
                                            (variable 2 RealVector2))))).
Proof.
  assert (within_storage chain_assignments (variable 2 RealVector2)) as Hin
    by (vm_compute; split; discriminate).
  eexists.
  split; [reflexivity|]. split; [reflexivity|]. split; [reflexivity|].
  split; [exact Hin|].
  exact (gather_row_is_slice chain chain_assignments false _ 1 0
           (between 2 3 [0; 1]%Q) (variable 2 RealVector2)
           eq_refl eq_refl eq_refl Hin).
Defined.

End MadeStackExamples.

(* ================================================================== *)
(** * compute_jacobian_coords: what a returned value says *)
(* ================================================================== *)

Lemma Forall_stretch {A : Type} (P : A -> Prop) (want : nat) (l : list A) :
  Forall P l -> Forall P (stretch want l).
Proof.
  intros Hl. unfold stretch. destruct (_ =? _); [done|].
  induction Hl as [|x l Hx _ IH]; [constructor|].
  cbn [flat_map]. apply Forall_app. split; [|done].
  by apply Forall_replicate.
Qed.

Lemma Forall_chunks {A : Type} (P : A -> Prop) (n m : nat) (flat : list A) :
  Forall P flat -> Forall (Forall P) (chunks n m flat).
Proof.
  revert flat. induction n as [|n IH]; intros flat Hflat; [constructor|].
  cbn [chunks]. constructor; [by apply Forall_take|].
  by apply IH, Forall_drop.
Qed.

Lemma Forall_zip_with_l {A B C : Type} (Q : C -> Prop) (R : A -> Prop)
    (f : A -> B -> C) (l : list A) (k : list B) :
  (forall a b, R a -> Q (f a b)) -> Forall R l -> Forall Q (zip_with f l k).
Proof.
  intros Hf Hl. revert k.
  induction Hl as [|a l Ha _ IH]; intros [|b k]; cbn; try constructor; auto.
Qed.

Lemma Forall_zip_with_r {A B C : Type} (Q : C -> Prop) (R : B -> Prop)
    (f : A -> B -> C) (l : list A) (k : list B) :
  (forall a b, R b -> Q (f a b)) -> Forall R k -> Forall Q (zip_with f l k).
Proof.
  intros Hf Hk. revert l.
  induction Hk as [|b k Hb _ IH]; intros [|a l]; cbn; try constructor; auto.
Qed.

(** The entries of a broadcast array are entries of the array. *)
Lemma broadcast_Forall {A : Type} (P : A -> Prop)
    (a b : list (list (list A))) (shape_a target : nat * nat * nat) :
  broadcast_to_3d a shape_a target = Ok b ->
  Forall (Forall (Forall P)) a -> Forall (Forall (Forall P)) b.
Proof.
  unfold broadcast_to_3d.
  destruct shape_a as [[a1 a2] a3], target as [[n r] d].
  destruct (_ && _); [|done]. intros [= <-] Ha.
  apply Forall_stretch, Forall_fmap.
  eapply Forall_impl; [exact Ha|]. intros plane Hplane. cbn.
  apply Forall_stretch, Forall_fmap.
  eapply Forall_impl; [exact Hplane|]. intros row Hrow. cbn.
  by apply Forall_stretch.
Qed.

(** The pairs of two stacked blocks: their first components are entries
    of the first block, their second components entries of the second. *)
Lemma stack_last_Forall (P Q : Z -> Prop) (a b : list (list (list Z))) :
  (Forall (Forall (Forall P)) a ->
   Forall (fun pair => P pair.1) (concat (concat (stack_last a b))))
  /\ (Forall (Forall (Forall Q)) b ->
      Forall (fun pair => Q pair.2) (concat (concat (stack_last a b)))).
Proof.
  unfold stack_last. split; intros Hblock.
  - apply Forall_concat, Forall_concat.
    eapply Forall_zip_with_l; [|exact Hblock].
    intros plane plane' Hplane.
    eapply Forall_zip_with_l; [|exact Hplane].
    intros row row' Hrow. unfold zip.
    eapply Forall_zip_with_l; [|exact Hrow]. done.
  - apply Forall_concat, Forall_concat.
    eapply Forall_zip_with_r; [|exact Hblock].
    intros plane plane' Hplane.
    eapply Forall_zip_with_r; [|exact Hplane].
    intros row row' Hrow. unfold zip.
    eapply Forall_zip_with_r; [|exact Hrow]. done.
Qed.

Section CoordsReturns.
Context {VT FT Value : Type}.
Context `{VariableBase.Interface VT Value} `{FactorBase.Interface FT Value}.

Implicit Types (factor : FactorBase.t VT FT)
  (factors : list (FactorBase.t VT FT)) (metadata : StorageMetadata).

(** [compute_jacobian_coords], loop by loop. *)
Lemma compute_jacobian_coords_loops factors metadata (row_offset : Z) :
  FactorStack.compute_jacobian_coords factors metadata row_offset
  = (factor0 ← list_getitem factors 0;
     lists ←
       foldM (fun acc factor =>
                foldM (visit_with (coords_row metadata))
                      (enumerate (FactorBase.variables factor)) acc)
             factors (replicate (length (signature factor0)) []);
     stacked ← mapM onp_array lists;
     residual_indices ←
       reshape_2d
         (arange 0
            (Z.of_nat
               (length factors
                * FactorBase.get_residual_dim (FactorBase.type_of factor0)
                    (map values (FactorBase.leaves factor0)))))
         (length factors)
         (FactorBase.get_residual_dim (FactorBase.type_of factor0)
            (map values (FactorBase.leaves factor0)));
     mapM (slot_coords (length factors)
             (FactorBase.get_residual_dim (FactorBase.type_of factor0)
                (map values (FactorBase.leaves factor0)))
             row_offset residual_indices stacked)
          (enumerate (signature factor0))).
Proof.
  unfold FactorStack.compute_jacobian_coords.
  destruct (list_getitem factors 0) as [factor0|e]; [|done].
  rewrite !bind_Ok. unfold signature. rewrite length_map.
  erewrite foldM_ext; [|intros acc f; apply foldM_ext, coords_visit_row].
  done.
Qed.

(** What a coordinate object returned for one slot says. *)
Lemma slot_coords_inv (num_factors residual_dim : nat) (row_offset : Z)
    (residual_indices : list (list Z)) (stacked : list (list (list Z)))
    (s : nat) (cls : VT) (coords : SparseCooCoordinates) :
  slot_coords num_factors residual_dim row_offset residual_indices stacked
    (s, cls) = Ok coords ->
  exists row_block rows_of_slot shape_cols expanded col_block,
    broadcast_to_3d (expand_last residual_indices)
      (num_factors, residual_dim, 1)
      (num_factors, residual_dim, VariableBase.get_local_parameter_dim cls)
    = Ok row_block
    /\ stacked !! s = Some rows_of_slot
    /\ expand_middle rows_of_slot = Ok (shape_cols, expanded)
    /\ broadcast_to_3d expanded shape_cols
         (num_factors, residual_dim, VariableBase.get_local_parameter_dim cls)
       = Ok col_block
    /\ length (concat (concat
         (stack_last
            (map (map (map (fun x => (x + row_offset)%Z))) row_block)
            col_block)))
       = num_factors * residual_dim * VariableBase.get_local_parameter_dim cls
    /\ coords
       = coords_of_pairs
           (concat (concat
              (stack_last
                 (map (map (map (fun x => (x + row_offset)%Z))) row_block)
                 col_block))).
Proof.
  unfold slot_coords. intros Hslot.
  apply bind_Ok_inv in Hslot as (row_block & Hrows & Hslot).
  apply bind_Ok_inv in Hslot as (rows_of_slot & Hget & Hslot).
  apply bind_Ok_inv in Hslot as ([shape_cols expanded] & Hexp & Hslot).
  apply bind_Ok_inv in Hslot as (col_block & Hcols & Hslot).
  apply bind_Ok_inv in Hslot as (pairs & Hpairs & [= <-]).
  unfold reshape_pairs in Hpairs.
  destruct (_ =? _) eqn:Hlen; [|done]. injection Hpairs as <-.
  apply Nat.eqb_eq in Hlen. apply list_getitem_Ok in Hget.
  by exists row_block, rows_of_slot, shape_cols, expanded, col_block.
Qed.

(** What a returned list of coordinate objects says. *)
Lemma compute_jacobian_coords_inv factors metadata (row_offset : Z)
    (coords : list SparseCooCoordinates) :
  FactorStack.compute_jacobian_coords factors metadata row_offset
  = Ok coords ->
  exists factor0 rest lists,
    factors = factor0 :: rest
    /\ foldM (fun acc factor =>
                foldM (visit_with (coords_row metadata))
                      (enumerate (FactorBase.variables factor)) acc)
             factors (replicate (length (signature factor0)) [])
       = Ok lists
    /\ Forall2
         (fun slot c =>
            slot_coords (length factors)
              (FactorBase.get_residual_dim (FactorBase.type_of factor0)
                 (map values (FactorBase.leaves factor0)))
              row_offset
              (chunks (length factors)
                 (FactorBase.get_residual_dim (FactorBase.type_of factor0)
                    (map values (FactorBase.leaves factor0)))
                 (arange 0
                    (Z.of_nat
                       (length factors
                        * FactorBase.get_residual_dim
                            (FactorBase.type_of factor0)
                            (map values (FactorBase.leaves factor0))))))
              lists slot = Ok c)
         (enumerate (signature factor0)) coords.
Proof.
  rewrite compute_jacobian_coords_loops. intros Hcoords.
  apply bind_Ok_inv in Hcoords as (factor0 & Hget & Hcoords).
  apply bind_Ok_inv in Hcoords as (lists & Hloops & Hcoords).
  apply bind_Ok_inv in Hcoords as (stacked & Hstacked & Hcoords).
  apply bind_Ok_inv in Hcoords as (residual_indices & Hres & Hcoords).
  apply list_getitem_Ok in Hget.
  destruct factors as [|factor0' rest]; [done|]. injection Hget as ->.
  apply mapM_onp_array_inv in Hstacked as [-> _].
  unfold reshape_2d in Hres. destruct (_ =? _); [|done].
  injection Hres as <-.
  exists factor0, rest, lists. split; [done|]. split; [done|].
  by apply mapM_Ok_Forall2.
Qed.

(** A returned value tells that every operand was found. *)
Lemma compute_jacobian_coords_covered factors metadata (row_offset : Z)
    (coords : list SparseCooCoordinates) :
  FactorStack.compute_jacobian_coords factors metadata row_offset
  = Ok coords ->
  Forall (covered metadata) factors.
Proof.
  intros Hcoords.
  apply compute_jacobian_coords_inv in Hcoords
    as (factor0 & rest & lists & -> & Hloops & _).
  apply foldM_factors_inv in Hloops as (_ & _ & table & Htable).
  apply Forall_forall. intros f Hf.
  apply list_elem_of_lookup in Hf as [i Hi].
  apply mapM_Ok_Forall2 in Htable.
  destruct (Forall2_lookup_l _ _ _ _ _ Htable Hi) as (line & _ & Hok).
  apply Forall_forall. intros v Hv.
  apply list_elem_of_lookup in Hv as [s Hs].
  destruct (rows_of_factor_lookup _ _ _ _ _ Hok Hs) as (row & _ & Hrow).
  unfold coords_row in Hrow.
  apply bind_Ok_inv in Hrow as (pos & Hpos & _).
  apply index_of_Ok in Hpos. by exists pos.
Qed.

(** X6. When [compute_jacobian_coords] returns, the sequence of factors is
    not empty, every operand of every factor has an entry in the local
    metadata, no factor has more operands than the first one, and there is
    one coordinate object per operand slot of the first factor, whose row
    and column arrays both have [num_factors * residual_dim * local_dim]
    entries, for the local dimension of the class at that slot. *)
Theorem compute_jacobian_coords_returns factors metadata (row_offset : Z)
    (coords : list SparseCooCoordinates)
    (Hcoords : FactorStack.compute_jacobian_coords factors metadata row_offset
               = Ok coords) :
  exists factor0,
    factors !! 0 = Some factor0
    /\ Forall (covered metadata) factors
    /\ Forall (fun f => length (FactorBase.variables f)
                        <= length (FactorBase.variables factor0)) factors
    /\ Forall2
         (fun cls c =>
            length (rows c)
            = length factors
              * FactorBase.get_residual_dim (FactorBase.type_of factor0)
                  (map values (FactorBase.leaves factor0))
              * VariableBase.get_local_parameter_dim cls
            /\ length (cols c) = length (rows c))
         (signature factor0) coords.
Proof.
  pose proof (compute_jacobian_coords_covered _ _ _ _ Hcoords) as Hcov.
  apply compute_jacobian_coords_inv in Hcoords
    as (factor0 & rest & lists & -> & Hloops & Hslots).
  exists factor0. split; [done|]. split; [done|].
  apply foldM_factors_inv in Hloops as (_ & Harity & _).
  rewrite length_replicate in Harity. split.
  - eapply Forall_impl; [exact Harity|]. intros f Hf. cbv beta in *.
    unfold signature in Hf. by rewrite length_map in Hf.
  - apply Forall2_same_length_lookup_2.
    { apply Forall2_length in Hslots. unfold enumerate in Hslots.
      by rewrite enumerate_from_length in Hslots. }
    intros s cls c Hcls Hc.
    assert (enumerate (signature factor0) !! s = Some (s, cls)) as Hslot.
    { unfold enumerate. by rewrite enumerate_from_lookup, Hcls. }
    destruct (Forall2_lookup_l _ _ _ _ _ Hslots Hslot) as (c' & Hc' & Hok).
    assert (c' = c) as -> by congruence.
    apply slot_coords_inv in Hok
      as (row_block & rows_of_slot & shape_cols & expanded & col_block
          & _ & _ & _ & _ & Hlen & ->).
    unfold coords_of_pairs. cbn [rows cols]. by rewrite !length_map.
Qed.

(** The rows of the coordinate object of one slot lie in the block of the
    residual indices. *)
Lemma slot_coords_rows (num_factors residual_dim : nat) (row_offset : Z)
    (stacked : list (list (list Z))) (slot : nat * VT)
    (c : SparseCooCoordinates) :
  slot_coords num_factors residual_dim row_offset
    (chunks num_factors residual_dim
       (arange 0 (Z.of_nat (num_factors * residual_dim))))
    stacked slot = Ok c ->
  Forall (fun row =>
            (row_offset <= row
             < row_offset + Z.of_nat (num_factors * residual_dim))%Z)
         (rows c).
Proof.
  destruct slot as [s cls]. intros Hok.
  apply slot_coords_inv in Hok
    as (row_block & rows_of_slot & shape_cols & expanded & col_block
        & Hrows & _ & _ & _ & _ & ->).
  unfold coords_of_pairs. cbn [rows]. apply Forall_fmap.
  set (height := num_factors * residual_dim) in *.
  apply (proj1 (stack_last_Forall
                  (fun row => (row_offset <= row
                               < row_offset + Z.of_nat height)%Z)
                  (fun _ => True) _ _)).
  apply Forall_fmap.
  eapply Forall_impl;
    [apply (broadcast_Forall (fun x => (0 <= x < Z.of_nat height)%Z)
              _ _ _ _ Hrows)|].
  - unfold expand_last. apply Forall_fmap.
    eapply Forall_impl.
    { apply (Forall_chunks (fun x => (0 <= x < Z.of_nat height)%Z)).
      rewrite arange_0. apply Forall_fmap, Forall_forall.
      intros k Hk. apply elem_of_seq in Hk. unfold compose. lia. }
    intros row Hrow. unfold compose. apply Forall_fmap.
    eapply Forall_impl; [exact Hrow|]. intros x Hx. unfold compose.
    by constructor.
  - intros plane Hplane. unfold compose. apply Forall_fmap.
    eapply Forall_impl; [exact Hplane|]. intros row Hrow. unfold compose.
    apply Forall_fmap.
    eapply Forall_impl; [exact Hrow|]. intros x Hx. unfold compose.
    cbv beta in Hx. lia.
Qed.

(** X7. [compute_jacobian_coords] never writes outside its block of rows:
    when it returns, every row index of every coordinate object lies
    between [row_offset] included and
    [row_offset + num_factors * residual_dim] excluded, for the residual
    dimension of the first factor. *)
Theorem compute_jacobian_coords_row_block factors metadata (row_offset : Z)
    (coords : list SparseCooCoordinates) factor0
    (Hcoords : FactorStack.compute_jacobian_coords factors metadata row_offset
               = Ok coords)
    (Hfirst : factors !! 0 = Some factor0) :
  Forall
    (fun c =>
       Forall
         (fun row =>
            (row_offset <= row
             < row_offset
               + Z.of_nat
                   (length factors
                    * FactorBase.get_residual_dim
                        (FactorBase.type_of factor0)
                        (map values (FactorBase.leaves factor0))))%Z)
         (rows c))
    coords.
Proof.
  apply compute_jacobian_coords_inv in Hcoords
    as (factor0' & rest & lists & -> & _ & Hslots).
  injection Hfirst as ->.
  apply Forall_forall. intros c Hc.
  apply list_elem_of_lookup in Hc as [s Hs].
  destruct (Forall2_lookup_r _ _ _ _ _ Hslots Hs) as (slot & _ & Hok).
  by eapply slot_coords_rows.
Qed.

(** X8. The residual dimension of a stack is the height of its block of
    rows: for a stack that [make] returns on factors whose class reports
    for the stacked factor the residual dimension it reports for the first
    factor, every row index that [compute_jacobian_coords] returns for
    these factors lies between [row_offset] included and
    [row_offset + get_residual_dim()] excluded. *)
Theorem get_residual_dim_row_block factors metadata local_metadata
    (use_onp : bool) (stack_made : FactorStack.t VT FT) (row_offset : Z)
    (coords : list SparseCooCoordinates) factor0
    (Hmake : FactorStack.make factors metadata use_onp = Ok stack_made)
    (Hfirst : factors !! 0 = Some factor0)
    (Hdim : FactorBase.get_residual_dim (FactorBase.type_of factor0)
              (map values (FactorBase.leaves (FactorStack.factor stack_made)))
            = FactorBase.get_residual_dim (FactorBase.type_of factor0)
                (map values (FactorBase.leaves factor0)))
    (Hcoords : FactorStack.compute_jacobian_coords factors local_metadata
                 row_offset = Ok coords) :
  Forall
    (fun c =>
       Forall
         (fun row =>
            (row_offset <= row
             < row_offset
               + Z.of_nat (FactorStack.get_residual_dim stack_made))%Z)
         (rows c))
    coords.
Proof.
  apply make_inv in Hmake
    as (factor0' & rest & table & -> & _ & _ & _ & Hnum & Htype & _).
  injection Hfirst as ->.
  unfold FactorStack.get_residual_dim.
  rewrite Hnum, Htype, Hdim, Nat.mul_comm.
  apply compute_jacobian_coords_inv in Hcoords
    as (factor0' & rest' & lists & [= <- <-] & _ & Hslots).
  apply Forall_forall. intros c Hc.
  apply list_elem_of_lookup in Hc as [s Hs].
  destruct (Forall2_lookup_r _ _ _ _ _ Hslots Hs) as (slot & _ & Hok).
  by eapply slot_coords_rows.
Qed.

End CoordsReturns.

Section CoordsReturnsExamples.
Import Sample.

(** Witness of X6: the coordinates of the chain. *)
Lemma compute_jacobian_coords_returns_witness :
  exists coords,
    FactorStack.compute_jacobian_coords chain chain_metadata 10 = Ok coords
    /\ exists factor0,
         chain !! 0 = Some factor0
         /\ Forall (covered chain_metadata) chain
         /\ Forall (fun f => length (FactorBase.variables f)
                             <= length (FactorBase.variables factor0)) chain
         /\ Forall2
              (fun cls c =>
                 length (rows c)
                 = length chain
                   * FactorBase.get_residual_dim (FactorBase.type_of factor0)
                       (map values (FactorBase.leaves factor0))
                   * VariableBase.get_local_parameter_dim cls
                 /\ length (cols c) = length (rows c))
              (signature factor0) coords.
Proof.
  eexists. split; [reflexivity|].
  exact (compute_jacobian_coords_returns chain chain_metadata 10 _ eq_refl).
Defined.

(** Witness of X7: the rows of the chain from row 10 on. *)
Lemma compute_jacobian_coords_row_block_witness :
  exists coords,
    FactorStack.compute_jacobian_coords chain chain_metadata 10 = Ok coords
    /\ chain !! 0 = Some (between 1 2 [1; 0]%Q)
    /\ Forall
         (fun c =>
            Forall
              (fun row =>
                 (10 <= row
                  < 10
                    + Z.of_nat
                        (length chain
                         * FactorBase.get_residual_dim
                             (FactorBase.type_of (between 1 2 [1; 0]%Q))
                             (map values
                                (FactorBase.leaves
                                   (between 1 2 [1; 0]%Q)))))%Z)
              (rows c))
         coords.
Proof.
  eexists. split; [reflexivity|]. split; [reflexivity|].
  exact (compute_jacobian_coords_row_block chain chain_metadata 10 _
           (between 1 2 [1; 0]%Q) eq_refl eq_refl).
Defined.

(** Witness of X8: the stack of the chain and its rows. *)
Lemma get_residual_dim_row_block_witness :
  exists stack_made coords,
    FactorStack.make chain chain_metadata false = Ok stack_made
    /\ chain !! 0 = Some (between 1 2 [1; 0]%Q)
    /\ FactorBase.get_residual_dim
         (FactorBase.type_of (between 1 2 [1; 0]%Q))
         (map values (FactorBase.leaves (FactorStack.factor stack_made)))
       = FactorBase.get_residual_dim
           (FactorBase.type_of (between 1 2 [1; 0]%Q))
           (map values (FactorBase.leaves (between 1 2 [1; 0]%Q)))
    /\ FactorStack.compute_jacobian_coords chain chain_metadata 10
       = Ok coords
    /\ Forall
         (fun c =>
            Forall
              (fun row =>
                 (10 <= row
                  < 10 + Z.of_nat (FactorStack.get_residual_dim stack_made))%Z)
              (rows c))
         coords.
Proof.
  eexists. eexists.
  split; [reflexivity|]. split; [reflexivity|]. split; [reflexivity|].
  split; [reflexivity|].
  exact (get_residual_dim_row_block chain chain_metadata chain_metadata
           false _ 10 _ (between 1 2 [1; 0]%Q)
           eq_refl eq_refl eq_refl eq_refl).
Defined.

(** The residual dimension of the stack of the chain: two factors of two
    residual rows each. *)
Example chain_residual_dim :
  FactorStack.get_residual_dim
    <$> FactorStack.make chain chain_metadata false
  = Ok 4.
Proof. vm_compute. reflexivity. Qed.

End CoordsReturnsExamples.

(* ================================================================== *)
(** * compute_jacobian_coords: columns, row offset and missing entries *)
(* ================================================================== *)

Section LoopsContent.
Context {V : Type} (row_of : nat -> V -> result (list Z)).
Context (P : nat -> list Z -> Prop).

(** The inner loop only appends rows computed for the slot. *)
Lemma foldM_visit_content (operands : list V) (start : nat)
    (acc acc' : list (list (list Z))) :
  foldM (visit_with row_of) (enumerate_from start operands) acc = Ok acc' ->
  (forall s rws, acc !! s = Some rws -> Forall (P s) rws) ->
  (forall k v row,
     operands !! k = Some v -> row_of (start + k) v = Ok row ->
     P (start + k) row) ->
  forall s rws, acc' !! s = Some rws -> Forall (P s) rws.
Proof.
  revert start acc.
  induction operands as [|v operands IH]; intros start acc Hfold Hacc Hrows.
  - injection Hfold as <-. done.
  - cbn [enumerate_from foldM] in Hfold.
    apply bind_Ok_inv in Hfold as (acc1 & Hvisit & Hfold).
    rewrite visit_with_pair in Hvisit.
    apply bind_Ok_inv in Hvisit as (row & Hrow & Happ).
    unfold append_at in Happ.
    destruct (acc !! start) as [xs|] eqn:Hxs; [|done].
    injection Happ as <-.
    apply (IH (S start) (<[start := xs ++ [row]]> acc)); [done| |].
    + intros s rws Hs.
      destruct (decide (s = start)) as [->|Hne].
      * rewrite list_lookup_insert_eq in Hs
          by (by eapply lookup_lt_Some).
        injection Hs as <-. apply Forall_app. split; [by eapply Hacc|].
        constructor; [|constructor].
        specialize (Hrows 0 v row). rewrite Nat.add_0_r in Hrows.
        by apply Hrows.
      * rewrite list_lookup_insert_ne in Hs by done. by eapply Hacc.
    + intros k v' row' Hk Hrow'.
      specialize (Hrows (S k) v' row').
      rewrite Nat.add_succ_r in Hrows. by apply Hrows.
Qed.

(** So do the two nested loops. *)
Lemma foldM_factors_content {F : Type} (operands_of : F -> list V)
    (fs : list F) (acc acc' : list (list (list Z))) :
  foldM (fun acc f =>
           foldM (visit_with row_of) (enumerate (operands_of f)) acc)
        fs acc = Ok acc' ->
  (forall s rws, acc !! s = Some rws -> Forall (P s) rws) ->
  (forall f k v row,
     f ∈ fs -> operands_of f !! k = Some v -> row_of k v = Ok row ->
     P k row) ->
  forall s rws, acc' !! s = Some rws -> Forall (P s) rws.
Proof.
  revert acc.
  induction fs as [|f fs IH]; intros acc Hfold Hacc Hrows.
  - injection Hfold as <-. done.
  - cbn [foldM] in Hfold.
    apply bind_Ok_inv in Hfold as (acc1 & Hinner & Hfold).
    apply (IH acc1); [done| |].
    + eapply foldM_visit_content; [exact Hinner|exact Hacc|].
      intros k v row Hk Hrow. cbn [Nat.add] in *.
      eapply Hrows; [by left|exact Hk|exact Hrow].
    + intros f' k v row Hf'. apply Hrows. by right.
Qed.

End LoopsContent.

Lemma zip_map_l {A B C : Type} (g : A -> C) (l : list A) (k : list B) :
  zip (map g l) k = map (fun pair => (g pair.1, pair.2)) (zip l k).
Proof.
  revert k. induction l as [|x l IH]; intros [|y k]; cbn; try done.
  f_equal. apply IH.
Qed.

(** A function applied to the entries of the first of two stacked blocks
    is applied to the first components of their pairs. *)
Lemma stack_last_map (g : Z -> Z) (a b : list (list (list Z))) :
  concat (concat (stack_last (map (map (map g)) a) b))
  = map (fun pair => (g pair.1, pair.2)) (concat (concat (stack_last a b))).
Proof.
  unfold stack_last. revert b.
  induction a as [|plane a IH]; intros [|plane' b]; cbn [map zip_with concat];
    try done.
  rewrite !concat_app, map_app, IH. f_equal.
  clear IH. revert plane'.
  induction plane as [|row plane IH]; intros [|row' plane'];
    cbn [map zip_with concat]; try done.
  rewrite map_app, IH. f_equal. apply zip_map_l.
Qed.

Section CoordsProperties.
Context {VT FT Value : Type}.
Context `{VariableBase.Interface VT Value} `{FactorBase.Interface FT Value}.

Implicit Types (factor : FactorBase.t VT FT)
  (factors : list (FactorBase.t VT FT)) (metadata : StorageMetadata).

(** X9. [compute_jacobian_coords] never writes a column that belongs to
    no operand: when it returns, every column index of the coordinate
    object of a slot lies in the range of tangent indices, from its local
    offset over its local dimension, of the operand that some factor of
    the sequence has at that slot. *)
Theorem compute_jacobian_coords_columns factors metadata (row_offset : Z)
    (coords : list SparseCooCoordinates) (s : nat)
    (c : SparseCooCoordinates) (col : Z)
    (Hcoords : FactorStack.compute_jacobian_coords factors metadata row_offset
               = Ok coords)
    (Hc : coords !! s = Some c)
    (Hcol : col ∈ cols c) :
  exists factor variable pos,
    factor ∈ factors
    /\ FactorBase.variables factor !! s = Some variable
    /\ index_from_variable metadata !! VariableBase.ident variable = Some pos
    /\ (pos <= col
        < pos + Z.of_nat (VariableBase.get_local_parameter_dim
                            (VariableBase.type_of variable)))%Z.
Proof.
  apply compute_jacobian_coords_inv in Hcoords
    as (factor0 & rest & lists & -> & Hloops & Hslots).
  set (factors := factor0 :: rest) in *.
  set (in_range := fun (slot : nat) (column : Z) =>
         exists factor variable pos,
           factor ∈ factors
           /\ FactorBase.variables factor !! slot = Some variable
           /\ index_from_variable metadata !! VariableBase.ident variable
              = Some pos
           /\ (pos <= column
               < pos + Z.of_nat (VariableBase.get_local_parameter_dim
                                   (VariableBase.type_of variable)))%Z).
  change (in_range s col).
  assert (forall slot rws,
            lists !! slot = Some rws -> Forall (Forall (in_range slot)) rws)
    as Hlists.
  { eapply foldM_factors_content; [exact Hloops| |].
    - intros slot rws Hrws. apply lookup_replicate in Hrws as [-> _].
      constructor.
    - intros f k v row Hf Hk Hrow. unfold coords_row in Hrow.
      apply bind_Ok_inv in Hrow as (pos & Hpos & [= <-]).
      apply index_of_Ok in Hpos.
      rewrite arange_offsets. apply Forall_fmap, Forall_forall.
      intros j Hj. apply elem_of_seq in Hj. unfold compose.
      exists f, v, pos. split; [done|]. split; [done|]. split; [done|].
      lia. }
  destruct (Forall2_lookup_r _ _ _ _ _ Hslots Hc) as ([s' cls] & Hslot & Hok).
  unfold enumerate in Hslot. rewrite enumerate_from_lookup in Hslot.
  destruct (signature factor0 !! s) as [cls'|]; [|done].
  injection Hslot as <- <-.
  apply slot_coords_inv in Hok
    as (row_block & rows_of_slot & shape_cols & expanded & col_block
        & _ & Hrws & Hexp & Hbroadcast & _ & ->).
  unfold coords_of_pairs in Hcol. cbn [cols] in Hcol.
  apply list_elem_of_fmap in Hcol as (pair & -> & Hpair).
  assert (Forall (Forall (Forall (in_range s))) col_block) as Hblock.
  { eapply broadcast_Forall; [exact Hbroadcast|].
    unfold expand_middle in Hexp.
    destruct rows_of_slot as [|row0 rws]; [done|].
    injection Hexp as _ <-.
    apply (proj2 (Forall_fmap (fun row : list Z => [row]) _ (row0 :: rws))).
    eapply Forall_impl; [exact (Hlists _ _ Hrws)|].
    intros row Hrow. unfold compose. by constructor. }
  pose proof (proj2 (stack_last_Forall (fun _ => True) (in_range s)
                       (map (map (map (fun x => (x + row_offset)%Z)))
                            row_block)
                       col_block) Hblock) as Hpairs.
  rewrite Forall_forall in Hpairs. by apply Hpairs.
Qed.

(** The coordinate object of a slot at a row offset is that at offset
    zero, moved. *)
Lemma slot_coords_shift (num_factors residual_dim : nat) (row_offset : Z)
    (residual_indices : list (list Z)) (stacked : list (list (list Z)))
    (slot : nat * VT) :
  slot_coords num_factors residual_dim row_offset residual_indices stacked
    slot
  = shift_rows row_offset
      <$> slot_coords num_factors residual_dim 0 residual_indices stacked
            slot.
Proof.
  unfold slot_coords. destruct slot as [s cls].
  destruct (broadcast_to_3d (expand_last residual_indices) _ _)
    as [row_block|e]; [|done].
  rewrite !bind_Ok.
  destruct (list_getitem stacked s) as [rows_of_slot|e]; [|done].
  rewrite !bind_Ok.
  destruct (expand_middle rows_of_slot) as [[shape_cols expanded]|e];
    [|done].
  rewrite !bind_Ok.
  destruct (broadcast_to_3d expanded shape_cols _) as [col_block|e]; [|done].
  rewrite !bind_Ok.
  unfold reshape_pairs. rewrite !stack_last_map, !length_map.
  destruct (_ =? _); [|done].
  rewrite !bind_Ok. cbn [fmap result_fmap]. unfold shift_rows.
  cbn [rows cols]. rewrite !map_map. cbn [fst snd].
  f_equal. f_equal.
  apply map_ext. intros pair. lia.
Qed.

(** X10. The row offset only moves the rows: the coordinates at
    [row_offset] are those at offset zero with [row_offset] added to
    every row index and the columns unchanged, and the exceptions are the
    same. *)
Theorem compute_jacobian_coords_shift factors metadata (row_offset : Z) :
  FactorStack.compute_jacobian_coords factors metadata row_offset
  = map (shift_rows row_offset)
      <$> FactorStack.compute_jacobian_coords factors metadata 0.
Proof.
  rewrite !compute_jacobian_coords_loops.
  destruct (list_getitem factors 0) as [factor0|e]; [|done].
  rewrite !bind_Ok.
  destruct (foldM _ factors _) as [lists|e]; [|done].
  rewrite !bind_Ok.
  destruct (mapM onp_array lists) as [stacked|e]; [|done].
  rewrite !bind_Ok.
  destruct (reshape_2d _ _ _) as [residual_indices|e]; [|done].
  rewrite !bind_Ok.
  apply mapM_fmap. intros slot. apply slot_coords_shift.
Qed.

(** X11. A missing entry is an error, never a wrong layout: on a
    non-empty sequence of factors with the operand classes of the first
    one, [compute_jacobian_coords] raises [KeyError] as soon as some
    operand of some factor has no entry in the local metadata. *)
Theorem compute_jacobian_coords_missing_key factor0 rest metadata
    (row_offset : Z)
    (Hsig : Forall (fun f => signature f = signature factor0)
                   (factor0 :: rest))
    (Hmissing : ~ Forall (covered metadata) (factor0 :: rest)) :
  FactorStack.compute_jacobian_coords (factor0 :: rest) metadata row_offset
  = Raise KeyError.
Proof.
  rewrite compute_jacobian_coords_loops.
  change (list_getitem (factor0 :: rest) 0) with (Ok factor0).
  rewrite bind_Ok.
  destruct (mapM (fun f => rows_of_factor (coords_row metadata)
                             (FactorBase.variables f)) (factor0 :: rest))
    as [table|e] eqn:Htable.
  - (* every row is computed: every operand has an entry *)
    exfalso. apply Hmissing. apply Forall_forall. intros f Hf.
    apply list_elem_of_lookup in Hf as [i Hi].
    apply mapM_Ok_Forall2 in Htable.
    destruct (Forall2_lookup_l _ _ _ _ _ Htable Hi) as (line & _ & Hok).
    apply Forall_forall. intros v Hv.
    apply list_elem_of_lookup in Hv as [s Hs].
    destruct (rows_of_factor_lookup _ _ _ _ _ Hok Hs) as (row & _ & Hrow).
    unfold coords_row in Hrow.
    apply bind_Ok_inv in Hrow as (pos & Hpos & _).
    apply index_of_Ok in Hpos. by exists pos.
  - (* the first row that is not computed raises *)
    erewrite foldM_factors_Raise; [| |exact Htable].
    + apply mapM_Raise in Htable as (f & _ & Hrows).
      apply mapM_Raise in Hrows as ([s v] & _ & Hrow).
      cbn [fst snd] in Hrow. unfold coords_row, index_of in Hrow.
      destruct (index_from_variable metadata !! VariableBase.ident v);
        [done|].
      by injection Hrow as <-.
    + rewrite length_replicate.
      eapply Forall_impl; [exact Hsig|]. intros f Hf. cbv beta.
      rewrite <- Hf. unfold signature. by rewrite length_map.
Qed.

End CoordsProperties.

Section CoordsPropertiesExamples.
Import Sample.

(** Witness of X9: a column of the second slot of the chain. *)
Lemma compute_jacobian_coords_columns_witness :
  exists coords c,
    FactorStack.compute_jacobian_coords chain chain_metadata 10 = Ok coords
    /\ coords !! 1 = Some c
    /\ 5%Z ∈ cols c
    /\ exists factor variable pos,
         factor ∈ chain
         /\ FactorBase.variables factor !! 1 = Some variable
         /\ index_from_variable chain_metadata
              !! VariableBase.ident variable = Some pos
         /\ (pos <= 5
             < pos + Z.of_nat (VariableBase.get_local_parameter_dim
                                 (VariableBase.type_of variable)))%Z.
Proof.
  eexists. eexists.
  assert (5%Z ∈ [2; 3; 2; 3; 4; 5; 4; 5]%Z) as Hcol
    by (repeat (apply list_elem_of_here || apply list_elem_of_further)).
  split; [reflexivity|]. split; [reflexivity|]. split; [exact Hcol|].
  exact (compute_jacobian_coords_columns chain chain_metadata 10 _ 1 _ 5
           eq_refl eq_refl Hcol).
Defined.

(** Witness of X11: the factors with a variable that the metadata does not
    know. *)
Lemma compute_jacobian_coords_missing_key_witness :
  Forall (fun f => signature f = signature (between 1 2 [1; 0]%Q)) dangling
  /\ ~ Forall (covered chain_metadata) dangling
  /\ FactorStack.compute_jacobian_coords dangling chain_metadata 0
     = Raise KeyError.
Proof.
  assert (Forall (fun f => signature f = signature (between 1 2 [1; 0]%Q))
                 dangling) as Hsig by (repeat constructor).
  assert (~ Forall (covered chain_metadata) dangling) as Hmissing.
  { intros Hcov. apply Forall_cons in Hcov as [_ Hcov].
    apply Forall_cons in Hcov as [Hcov _].
    apply Forall_cons in Hcov as [_ Hcov].
    apply Forall_cons in Hcov as [[pos Hpos] _].
    vm_compute in Hpos. discriminate. }
  split; [exact Hsig|]. split; [exact Hmissing|].
  exact (compute_jacobian_coords_missing_key
           (between 1 2 [1; 0]%Q) [between 2 7 [0; 0]%Q] chain_metadata 0
           Hsig Hmissing).
Defined.

End CoordsPropertiesExamples.

(* ================================================================== *)
(** * LevenbergMarquardtSolver: what a run keeps *)
(* ================================================================== *)

Section SolverInvariants.
Import LevenbergMarquardt.

Context {StorageMetadata SparseCooMatrix : Type}.
Context `{ArrayOps StorageMetadata SparseCooMatrix}.

Implicit Types (self : LevenbergMarquardtSolver StorageMetadata SparseCooMatrix)
  (graph : StackedFactorGraph StorageMetadata SparseCooMatrix)
  (s : _LevenbergMarquardtState StorageMetadata).

(** X12. The solver never changes the layout of the storage: after any
    number of steps the assignments have the storage metadata they had
    before, whatever the retraction returns. *)
Theorem storage_metadata_kept self graph (k : nat) s :
  storage_metadata (assignments (iterate_step self graph k s))
  = storage_metadata (assignments s).
Proof.
  induction k as [|k IH]; [done|].
  rewrite iterate_step_S.
  destruct (step_fields self graph (iterate_step self graph k s))
    as (_ & _ & Hmeta & _).
  by rewrite Hmeta.
Qed.

(** One step keeps the cost that of the assignments. *)
Lemma step_cost_consistent self graph s :
  (forall a delta,
     storage_metadata (manifold_retract a delta) = storage_metadata a) ->
  cost s = (compute_cost graph (assignments s)).1 ->
  cost (_step self graph s)
  = (compute_cost graph (assignments (_step self graph s))).1
  /\ (accept_flag self graph s = true ->
      residual_vector (_step self graph s)
      = (compute_cost graph (assignments (_step self graph s))).2).
Proof.
  intros Hretract Hcost.
  assert (accept_flag self graph s = true ->
          assignments (_step self graph s)
          = assignments_proposed self graph s) as Haccepted.
  { intros Hacc. cbv [_step jnp_where]. cbn [assignments]. rewrite Hacc.
    unfold assignments_proposed at 2.
    rewrite <- (Hretract (assignments s)
                  (local_delta_assignments self graph s)).
    fold (assignments_proposed self graph s).
    by destruct (assignments_proposed self graph s). }
  destruct (accept_flag self graph s) eqn:Hacc.
  - destruct (step_accepted self graph s Hacc) as (_ & Hc & Hr).
    rewrite Haccepted by done. by split.
  - destruct (step_rejected self graph s Hacc) as (Ha & Hc & _).
    rewrite Ha, Hc. by split.
Qed.

(** X13. The stored cost is the cost of the stored assignments, all along
    a run from the initial state, when the retraction keeps the storage
    metadata; and so is the stored residual vector in the initial state
    and after every accepted step. *)
Theorem cost_consistent self graph
    (initial_assignments : VariableAssignments StorageMetadata) (k : nat)
    (Hretract : forall a delta,
       storage_metadata (manifold_retract a delta) = storage_metadata a) :
  cost (iterate_step self graph k
          (_initialize_state self graph initial_assignments))
  = (compute_cost graph
       (assignments
          (iterate_step self graph k
             (_initialize_state self graph initial_assignments)))).1
  /\ residual_vector (_initialize_state self graph initial_assignments)
     = (compute_cost graph
          (assignments
             (_initialize_state self graph initial_assignments))).2
  /\ (accept_flag self graph
        (iterate_step self graph k
           (_initialize_state self graph initial_assignments)) = true ->
      residual_vector
        (iterate_step self graph (S k)
           (_initialize_state self graph initial_assignments))
      = (compute_cost graph
           (assignments
              (iterate_step self graph (S k)
                 (_initialize_state self graph initial_assignments)))).2).
Proof.
  assert (cost (iterate_step self graph k
                  (_initialize_state self graph initial_assignments))
          = (compute_cost graph
               (assignments
                  (iterate_step self graph k
                     (_initialize_state self graph
                        initial_assignments)))).1) as Hcost.
  { induction k as [|k IH].
    - cbv [iterate_step Nat.iter nat_rect _initialize_state].
      destruct (compute_cost graph initial_assignments) eqn:Hinitial.
      cbn [cost assignments]. by rewrite Hinitial.
    - rewrite iterate_step_S. by apply step_cost_consistent. }
  split; [done|]. split.
  - unfold _initialize_state.
    destruct (compute_cost graph initial_assignments) eqn:Hinitial.
    cbn [residual_vector assignments]. by rewrite Hinitial.
  - rewrite iterate_step_S. by apply step_cost_consistent.
Qed.

(** One step keeps the damping positive and does not raise it above the
    larger of its value and [lambda_max]. *)
Lemma step_damping_range self graph s :
  (0 < lambda_min self)%Q ->
  (lambda_min self <= lambda_max self)%Q ->
  (1 <= lambda_factor self)%Q ->
  (0 < lambd s)%Q ->
  (0 < lambd (_step self graph s))%Q
  /\ (lambd (_step self graph s) <= Qmax (lambd s) (lambda_max self))%Q.
Proof.
  intros Hmin Hbounds Hfactor Hpos.
  assert (0 < lambda_factor self)%Q as Hfpos
    by (eapply Qlt_le_trans; [|exact Hfactor]; reflexivity).
  cbv [_step jnp_where]. cbn [lambd].
  destruct (accept_flag self graph s).
  - split.
    + apply Qlt_shift_div_l; [done|]. by rewrite Qmult_0_l.
    + eapply Qle_trans; [|apply Q.le_max_l].
      apply Qle_shift_div_r; [done|].
      eapply Qle_trans;
        [|apply (proj2 (Qmult_le_l 1 (lambda_factor self) (lambd s) Hpos)),
            Hfactor].
      rewrite Qmult_1_r. apply Qle_refl.
  - destruct (clamp_bounds (lambda_min self) (lambda_max self)
                (lambd s * lambda_factor self)%Q Hbounds) as [Hlo Hhi].
    split.
    + eapply Qlt_le_trans; [exact Hmin|exact Hlo].
    + eapply Qle_trans; [exact Hhi|apply Q.le_max_r].
Qed.

(** X14. The damping stays in range all along a run: with a positive
    [lambda_min] not above [lambda_max] and a [lambda_factor] of at least
    one, a positive damping stays positive after any number of steps,
    accepted or not, and never exceeds the larger of its first value and
    [lambda_max]. *)
Theorem damping_range self graph s (k : nat)
    (Hmin : (0 < lambda_min self)%Q)
    (Hbounds : (lambda_min self <= lambda_max self)%Q)
    (Hfactor : (1 <= lambda_factor self)%Q)
    (Hpos : (0 < lambd s)%Q) :
  (0 < lambd (iterate_step self graph k s))%Q
  /\ (lambd (iterate_step self graph k s)
      <= Qmax (lambd s) (lambda_max self))%Q.
Proof.
  induction k as [|k [IHpos IHle]].
  - split; [done|]. apply Q.le_max_l.
  - rewrite iterate_step_S.
    destruct (step_damping_range self graph (iterate_step self graph k s)
                Hmin Hbounds Hfactor IHpos) as [Hp Hl].
    split; [done|].
    eapply Qle_trans; [exact Hl|].
    apply Q.max_lub; [done|apply Q.le_max_r].
Qed.

(** X15. Rejected steps never move the estimate: after any number of
    steps that are all rejected, the assignments and the cost are those of
    the state before the first of them. *)
Theorem rejected_steps_keep_estimate self graph s (k : nat)
    (Hrejected : forall j, (j < k)%nat ->
       accept_flag self graph (iterate_step self graph j s) = false) :
  assignments (iterate_step self graph k s) = assignments s
  /\ cost (iterate_step self graph k s) = cost s.
Proof.
  induction k as [|k IH]; [done|].
  rewrite iterate_step_S.
  destruct (step_rejected self graph (iterate_step self graph k s))
    as (Ha & Hc & _); [apply Hrejected; lia|].
  destruct IH as [IHa IHc]; [intros j Hj; apply Hrejected; lia|].
  by rewrite Ha, Hc.
Qed.

End SolverInvariants.

Section SolverInvariantsExamples.
Import LevenbergMarquardt.

(** Witness of X13: two steps on the parabola, from [x = 1]. *)
Lemma cost_consistent_witness :
  (forall a delta : VariableAssignments unit,
     storage_metadata (manifold_retract a delta) = storage_metadata a)
  /\ cost (iterate_step Toy.exact Toy.parabola 2
             (_initialize_state Toy.exact Toy.parabola (Toy.start 1)))
     = (compute_cost Toy.parabola
          (assignments
             (iterate_step Toy.exact Toy.parabola 2
                (_initialize_state Toy.exact Toy.parabola
                   (Toy.start 1))))).1
  /\ residual_vector
       (_initialize_state Toy.exact Toy.parabola (Toy.start 1))
     = (compute_cost Toy.parabola
          (assignments
             (_initialize_state Toy.exact Toy.parabola (Toy.start 1)))).2
  /\ (accept_flag Toy.exact Toy.parabola
        (iterate_step Toy.exact Toy.parabola 2
           (_initialize_state Toy.exact Toy.parabola (Toy.start 1)))
      = true ->
      residual_vector
        (iterate_step Toy.exact Toy.parabola 3
           (_initialize_state Toy.exact Toy.parabola (Toy.start 1)))
      = (compute_cost Toy.parabola
           (assignments
              (iterate_step Toy.exact Toy.parabola 3
                 (_initialize_state Toy.exact Toy.parabola
                    (Toy.start 1))))).2).
Proof.
  assert (forall a delta : VariableAssignments unit,
            storage_metadata (manifold_retract a delta)
            = storage_metadata a) as Hretract by reflexivity.
  split; [exact Hretract|].
  exact (cost_consistent Toy.exact Toy.parabola (Toy.start 1) 2 Hretract).
Defined.

(** Witness of X14: three steps of the default solver on the parabola. *)
Lemma damping_range_witness :
  (0 < lambda_min Toy.exact)%Q
  /\ (lambda_min Toy.exact <= lambda_max Toy.exact)%Q
  /\ (1 <= lambda_factor Toy.exact)%Q
  /\ (0 < lambd Toy.far)%Q
  /\ (0 < lambd (iterate_step Toy.exact Toy.parabola 3 Toy.far))%Q
  /\ (lambd (iterate_step Toy.exact Toy.parabola 3 Toy.far)
      <= Qmax (lambd Toy.far) (lambda_max Toy.exact))%Q.
Proof.
  assert (0 < lambda_min Toy.exact)%Q as Hmin by reflexivity.
  assert (lambda_min Toy.exact <= lambda_max Toy.exact)%Q as Hbounds
    by (vm_compute; discriminate).
  assert (1 <= lambda_factor Toy.exact)%Q as Hfactor
    by (vm_compute; discriminate).
  assert (0 < lambd Toy.far)%Q as Hpos by reflexivity.
  split; [exact Hmin|]. split; [exact Hbounds|]. split; [exact Hfactor|].
  split; [exact Hpos|].
  exact (damping_range Toy.exact Toy.parabola Toy.far 3
           Hmin Hbounds Hfactor Hpos).
Defined.

(** Witness of X15: the first step from [Toy.far] is rejected. *)
Lemma rejected_steps_keep_estimate_witness :
  (forall j, (j < 1)%nat ->
     accept_flag Toy.exact Toy.parabola
       (iterate_step Toy.exact Toy.parabola j Toy.far) = false)
  /\ assignments (iterate_step Toy.exact Toy.parabola 1 Toy.far)
     = assignments Toy.far
  /\ cost (iterate_step Toy.exact Toy.parabola 1 Toy.far) = cost Toy.far.
Proof.
  assert (forall j, (j < 1)%nat ->
            accept_flag Toy.exact Toy.parabola
              (iterate_step Toy.exact Toy.parabola j Toy.far) = false)
    as Hrejected.
  { intros j Hj. destruct j as [|j]; [|lia]. vm_compute. reflexivity. }
  split; [exact Hrejected|].
  exact (rejected_steps_keep_estimate Toy.exact Toy.parabola Toy.far 1
           Hrejected).
Defined.

End SolverInvariantsExamples.

(* ================================================================== *)
(** * compute_jacobian_coords on the factors of a stack *)
(* ================================================================== *)

Lemma Forall_exists_Forall2 {A B : Type} (R : A -> B -> Prop) (l : list A) :
  Forall (fun x => exists y, R x y) l -> exists k, Forall2 R l k.
Proof.
  induction 1 as [|x l [y Hy] _ [k Hk]]; [by exists []|].
  exists (y :: k). by constructor.
Qed.

Lemma enumerate_from_map_fst {A : Type} (start : nat) (l : list A) :
  map fst (enumerate_from start l) = seq start (length l).
Proof.
  revert start. induction l as [|x l IH]; intros start; [done|].
  cbn. by rewrite IH.
Qed.

Lemma elem_of_enumerate {A : Type} (l : list A) (i : nat) (x : A) :
  (i, x) ∈ enumerate l <-> l !! i = Some x.
Proof.
  unfold enumerate. rewrite list_elem_of_lookup. split.
  - intros [k Hk]. rewrite enumerate_from_lookup in Hk.
    destruct (l !! k) as [y|] eqn:Hy; [|done].
    injection Hk as <- <-. done.
  - intros Hi. exists i. by rewrite enumerate_from_lookup, Hi.
Qed.

(** The pairs of the layout are pairwise distinct. *)
Lemma coords_spec_NoDup (offsets : list Z) (rd vd : nat) (row_offset : Z) :
  NoDup (coords_spec offsets rd vd row_offset).
Proof.
  unfold coords_spec. apply NoDup_bind.
  - intros [i1 pos1] [i2 pos2] pair Hin1 Hin2 Hp1 Hp2.
    apply elem_of_enumerate in Hin1, Hin2.
    apply list_elem_of_bind in Hp1 as (r1 & Hp1 & Hr1).
    apply list_elem_of_bind in Hp2 as (r2 & Hp2 & Hr2).
    apply list_elem_of_bind in Hp1 as (c1 & Hp1 & _).
    apply list_elem_of_bind in Hp2 as (c2 & Hp2 & _).
    apply list_elem_of_singleton in Hp1, Hp2. subst pair.
    apply elem_of_seq in Hr1, Hr2.
    injection Hp2 as Hrow _.
    assert (i1 = i2) as -> by nia. congruence.
  - intros [i pos] _. apply NoDup_bind.
    + intros r1 r2 pair _ _ Hp1 Hp2.
      apply list_elem_of_bind in Hp1 as (c1 & Hp1 & _).
      apply list_elem_of_bind in Hp2 as (c2 & Hp2 & _).
      apply list_elem_of_singleton in Hp1, Hp2. subst pair.
      injection Hp2 as Hrow _. lia.
    + intros r _. apply NoDup_bind.
      * intros c1 c2 pair _ _ Hp1 Hp2.
        apply list_elem_of_singleton in Hp1, Hp2. subst pair.
        injection Hp2 as Hcol. lia.
      * intros c _. apply NoDup_singleton.
      * apply NoDup_seq.
    + apply NoDup_seq.
  - apply (NoDup_fmap_1 fst).
    change (fst <$> enumerate offsets) with (map fst (enumerate offsets)).
    unfold enumerate. rewrite enumerate_from_map_fst. apply NoDup_seq.
Qed.

Lemma zip_fst_snd {A B : Type} (pairs : list (A * B)) :
  zip (map fst pairs) (map snd pairs) = pairs.
Proof.
  induction pairs as [|[a b] pairs IH]; [done|]. cbn. by rewrite IH.
Qed.

Section CoordsOfStack.
Context {VT FT Value : Type}.
Context `{VariableBase.Interface VT Value} `{FactorBase.Interface FT Value}.

Implicit Types (factor : FactorBase.t VT FT)
  (factors : list (FactorBase.t VT FT)) (metadata : StorageMetadata).

(** The coordinate object of a slot whose rows of local indices are the
    ranges that start at [offsets]. *)
Lemma slot_coords_layout (offsets : list Z) (residual_dim : nat)
    (row_offset : Z) (stacked : list (list (list Z))) (s : nat) (cls : VT) :
  0 < length offsets ->
  stacked !! s
  = Some (map (fun pos =>
                 arange pos
                   (pos + Z.of_nat (VariableBase.get_local_parameter_dim cls)))
              offsets) ->
  slot_coords (length offsets) residual_dim row_offset
    (chunks (length offsets) residual_dim
       (arange 0 (Z.of_nat (length offsets * residual_dim))))
    stacked (s, cls)
  = Ok (coords_of_pairs
          (coords_spec offsets residual_dim
             (VariableBase.get_local_parameter_dim cls) row_offset)).
Proof.
  intros Hpos Hs. unfold slot_coords.
  rewrite arange_0, chunks_seq.
  rewrite broadcast_rows, bind_Ok.
  2: { by rewrite length_map, length_seq. }
  2: { apply Forall_forall. intros row Hrow.
       apply list_elem_of_fmap in Hrow as (i & -> & _).
       by rewrite length_map, length_seq. }
  unfold list_getitem. rewrite Hs, bind_Ok.
  set (local_dim := VariableBase.get_local_parameter_dim cls).
  set (ranges := map (fun pos => arange pos (pos + Z.of_nat local_dim))
                     offsets).
  assert (length ranges = length offsets) as Hlen
    by (subst ranges; by rewrite length_map).
  assert (Forall (fun row => length row = local_dim) ranges) as Hrect.
  { subst ranges. apply Forall_forall. intros row Hrow.
    apply list_elem_of_fmap in Hrow as (pos & -> & _).
    apply arange_length. }
  rewrite (expand_middle_shape _ _ _ Hpos Hlen Hrect), bind_Ok.
  rewrite (broadcast_cols _ _ _ _ Hlen Hrect), bind_Ok.
  unfold reshape_pairs. subst ranges. rewrite stacked_blocks_spec.
  by rewrite coords_spec_length, Nat.eqb_refl, bind_Ok.
Qed.

(** The function on factors with the operand classes of the first one
    whose operands have the local offsets [offsets]. *)
Lemma compute_jacobian_coords_of_offsets factor0 rest metadata
    (row_offset : Z) (offsets : list (list Z)) :
  Forall (fun f => signature f = signature factor0) (factor0 :: rest) ->
  Forall2 (fun f line => offsets_of metadata (FactorBase.variables f) line)
          (factor0 :: rest) offsets ->
  FactorStack.compute_jacobian_coords (factor0 :: rest) metadata row_offset
  = Ok (imap
          (fun s cls =>
             coords_of_pairs
               (coords_spec (map (fun line => nth s line 0%Z) offsets)
                  (FactorBase.get_residual_dim (FactorBase.type_of factor0)
                     (map values (FactorBase.leaves factor0)))
                  (VariableBase.get_local_parameter_dim cls)
                  row_offset))
          (signature factor0)).
Proof.
  intros Hsig Hoff. rewrite compute_jacobian_coords_loops.
  change (list_getitem (factor0 :: rest) 0) with (Ok factor0).
  rewrite bind_Ok.
  erewrite foldM_ext;
    [|intros acc f; apply foldM_ext; intros acc' slot; symmetry;
      apply coords_visit_row].
  rewrite (coords_loops factor0 _ metadata offsets Hsig Hoff), bind_Ok.
  assert (length offsets = length (factor0 :: rest)) as Hn
    by (symmetry; by eapply Forall2_length).
  rewrite mapM_onp_array_rectangular, bind_Ok.
  2: { apply Forall_forall. intros rws Hrws.
       apply list_elem_of_lookup in Hrws as [s Hs].
       rewrite list_lookup_imap in Hs.
       destruct (signature factor0 !! s) as [cls|]; [|done].
       injection Hs as <-.
       exists (VariableBase.get_local_parameter_dim cls).
       unfold local_rows. apply Forall_forall. intros row Hrow.
       apply list_elem_of_fmap in Hrow as (pos & -> & _).
       apply arange_length. }
  unfold reshape_2d. rewrite arange_0, length_map, length_seq, Nat.eqb_refl.
  rewrite bind_Ok, <- arange_0.
  apply mapM_enumerate_imap. intros s cls Hcls.
  rewrite <- Hn.
  rewrite <- (length_map (fun line => nth s line 0%Z) offsets).
  apply slot_coords_layout.
  - rewrite length_map, Hn. cbn. lia.
  - by rewrite list_lookup_imap, Hcls.
Qed.

(** The local offsets of operands that are all found. *)
Lemma covered_offsets factors metadata :
  Forall (covered metadata) factors ->
  exists offsets,
    Forall2 (fun f line => offsets_of metadata (FactorBase.variables f) line)
            factors offsets.
Proof.
  intros Hcov. apply Forall_exists_Forall2.
  eapply Forall_impl; [exact Hcov|]. intros f Hf.
  by apply Forall_exists_Forall2.
Qed.

(** X17. Whatever [make] stacks, [compute_jacobian_coords] lays out: for
    factors on which [make] returns a stack, [compute_jacobian_coords]
    returns, at every row offset, exactly when every operand of every
    factor has an entry in the local metadata. *)
Theorem stacked_factors_have_coords factors metadata local_metadata
    (use_onp : bool) (stack_made : FactorStack.t VT FT) (row_offset : Z)
    (Hmake : FactorStack.make factors metadata use_onp = Ok stack_made) :
  (exists coords,
     FactorStack.compute_jacobian_coords factors local_metadata row_offset
     = Ok coords)
  <-> Forall (covered local_metadata) factors.
Proof.
  split.
  - intros [coords Hcoords]. by eapply compute_jacobian_coords_covered.
  - intros Hcov.
    apply make_Ok_conditions in Hmake as (factor0 & rest & -> & Hall & _).
    destruct (covered_offsets _ _ Hcov) as [offsets Hoff].
    eexists. apply compute_jacobian_coords_of_offsets; [|exact Hoff].
    eapply Forall_impl; [exact Hall|]. by intros f (_ & Hsig & _).
Qed.

(** X18. On factors with the operand classes of the first one, no
    coordinate object of [compute_jacobian_coords] names an entry of the
    matrix twice: its (row, column) pairs are pairwise distinct. *)
Theorem compute_jacobian_coords_no_duplicates factor0 rest metadata
    (row_offset : Z) (coords : list SparseCooCoordinates) (s : nat)
    (c : SparseCooCoordinates)
    (Hsig : Forall (fun f => signature f = signature factor0)
                   (factor0 :: rest))
    (Hcoords : FactorStack.compute_jacobian_coords (factor0 :: rest) metadata
                 row_offset = Ok coords)
    (Hc : coords !! s = Some c) :
  NoDup (zip (rows c) (cols c)).
Proof.
  pose proof (compute_jacobian_coords_covered _ _ _ _ Hcoords) as Hcov.
  destruct (covered_offsets _ _ Hcov) as [offsets Hoff].
  rewrite (compute_jacobian_coords_of_offsets _ _ _ _ _ Hsig Hoff) in Hcoords.
  injection Hcoords as <-.
  rewrite list_lookup_imap in Hc.
  destruct (signature factor0 !! s) as [cls|]; [|done].
  injection Hc as <-.
  unfold coords_of_pairs. cbn [rows cols]. rewrite zip_fst_snd.
  apply coords_spec_NoDup.
Qed.

End CoordsOfStack.

Section CoordsOfStackExamples.
Import Sample.

(** Witness of X17: the chain, stacked and laid out. *)
Lemma stacked_factors_have_coords_witness :
  exists stack_made,
    FactorStack.make chain chain_metadata false = Ok stack_made
    /\ ((exists coords,
           FactorStack.compute_jacobian_coords chain chain_metadata 10
           = Ok coords)
        <-> Forall (covered chain_metadata) chain).
Proof.
  eexists. split; [reflexivity|].
  exact (stacked_factors_have_coords chain chain_metadata chain_metadata
           false _ 10 eq_refl).
Defined.

(** Witness of X18: the second coordinate object of the chain. *)
Lemma compute_jacobian_coords_no_duplicates_witness :
  exists coords c,
    Forall (fun f => signature f = signature (between 1 2 [1; 0]%Q)) chain
    /\ FactorStack.compute_jacobian_coords chain chain_metadata 10
       = Ok coords
    /\ coords !! 1 = Some c
    /\ NoDup (zip (rows c) (cols c)).
Proof.
  assert (Forall (fun f => signature f = signature (between 1 2 [1; 0]%Q))
                 chain) as Hsig by (repeat constructor).
  eexists. eexists.
  split; [exact Hsig|]. split; [reflexivity|]. split; [reflexivity|].
  exact (compute_jacobian_coords_no_duplicates
           (between 1 2 [1; 0]%Q) [between 2 3 [0; 1]%Q] chain_metadata 10
           _ 1 _ Hsig eq_refl eq_refl).
Defined.

End CoordsOfStackExamples.
